(** * MGCX: lag search statistic and block-bootstrap p-value

    Shallow embedding of [mgcpy/independence_tests/mgcx.py] (class [MGCX]),
    and of the simulators and [compute_power] of
    [mgcpy/benchmarks/ts_benchmarks.py].

    Conventions of the embedding.
    - Python integers are [Z]; float64 values are exact rationals [Q]
      (rounding, overflow, infinities and NaN are outside the model: where
      numpy would produce NaN or an infinity by dividing by zero, the model
      stops with [FloatingPointError]).
    - A 2-D numpy array is a list of rows; a 1-D array is a list.
    - Methods run in a monad that threads the state of the world (the object
      [self], the store of mutable arrays, the global random generator and a
      log of the calls made to the correlation engine) and may raise.  A
      raised exception keeps the state reached so far, as in Python.
    - The generator behind [np.random] is the sequence of raw draws still
      to come; nothing is assumed about it.
    - The collaborators that are imported from elsewhere ([MGC()],
      [compute_distance], [IndependenceTest.__init__], [np.sqrt],
      [scipy.stats.norm.cdf]) are parameters of the development. *)

From Stdlib Require Import ZArith QArith Qminmax Qabs Qpower String Lia.
From stdpp Require Import base list list_numbers.

Local Open Scope Z_scope.

(** ** Arrays *)

Definition matrix := list (list Q).

Inductive ndarray :=
| Array1 (v : list Q)
| Array2 (m : matrix).

(** [a.shape[0]] *)
Definition shape0 (a : ndarray) : Z :=
  match a with
  | Array1 v => Z.of_nat (length v)
  | Array2 m => Z.of_nat (length m)
  end.

(** [len(a.shape)] *)
Definition ndim (a : ndarray) : Z :=
  match a with Array1 _ => 1 | Array2 _ => 2 end.

(** [a.reshape((n, 1))] for a 1-D array of length [n]: one column. *)
Definition reshape_column (v : list Q) : matrix := (λ x, [x]) <$> v.

(** The two lines [if len(a.shape) == 1: a = a.reshape((n, 1))]. *)
Definition as_2d (a : ndarray) : matrix :=
  match a with
  | Array1 v => reshape_column v
  | Array2 m => m
  end.

(** Bound of a slice [lo:hi] on a sequence of length [len]: a negative bound
    counts from the end, and everything is clipped to [0..len]. *)
Definition slice_bound (len i : Z) : Z :=
  if i <? 0 then Z.max 0 (i + len) else Z.min i len.

(** [l[lo:hi]] *)
Definition slice {A} (l : list A) (lo hi : Z) : list A :=
  let len := Z.of_nat (length l) in
  let a := slice_bound len lo in
  let b := slice_bound len hi in
  take (Z.to_nat (b - a)) (drop (Z.to_nat a) l).

(** [m[r0:r1, c0:c1]] *)
Definition slice2 (m : matrix) (r0 r1 c0 c1 : Z) : matrix :=
  (λ row, slice row c0 c1) <$> slice m r0 r1.

(** [np.arange(a, b)] and [range(a, b)] *)
Definition arange (a b : Z) : list Z := seqZ a (b - a).

(** Position of index [i] in a sequence of length [len] for element access:
    a negative index counts from the end; out of range gives [None]. *)
Definition norm_index (len : nat) (i : Z) : option nat :=
  if (0 <=? i) && (i <? Z.of_nat len) then Some (Z.to_nat i)
  else if (- Z.of_nat len <=? i) && (i <? 0) then Some (Z.to_nat (i + Z.of_nat len))
  else None.

Definition item {A} (l : list A) (i : Z) : option A :=
  p ← norm_index (length l) i; l !! p.

(** [m[np.ix_(rows, cols)]]: [None] stands for numpy's [IndexError]. *)
Definition ix_select (m : matrix) (rows cols : list Z) : option matrix :=
  mapM (λ r, row ← item m r; mapM (item row) cols) rows.

Definition is_square (n : nat) (m : matrix) : Prop :=
  length m = n ∧ Forall (λ row, length row = n) m.

(** Dropping the first [j] rows and columns, and the last [j] rows and
    columns, of a matrix: the sub-matrices a lag of [j] compares. *)
Definition drop_first (j : nat) (m : matrix) : matrix := drop j <$> drop j m.
Definition drop_last (j : nat) (m : matrix) : matrix :=
  (λ row, take (length row - j) row) <$> take (length m - j) m.

(** ** Arithmetic *)

(** [math.ceil(math.sqrt(n))] and [int(np.ceil(np.sqrt(n)))] for [n >= 0]. *)
Definition ceil_sqrt (n : Z) : Z :=
  let r := Z.sqrt n in if r * r =? n then r else r + 1.

Definition Qsum (l : list Q) : Q := foldr Qplus 0%Q l.

(** [a > b] on floats *)
Definition Qgtb (a b : Q) : bool := negb (Qle_bool a b).

(** [np.sum(np.greater(l, x))] *)
Definition count_greater (l : list Q) (x : Q) : Z :=
  Z.of_nat (length (filter (λ y, Qgtb y x = true) l)).

(** ** Exceptions and the world *)

Inductive exn :=
| AssertionError (msg : string)
| ValueError
| IndexError
| ZeroDivisionError
| FloatingPointError.

Inductive result (A : Type) :=
| Ok (a : A)
| Raise (e : exn).
Arguments Ok {A} a.
Arguments Raise {A} e.

(** [optimal_scale]: a pair of scale indices. *)
Definition scale := (Z * Z)%type.

(** Address of a mutable 1-D float array in the store. *)
Definition addr := nat.

(** The dict stored in [test_statistic_metadata_]; [dependence_by_lag] is a
    reference to the numpy array. *)
Record ts_metadata := {
  optimal_lag : Z;
  optimal_scale : scale;
  dependence_by_lag : addr
}.

(** The dict stored in [p_value_metadata_]. *)
Record pv_metadata := {
  null_distribution : addr
}.

(** The engine object [MGC()]: its [test_statistic] returns the statistic and
    the [optimal_scale] entry of its metadata. *)
Record MGC := {
  MGC_test_statistic : matrix → matrix → Q * scale
}.

(** A pluggable distance function: data matrix to pairwise distance matrix. *)
Definition distance_fn := matrix → matrix.

(** The fields of an [MGCX] object: [max_lag], [which_test] and [mgc] are
    set by [MGCX.__init__], the others belong to the base class
    [IndependenceTest]. *)
Record MGCX := {
  compute_distance_matrix : option distance_fn;
  max_lag : option Z;
  which_test : string;
  mgc : MGC;
  test_statistic_ : option Q;
  test_statistic_metadata_ : option ts_metadata;
  p_value_ : option Q;
  p_value_metadata_ : option pv_metadata
}.

(** State of the generator behind [np.random]: the raw draws still to come. *)
Definition rng_state := nat → Z.

(** [np.random.choice(a, size)] for [0 < a] and [0 <= size]: [size] draws
    from [{0,...,a-1}], with replacement, and the generator after them. *)
Definition choice (g : rng_state) (a size : Z) : list Z * rng_state :=
  let k := Z.to_nat size in
  ((λ i, g i `mod` a) <$> seq 0 k, λ i, g (k + i)%nat).

Record world := {
  self : MGCX;
  heap : list (list Q);
  rng : rng_state;
  engine_log : list (matrix * matrix)
}.

Definition with_self (o : MGCX) (w : world) : world :=
  {| self := o; heap := heap w; rng := rng w; engine_log := engine_log w |}.
Definition with_heap (h : list (list Q)) (w : world) : world :=
  {| self := self w; heap := h; rng := rng w; engine_log := engine_log w |}.
Definition with_rng (g : rng_state) (w : world) : world :=
  {| self := self w; heap := heap w; rng := g; engine_log := engine_log w |}.
Definition with_log (l : list (matrix * matrix)) (w : world) : world :=
  {| self := self w; heap := heap w; rng := rng w; engine_log := l |}.

Definition set_max_lag (v : option Z) (o : MGCX) : MGCX :=
  {| compute_distance_matrix := compute_distance_matrix o; max_lag := v;
     which_test := which_test o; mgc := mgc o;
     test_statistic_ := test_statistic_ o;
     test_statistic_metadata_ := test_statistic_metadata_ o;
     p_value_ := p_value_ o; p_value_metadata_ := p_value_metadata_ o |}.

Definition set_which_test (v : string) (o : MGCX) : MGCX :=
  {| compute_distance_matrix := compute_distance_matrix o; max_lag := max_lag o;
     which_test := v; mgc := mgc o;
     test_statistic_ := test_statistic_ o;
     test_statistic_metadata_ := test_statistic_metadata_ o;
     p_value_ := p_value_ o; p_value_metadata_ := p_value_metadata_ o |}.

Definition set_mgc (v : MGC) (o : MGCX) : MGCX :=
  {| compute_distance_matrix := compute_distance_matrix o; max_lag := max_lag o;
     which_test := which_test o; mgc := v;
     test_statistic_ := test_statistic_ o;
     test_statistic_metadata_ := test_statistic_metadata_ o;
     p_value_ := p_value_ o; p_value_metadata_ := p_value_metadata_ o |}.

(** [self.test_statistic_metadata_ = md] *)
Definition set_test_statistic_metadata_ (md : ts_metadata) (o : MGCX) : MGCX :=
  {| compute_distance_matrix := compute_distance_matrix o; max_lag := max_lag o;
     which_test := which_test o; mgc := mgc o;
     test_statistic_ := test_statistic_ o;
     test_statistic_metadata_ := Some md;
     p_value_ := p_value_ o; p_value_metadata_ := p_value_metadata_ o |}.

(** [self.test_statistic_ = s] *)
Definition set_test_statistic_ (s : Q) (o : MGCX) : MGCX :=
  {| compute_distance_matrix := compute_distance_matrix o; max_lag := max_lag o;
     which_test := which_test o; mgc := mgc o;
     test_statistic_ := Some s;
     test_statistic_metadata_ := test_statistic_metadata_ o;
     p_value_ := p_value_ o; p_value_metadata_ := p_value_metadata_ o |}.

(** [self.p_value_ = p] *)
Definition set_p_value_ (p : Q) (o : MGCX) : MGCX :=
  {| compute_distance_matrix := compute_distance_matrix o; max_lag := max_lag o;
     which_test := which_test o; mgc := mgc o;
     test_statistic_ := test_statistic_ o;
     test_statistic_metadata_ := test_statistic_metadata_ o;
     p_value_ := Some p; p_value_metadata_ := p_value_metadata_ o |}.

(** [self.p_value_metadata_ = md] *)
Definition set_p_value_metadata_ (md : pv_metadata) (o : MGCX) : MGCX :=
  {| compute_distance_matrix := compute_distance_matrix o; max_lag := max_lag o;
     which_test := which_test o; mgc := mgc o;
     test_statistic_ := test_statistic_ o;
     test_statistic_metadata_ := test_statistic_metadata_ o;
     p_value_ := p_value_ o; p_value_metadata_ := Some md |}.

(** ** The monad *)

Definition Py (A : Type) : Type := world → result A * world.

Definition ret {A} (a : A) : Py A := λ w, (Ok a, w).
Definition raise {A} (e : exn) : Py A := λ w, (Raise e, w).
Definition bind {A B} (c : Py A) (k : A → Py B) : Py B :=
  λ w, match c w with
       | (Ok a, w') => k a w'
       | (Raise e, w') => (Raise e, w')
       end.

Notation "'do' x <- c ; k" := (bind c (λ x, k))
  (at level 10, x name, c at level 100, k at level 200,
   format "'[v' 'do'  x  <-  c ; '/' k ']'").
Notation "'do' ' p <- c ; k" := (bind c (λ x, match x with p => k end))
  (at level 10, p pattern, c at level 100, k at level 200,
   format "'[v' 'do'  ' p  <-  c ; '/' k ']'").
Notation "c ;; k" := (bind c (λ _, k))
  (at level 100, k at level 200, right associativity).

Definition get_self : Py MGCX := λ w, (Ok (self w), w).
Definition modify_self (f : MGCX → MGCX) : Py unit :=
  λ w, (Ok tt, with_self (f (self w)) w).

(** [assert c, msg] *)
Definition assert (c : bool) (msg : string) : Py unit :=
  if c then ret tt else raise (AssertionError msg).

(** [for x in xs: s = body(x, s)] *)
Fixpoint for_each {A S} (xs : list A) (body : A → S → Py S) (s : S) : Py S :=
  match xs with
  | [] => ret s
  | x :: xs' => do s' <- body x s; for_each xs' body s'
  end.

(** [[f(x) for x in xs]], in order. *)
Fixpoint map_each {A B} (f : A → Py B) (xs : list A) : Py (list B) :=
  match xs with
  | [] => ret []
  | x :: xs' => do y <- f x; do ys <- map_each f xs'; ret (y :: ys)
  end.

(** Float division [a / b].  With a zero divisor numpy returns NaN or an
    infinity, warns and carries on; these values are not rationals, and the
    model stops there with [FloatingPointError].  Such a run is outside
    what the model describes: every theorem below that gives the result of
    a call is about a run that reaches no such division. *)
Definition true_divide (a b : Q) : Py Q :=
  if Qeq_bool b 0 then raise FloatingPointError else ret (a / b)%Q.

(** [a // b] on Python integers. *)
Definition floor_divide (a b : Z) : Py Z :=
  if b =? 0 then raise ZeroDivisionError else ret (a / b).

(** [a / b] on Python integers. *)
Definition int_true_divide (a b : Z) : Py Q :=
  if b =? 0 then raise ZeroDivisionError
  else ret (inject_Z a / inject_Z b)%Q.

(** [np.zeros(len)]: a fresh array in the store. *)
Definition np_zeros (len : Z) : Py addr :=
  if len <? 0 then raise ValueError
  else λ w, (Ok (length (heap w)),
             with_heap (heap w ++ [replicate (Z.to_nat len) 0%Q]) w).

(** A Python list, stored as a fresh object. *)
Definition new_list (l : list Q) : Py addr :=
  λ w, (Ok (length (heap w)), with_heap (heap w ++ [l]) w).

Definition read_array (a : addr) : Py (list Q) :=
  λ w, match heap w !! a with
       | Some arr => (Ok arr, w)
       | None => (Raise IndexError, w)
       end.

(** [arr[i] = v] *)
Definition setitem (a : addr) (i : Z) (v : Q) : Py unit :=
  do arr <- read_array a;
  match norm_index (length arr) i with
  | Some p => λ w, (Ok tt, with_heap (<[a := <[p := v]> arr]> (heap w)) w)
  | None => raise IndexError
  end.

(** [arr[i]] *)
Definition getitem (a : addr) (i : Z) : Py Q :=
  do arr <- read_array a;
  match item arr i with
  | Some v => ret v
  | None => raise IndexError
  end.

(** [self.mgc.test_statistic(A, B)], logged. *)
Definition mgc_test_statistic (A B : matrix) : Py (Q * scale) :=
  λ w, (Ok (MGC_test_statistic (mgc (self w)) A B),
        with_log (engine_log w ++ [(A, B)]) w).

(** [np.random.choice(a, size)] *)
Definition np_random_choice (a size : Z) : Py (list Z) :=
  if (a <=? 0) || (size <? 0) then raise ValueError
  else λ w, let '(xs, g) := choice (rng w) a size in (Ok xs, with_rng g w).

(** [m[np.ix_(rows, cols)]] *)
Definition ix_ (m : matrix) (rows cols : list Z) : Py matrix :=
  match ix_select m rows cols with
  | Some r => ret r
  | None => raise IndexError
  end.

(** ** A program logic for [Py]

    [hoare P c Q E]: from a world that satisfies [P], the computation [c]
    either returns [a] in a world that satisfies [Q a], or raises [e] in a
    world that satisfies [E e].  With [E] empty it says that [c] returns. *)

Definition hoare {A} (P : world → Prop) (c : Py A)
    (Q : A → world → Prop) (E : exn → world → Prop) : Prop :=
  ∀ w, P w →
    match c w with
    | (Ok a, w') => Q a w'
    | (Raise e, w') => E e w'
    end.

Definition no_exn : exn → world → Prop := λ _ _, False.

(** What a call leaves alone: the fields of [self] other than
    [test_statistic_] and [test_statistic_metadata_], the generator, and
    every array that was in the store at [w0]. *)
Definition untouched (w0 w : world) : Prop :=
  compute_distance_matrix (self w) = compute_distance_matrix (self w0)
  ∧ max_lag (self w) = max_lag (self w0)
  ∧ which_test (self w) = which_test (self w0)
  ∧ mgc (self w) = mgc (self w0)
  ∧ p_value_ (self w) = p_value_ (self w0)
  ∧ p_value_metadata_ (self w) = p_value_metadata_ (self w0)
  ∧ rng w = rng w0
  ∧ heap w0 `prefix_of` heap w.

(** In the rules below the invariant is [untouched w0] together with the
    fact that the array written to was allocated after [w0]. *)
Definition fresh_in (w0 : world) (a : addr) (w : world) : Prop :=
  untouched w0 w ∧ (length (heap w0) ≤ a)%nat.

(** ** Statements of the specification

    The definitions below follow the words of the specification; the
    theorems compare them with what the code computes. *)

(** Entry [j] of an array, and [f lo + ... + f hi], one term added after
    the other. *)
Definition entry (arr : list Q) (j : Z) : Q := default 0%Q (item arr j).

Fixpoint sum_terms (f : Z → Q) (lo : Z) (k : nat) : Q :=
  match k with
  | O => 0%Q
  | S k' => (sum_terms f lo k' + f (lo + Z.of_nat k')%Z)%Q
  end.

Definition sum_over (f : Z → Q) (lo hi : Z) : Q :=
  sum_terms f lo (Z.to_nat (hi + 1 - lo)).

(** The value the specification gives to [dependence_by_lag[j]]: the clamped
    engine statistic of the full matrices at lag 0, and at lag [j] the factor
    [(n - j) / n] times the clamped engine statistic of [X] without its first
    [j] rows and columns and [Y] without its last [j] rows and columns. *)
Definition claimed_lag_value (e : MGC) (dist_X dist_Y : matrix) (n j : Z) : Q :=
  if j =? 0 then Qmax 0 (MGC_test_statistic e dist_X dist_Y).1
  else (inject_Z (n - j) / inject_Z n
        * Qmax 0 (MGC_test_statistic e (drop_first (Z.to_nat j) dist_X)
                    (drop_last (Z.to_nat j) dist_Y)).1)%Q.

(** The number of samples strictly greater than [x], counted sample by
    sample with the order of the rationals. *)
Fixpoint count_above (l : list Q) (x : Q) : Z :=
  match l with
  | [] => 0
  | y :: l' => (if Qlt_le_dec x y then 1 else 0) + count_above l' x
  end.

(** The empirical p-value of the specification: the share of null samples
    strictly greater than the observed statistic, and
    [1 / replication_factor] when there is none. *)
Definition claimed_p_value (stats : list Q) (observed : Q)
    (replication_factor : Z) : Q :=
  let count := count_above stats observed in
  if count =? 0 then (1 / inject_Z replication_factor)%Q
  else (inject_Z count / inject_Z replication_factor)%Q.

(** The explicit [[n, 1]] matrix of a 1-D array [v]: one row per entry of
    [v], and row [i] holds entry [i] alone. *)
Definition is_column_of (v : list Q) (col : matrix) : Prop :=
  length col = length v
  ∧ ∀ (i : nat) (x : Q), v !! i = Some x → col !! i = Some [x].

(** [ceil(a / b)] for [0 < b]. *)
Definition ceil_div (a b : Z) : Z := - ((- a) / b).

(** ** Time series simulators ([mgcpy/benchmarks/ts_benchmarks.py])

    The simulators draw their innovations from the generator behind
    [np.random]: here it is the sequence of the standard variates still to
    come (a standard normal one for [np.random.normal], one of [[0, 1)] for
    [np.random.uniform]), about which nothing is assumed.  The arrays [X]
    and [Y] are local to a call and are threaded through the loop. *)

Definition variates := nat → Q.

(** [a < b] on floats *)
Definition Qltb (a b : Q) : bool := negb (Qle_bool b a).

(** [np.random.normal(loc, scale, size)]: [size] values [loc + scale * z],
    and the generator after them. *)
Definition np_random_normal (loc scale : Q) (size : Z) (g : variates)
    : result (list Q * variates) :=
  if (size <? 0) || Qltb scale 0 then Raise ValueError
  else
    let k := Z.to_nat size in
    Ok ((λ i, loc + scale * g i)%Q <$> seq 0 k, λ i, g (k + i)%nat).

(** [np.random.uniform(low, high, size)]: [size] values
    [low + (high - low) * u], and the generator after them. *)
Definition np_random_uniform (low high : Q) (size : Z) (g : variates)
    : result (list Q * variates) :=
  if size <? 0 then Raise ValueError
  else
    let k := Z.to_nat size in
    Ok ((λ i, low + (high - low) * g i)%Q <$> seq 0 k, λ i, g (k + i)%nat).

(** [l[i] = v] on a local array; [None] stands for [IndexError]. *)
Definition store {A} (l : list A) (i : Z) (v : A) : option (list A) :=
  p ← norm_index (length l) i; Some (<[p := v]> l).

(** [for x in xs: s = body(x, s)] for a body that can fail. *)
Fixpoint loop_opt {A S} (xs : list A) (body : A → S → option S) (s : S)
    : option S :=
  match xs with
  | [] => Some s
  | x :: xs' => s' ← body x s; loop_opt xs' body s'
  end.

(** The lines from [X = np.zeros(n)] to the end of the loop, which the
    three simulators share but for the loop body. *)
Definition simulate_arrays (n : Z) (epsilons etas : list Q)
    (body : Z → list Q * list Q → option (list Q * list Q))
    : option (list Q * list Q) :=
  let X := replicate (Z.to_nat n) 0%Q in
  let Y := replicate (Z.to_nat n) 0%Q in
  e0 ← item epsilons 0; X ← store X 0 e0;
  h0 ← item etas 0; Y ← store Y 0 h0;
  loop_opt (arange 1 n) body (X, Y).

Definition index_error {A} (o : option A) : result A :=
  match o with
  | Some a => Ok a
  | None => Raise IndexError
  end.

(** Body of the loop of [IndependentAR1.simulate]:
    [X[t] = phi*X[t-1] + epsilons[t]; Y[t] = phi*Y[t-1] + etas[t]]. *)
Definition IndependentAR1_body (phi : Q) (epsilons etas : list Q) (t : Z)
    (XY : list Q * list Q) : option (list Q * list Q) :=
  let '(X, Y) := XY in
  x ← item X (t - 1); e ← item epsilons t; X ← store X t (phi * x + e)%Q;
  y ← item Y (t - 1); h ← item etas t; Y ← store Y t (phi * y + h)%Q;
  Some (X, Y).

(** [IndependentAR1.simulate(self, n, phi=0.5, sigma2=1.0)] *)
Definition IndependentAR1_simulate (n : Z) (phi sigma2 : option Q)
    (g : variates) : result ((list Q * list Q) * variates) :=
  let phi := default (1 # 2)%Q phi in
  let sigma2 := default 1%Q sigma2 in
  match np_random_normal 0 sigma2 n g with
  | Raise e => Raise e
  | Ok (epsilons, g) =>
      match np_random_normal 0 sigma2 n g with
      | Raise e => Raise e
      | Ok (etas, g) =>
          match index_error
                  (simulate_arrays n epsilons etas
                     (IndependentAR1_body phi epsilons etas)) with
          | Raise e => Raise e
          | Ok XY => Ok (XY, g)
          end
      end
  end.

(** Body of the loop of [CorrelatedAR1.simulate]:
    [X[t] = phi*Y[t-1] + epsilons[t]; Y[t] = phi*X[t-1] + etas[t]]. *)
Definition CorrelatedAR1_body (phi : Q) (epsilons etas : list Q) (t : Z)
    (XY : list Q * list Q) : option (list Q * list Q) :=
  let '(X, Y) := XY in
  y ← item Y (t - 1); e ← item epsilons t; X ← store X t (phi * y + e)%Q;
  x ← item X (t - 1); h ← item etas t; Y ← store Y t (phi * x + h)%Q;
  Some (X, Y).

(** [CorrelatedAR1.simulate(self, n, phi=0.5, sigma2=1.0)]; the body never
    reads [sigma2]. *)
Definition CorrelatedAR1_simulate (n : Z) (phi sigma2 : option Q)
    (g : variates) : result ((list Q * list Q) * variates) :=
  let phi := default (1 # 2)%Q phi in
  match np_random_uniform 0 1 n g with
  | Raise e => Raise e
  | Ok (epsilons, g) =>
      match np_random_normal 0 1 n g with
      | Raise e => Raise e
      | Ok (etas, g) =>
          match index_error
                  (simulate_arrays n epsilons etas
                     (CorrelatedAR1_body phi epsilons etas)) with
          | Raise e => Raise e
          | Ok XY => Ok (XY, g)
          end
      end
  end.

(** Body of the loop of [NonlinearLag1.simulate]:
    [X[t] = epsilons[t]*Y[t-1]; Y[t] = etas[t]]. *)
Definition NonlinearLag1_body (epsilons etas : list Q) (t : Z)
    (XY : list Q * list Q) : option (list Q * list Q) :=
  let '(X, Y) := XY in
  e ← item epsilons t; y ← item Y (t - 1); X ← store X t (e * y)%Q;
  h ← item etas t; Y ← store Y t h;
  Some (X, Y).

(** [NonlinearLag1.simulate(self, n, sigma2=1.0)] *)
Definition NonlinearLag1_simulate (n : Z) (sigma2 : option Q)
    (g : variates) : result ((list Q * list Q) * variates) :=
  let sigma2 := default 1%Q sigma2 in
  match np_random_normal 0 sigma2 n g with
  | Raise e => Raise e
  | Ok (epsilons, g) =>
      match np_random_normal 0 sigma2 n g with
      | Raise e => Raise e
      | Ok (etas, g) =>
          match index_error
                  (simulate_arrays n epsilons etas
                     (NonlinearLag1_body epsilons etas)) with
          | Raise e => Raise e
          | Ok XY => Ok (XY, g)
          end
      end
  end.

(** *** What the simulators compute

    The series of an autoregression of order 1 with innovations [a], the
    weighted sum [phi^t * a 0 + ... + phi^0 * a t] it unfolds to, the two
    series of the cross-coupled recursion, and the product of an innovation
    with the previous value of the other series. *)

Fixpoint autoregression (phi : Q) (a : nat → Q) (t : nat) : Q :=
  match t with
  | O => a O
  | S t' => (phi * autoregression phi a t' + a t)%Q
  end.

Definition discounted_sum (phi : Q) (a : nat → Q) (t : nat) : Q :=
  Qsum ((λ k, phi ^ Z.of_nat (t - k) * a k)%Q <$> seq 0 (S t)).

Fixpoint coupled (phi : Q) (a b : nat → Q) (t : nat) : Q * Q :=
  match t with
  | O => (a O, b O)
  | S t' =>
      let '(x, y) := coupled phi a b t' in
      (phi * y + a t, phi * x + b t)%Q
  end.

Definition lagged_product (a b : nat → Q) (t : nat) : Q :=
  match t with
  | O => a O
  | S t' => (a t * b t')%Q
  end.

(** *** Cells of a matrix *)

(** Entry [(i, j)] of a matrix, when there is one. *)
Definition cell (m : matrix) (i j : nat) : option Q := row ← m !! i; row !! j.

(** [m[range(n), s]]: the entries of column [s] in the rows [0..n-1];
    [None] stands for [IndexError]. *)
Definition column_head (m : matrix) (n s : Z) : option (list Q) :=
  mapM (λ r, row ← item m r; item row s) (arange 0 n).

(** ** A concrete environment

    Stand-ins for the collaborators, on which the model runs: they are used
    for the examples at the end of the file only. *)

Module Demo.

(** Pairwise L1 distances between the rows of a data matrix. *)
Definition l1 (r r' : list Q) : Q :=
  Qsum (zip_with (λ a b, Qabs (a - b)) r r').
Definition pairwise (m : matrix) : matrix := (λ r, l1 r <$> m) <$> m.

(** A square matrix with a zero diagonal is taken to be a distance matrix
    already and is passed through. *)
Definition is_distance (m : matrix) : bool :=
  forallb (λ r, Nat.eqb (length r) (length m)) m
  && forallb (λ ir, Qeq_bool (nth ir.1 ir.2 0%Q) 0) (imap pair m).

Definition to_distance (f : distance_fn) (m : matrix) : matrix :=
  if is_distance m then m else f m.

Definition compute_distance (X Y : matrix) (f : option distance_fn)
    : matrix * matrix :=
  let f := default pairwise f in (to_distance f X, to_distance f Y).

(** An engine: the sum of the entrywise products, shifted down by one. *)
Definition cross (A B : matrix) : Q :=
  Qsum (zip_with Qmult (concat A) (concat B)).
Definition engine : MGC :=
  {| MGC_test_statistic A B :=
       ((cross A B - 1)%Q, (Z.of_nat (length A), Z.of_nat (length B))) |}.

(** An engine that reports the number of rows of its second argument. *)
Definition rows_engine : MGC :=
  {| MGC_test_statistic A B := (inject_Z (Z.of_nat (length B)), (0, 0)) |}.

(** Square root, rounded down to three decimals. *)
Definition sqrt3 (q : Q) : Q :=
  Qmake (Z.sqrt (Qnum q * 1000000 / Z.pos (Qden q))) 1000.

(** A piecewise-linear curve in place of the normal distribution function. *)
Definition cdf (x loc sc : Q) : Q :=
  Qmax 0 (Qmin 1 (Qmake 1 2 + (x - loc) / (4 * sc)))%Q.

Definition base_init (f : option distance_fn) : MGCX :=
  {| compute_distance_matrix := f; max_lag := None; which_test := "";
     mgc := engine; test_statistic_ := None;
     test_statistic_metadata_ := None; p_value_ := None;
     p_value_metadata_ := None |}.

(** Raw draws 3, 10, 17, ... *)
Definition tape : rng_state := λ i, 7 * Z.of_nat i + 3.

Definition object (lag : option Z) (e : MGC) : MGCX :=
  {| compute_distance_matrix := None; max_lag := lag; which_test := "mgcx";
     mgc := e; test_statistic_ := None;
     test_statistic_metadata_ := None; p_value_ := None;
     p_value_metadata_ := None |}.

Definition start (o : MGCX) : world :=
  {| self := o; heap := []; rng := tape; engine_log := [] |}.

(** Two series of four and of ten observations. *)
Definition X4 : ndarray := Array1 [0; 1; 3; 6]%Q.
Definition Y4 : ndarray := Array1 [2; 2; 5; 1]%Q.
Definition X10 : ndarray := Array1 [0; 1; 3; 6; 2; 5; 4; 8; 7; 9]%Q.
Definition Y10 : ndarray := Array1 [2; 2; 5; 1; 0; 3; 7; 4; 9; 6]%Q.

(** Raw variates -2/3, -1/3, 0, 1/3, ... *)
Definition noise : variates := λ i, Qmake (Z.of_nat i - 2) 3.

(** Three simulated series of length four, one per column. *)
Definition X_full : matrix :=
  [[0; 2; 1]; [1; 0; 4]; [3; 5; 2]; [6; 1; 0]]%Q.
Definition Y_full : matrix :=
  [[2; 1; 0]; [2; 3; 3]; [5; 0; 1]; [1; 4; 6]]%Q.

(** An engine whose statistic is the share of equal entries of its two
    arguments, a number of [[0, 1]]. *)
Definition agreement (A B : matrix) : Q :=
  let pairs := zip_with (λ a b, Qeq_bool a b) (concat A) (concat B) in
  Qmake (Z.of_nat (length (filter (λ b, b = true) pairs)))
        (Pos.of_nat (length pairs)).
Definition share_engine : MGC :=
  {| MGC_test_statistic A B := (agreement A B, (0, 0)) |}.

End Demo.

Section MGCX.

(** *** Collaborators *)

(** The constructor [MGC()]. *)
Variable MGC_new : MGC.

(** [compute_distance(matrix_X, matrix_Y, compute_distance_matrix)] *)
Variable compute_distance :
  matrix → matrix → option distance_fn → matrix * matrix.

(** [np.sqrt] and [scipy.stats.norm.cdf(x, loc, scale)]. *)
Variable np_sqrt : Q → Q.
Variable norm_cdf : Q → Q → Q → Q.

(** [IndependenceTest.__init__(self, compute_distance_matrix)]: the base
    class initialiser, which yields the object with the base fields set. *)
Variable IndependenceTest_init : option distance_fn → MGCX.

(** [MGCX.__init__(self, compute_distance_matrix=None, max_lag=0)].  An
    argument the caller leaves out is [None] here and takes the default of the
    signature; an argument that is passed is [Some v], where [v] itself may
    be Python's [None]. *)
Definition MGCX_init (compute_distance_matrix : option (option distance_fn))
    (max_lag : option (option Z)) : MGCX :=
  let compute_distance_matrix := default None compute_distance_matrix in
  let max_lag := default (Some 0) max_lag in
  let self := IndependenceTest_init compute_distance_matrix in
  let self := set_max_lag max_lag self in
  let self := set_which_test "mgcx" self in
  set_mgc MGC_new self.

(** *** [MGCX.test_statistic] *)

Definition shape_message : string :=
  "Matrices X and Y need to be of dimensions [n, p] and [n, q], respectively, where p can be equal to q".

(** [M = self.max_lag if self.max_lag is not None else math.ceil(math.sqrt(n))] *)
Definition lag_bound (o : MGCX) (n : Z) : Z :=
  match max_lag o with
  | Some m => m
  | None => ceil_sqrt n
  end.

(** Body of [for j in range(1, M+1)]; the loop carries
    [(max_dependence, optimal_lag, optimal_scale)]. *)
Definition lag_body (matrix_X matrix_Y : matrix) (n : Z) (dependence_by_lag : addr)
    (j : Z) (st : Q * Z * scale) : Py (Q * Z * scale) :=
  let '(max_dependence, optimal_lag, optimal_scale) := st in
  let dist_mtx_X := slice2 matrix_X j n j n in
  let dist_mtx_Y := slice2 matrix_Y 0 (n - j) 0 (n - j) in
  do '(mgc_statistic, mgc_scale) <- mgc_test_statistic dist_mtx_X dist_mtx_Y;
  do v <- true_divide (inject_Z (n - j) * Qmax 0 mgc_statistic) (inject_Z n);
  setitem dependence_by_lag j v;;
  do cur <- getitem dependence_by_lag j;
  if Qgtb cur max_dependence then ret (cur, j, mgc_scale)
  else ret (max_dependence, optimal_lag, optimal_scale).

(** [test_statistic(self, matrix_X, matrix_Y, p=None)]; the body never reads
    [p], which is left out. *)
Definition test_statistic (matrix_X matrix_Y : ndarray) : Py (Q * ts_metadata) :=
  assert (shape0 matrix_X =? shape0 matrix_Y) shape_message;;
  let n := shape0 matrix_X in
  let matrix_X := as_2d matrix_X in
  let matrix_Y := as_2d matrix_Y in
  do self <- get_self;
  let '(matrix_X, matrix_Y) :=
    compute_distance matrix_X matrix_Y (compute_distance_matrix self) in
  let M := lag_bound self n in
  do dependence_by_lag <- np_zeros (M + 1);
  do '(mgc_statistic, mgc_scale) <- mgc_test_statistic matrix_X matrix_Y;
  setitem dependence_by_lag 0 (Qmax 0 mgc_statistic);;
  do max_dependence <- getitem dependence_by_lag 0;
  do '(max_dependence, optimal_lag, optimal_scale) <-
    for_each (arange 1 (M + 1))
      (lag_body matrix_X matrix_Y n dependence_by_lag)
      (max_dependence, 0, mgc_scale);
  let metadata := {| optimal_lag := optimal_lag;
                     optimal_scale := optimal_scale;
                     dependence_by_lag := dependence_by_lag |} in
  modify_self (set_test_statistic_metadata_ metadata);;
  do arr <- read_array dependence_by_lag;
  let statistic := Qsum arr in
  modify_self (set_test_statistic_ statistic);;
  ret (statistic, metadata).

(** *** [MGCX.p_value] and [MGCX._fast_p_value] *)

(** The two lines that build [permuted_indices]:
    [np.r_[[np.arange(t, t + block_size)
            for t in np.random.choice(n, n // block_size + 1)]].flatten()[:n]]
    and [np.mod(permuted_indices, n)]. *)
Definition block_starts (n block_size : Z) : Py (list Z) :=
  do k <- floor_divide n block_size;
  np_random_choice n (k + 1).

Definition blocks_of (starts : list Z) (n block_size : Z) : list Z :=
  let blocks := (λ t, arange t (t + block_size)) <$> starts in
  let permuted_indices := slice (concat blocks) 0 n in
  (λ x, x `mod` n) <$> permuted_indices.

Definition block_permutation (n block_size : Z) : Py (list Z) :=
  do starts <- block_starts n block_size;
  ret (blocks_of starts n block_size).

(** [worker(rep)] *)
Definition worker (matrix_X matrix_Y : matrix) (n block_size : Z) (rep : Z) : Py Q :=
  do permuted_indices <- block_permutation n block_size;
  do permuted_Y <- ix_ matrix_Y permuted_indices permuted_indices;
  do '(statistic, _) <- test_statistic (Array2 matrix_X) (Array2 permuted_Y);
  ret statistic.

(** [np.mean] and [np.std] of a 1-D array. *)
Definition np_mean (l : list Q) : Py Q :=
  true_divide (Qsum l) (inject_Z (Z.of_nat (length l))).

Definition np_std (l : list Q) : Py Q :=
  do m <- np_mean l;
  do v <- np_mean ((λ x, (x - m) * (x - m))%Q <$> l);
  ret (np_sqrt v).

(** Body of [for i in range(num_samples)]. *)
Definition fast_body (matrix_X permuted_Y : matrix) (subsample_size : Z)
    (test_stats_null : addr) (i : Z) (_ : unit) : Py unit :=
  let indices := arange (subsample_size * i) (subsample_size * (i + 1)) in
  do sub_matrix_X <- ix_ matrix_X indices indices;
  do sub_matrix_Y <- ix_ permuted_Y indices indices;
  do '(statistic, _) <- test_statistic (Array2 sub_matrix_X) (Array2 sub_matrix_Y);
  setitem test_stats_null i statistic.

Definition _fast_p_value (matrix_X matrix_Y : matrix) (observed : Q)
    (block_size : Z) (subsample_size : option Z) : Py (Q * pv_metadata) :=
  let subsample_size := default 10 subsample_size in
  let n := Z.of_nat (length matrix_X) in
  do num_samples <- floor_divide n subsample_size;
  do permuted_indices <- block_permutation n block_size;
  do permuted_Y <- ix_ matrix_Y permuted_indices permuted_indices;
  do test_stats_null <- np_zeros (num_samples * subsample_size);
  for_each (arange 0 num_samples)
    (fast_body matrix_X permuted_Y subsample_size test_stats_null) tt;;
  do arr <- read_array test_stats_null;
  do mu <- np_mean arr;
  do sd <- np_std arr;
  do sigma <- true_divide sd (np_sqrt (inject_Z num_samples));
  let p := (1 - norm_cdf observed mu sigma)%Q in
  modify_self (set_p_value_ p);;
  let metadata := {| null_distribution := test_stats_null |} in
  modify_self (set_p_value_metadata_ metadata);;
  ret (p, metadata).

(** [Parallel(n_jobs=-2)(delayed(worker)(rep) for rep in range(k))] is taken
    with the meaning of the loop it replaces (kept as a comment in the
    source): the repetitions run one after the other, in index order.
    With joblib they run in worker processes, each on a copy of the object.
    What the exact path makes of their results does not depend on this
    reading: it is stated for [empirical_p_value] below on an arbitrary
    list of results. *)
Definition p_value (matrix_X matrix_Y : ndarray)
    (replication_factor : option Z) (is_fast : option bool) : Py (Q * pv_metadata) :=
  let replication_factor := default 1000 replication_factor in
  let is_fast := default false is_fast in
  assert (shape0 matrix_X =? shape0 matrix_Y) shape_message;;
  let n := shape0 matrix_X in
  let matrix_X := as_2d matrix_X in
  let matrix_Y := as_2d matrix_Y in
  do self <- get_self;
  let '(matrix_X, matrix_Y) :=
    compute_distance matrix_X matrix_Y (compute_distance_matrix self) in
  do '(observed, _) <- test_statistic (Array2 matrix_X) (Array2 matrix_Y);
  let block_size := ceil_sqrt n in
  if is_fast then _fast_p_value matrix_X matrix_Y observed block_size None
  else
    do stats <- map_each (worker matrix_X matrix_Y n block_size)
                  (arange 0 replication_factor);
    do test_stats_null <- new_list stats;
    do p <- true_divide (inject_Z (count_greater stats observed))
              (inject_Z replication_factor);
    modify_self (set_p_value_ p);;
    do p <- (if Qeq_bool p 0
             then do p' <- int_true_divide 1 replication_factor;
                  modify_self (set_p_value_ p');; ret p'
             else ret p);
    let metadata := {| null_distribution := test_stats_null |} in
    modify_self (set_p_value_metadata_ metadata);;
    ret (p, metadata).

(** The lines of the exact path after the call of [Parallel], as a
    function of the list [stats] that the call has returned and of the
    observed statistic: [test_stats_null = np.array(stats)], the count, the
    division and the replacement of 0.  [p_value_exact_path] below shows
    that [p_value] ends with these lines. *)
Definition empirical_p_value (stats : list Q) (observed : Q)
    (replication_factor : Z) : Py (Q * pv_metadata) :=
  do test_stats_null <- new_list stats;
  do p <- true_divide (inject_Z (count_greater stats observed))
            (inject_Z replication_factor);
  modify_self (set_p_value_ p);;
  do p <- (if Qeq_bool p 0
           then do p' <- int_true_divide 1 replication_factor;
                modify_self (set_p_value_ p');; ret p'
           else ret p);
  let metadata := {| null_distribution := test_stats_null |} in
  modify_self (set_p_value_metadata_ metadata);;
  ret (p, metadata).

(** *** What one call of [test_statistic] computes

    The arguments of the engine call at lag [j], the value stored in
    [dependence_by_lag[j]], and the whole array, read off the loop body. *)

Definition lag_matrices (matrix_X matrix_Y : matrix) (n j : Z) : matrix * matrix :=
  (slice2 matrix_X j n j n, slice2 matrix_Y 0 (n - j) 0 (n - j)).

Definition lag_value (e : MGC) (matrix_X matrix_Y : matrix) (n j : Z) : Q :=
  let '(dist_mtx_X, dist_mtx_Y) := lag_matrices matrix_X matrix_Y n j in
  (inject_Z (n - j) * Qmax 0 (MGC_test_statistic e dist_mtx_X dist_mtx_Y).1
   / inject_Z n)%Q.

Definition lag_values (e : MGC) (matrix_X matrix_Y : matrix) (n M : Z) : list Q :=
  Qmax 0 (MGC_test_statistic e matrix_X matrix_Y).1
  :: (lag_value e matrix_X matrix_Y n <$> arange 1 (M + 1)).

(** [test_statistic] runs with the lag bound [M]: it returns, its array
    [dependence_by_lag] has [M + 1] entries, and the engine has been called
    [M + 1] times. *)
Definition runs_with_lag_bound (matrix_X matrix_Y : ndarray) (w : world)
    (M : Z) : Prop :=
  ∃ r w' arr,
    test_statistic matrix_X matrix_Y w = (Ok r, w')
    ∧ heap w' !! dependence_by_lag r.2 = Some arr
    ∧ Z.of_nat (length arr) = M + 1
    ∧ Z.of_nat (length (engine_log w'))
      = Z.of_nat (length (engine_log w)) + M + 1.

(** What the code relies on from [compute_distance]: square matrices with
    one row per observation. *)
Definition distance_contract (f : option distance_fn) : Prop :=
  ∀ X Y, is_square (length X) (compute_distance X Y f).1
         ∧ is_square (length Y) (compute_distance X Y f).2.

(** The configuration of the object: the fields no method assigns. *)
Definition configured (f : option distance_fn) (lag : option Z) (e : MGC)
    (w : world) : Prop :=
  compute_distance_matrix (self w) = f
  ∧ max_lag (self w) = lag
  ∧ mgc (self w) = e.

(** The statistic of block [i] in the fast path: what [test_statistic]
    returns on the sub-matrices of [matrix_X] and of the permuted [matrix_Y]
    with rows and columns [subsample_size * i], ...,
    [subsample_size * (i + 1) - 1], for an object configured with the
    distance function [f], [max_lag = lag] and the engine [e]. *)
Definition block_statistic (f : option distance_fn) (lag : option Z) (e : MGC)
    (matrix_X permuted_Y : matrix) (subsample_size i : Z) : Q :=
  let indices := arange (subsample_size * i) (subsample_size * (i + 1)) in
  let sub_matrix_X := default [] (ix_select matrix_X indices indices) in
  let sub_matrix_Y := default [] (ix_select permuted_Y indices indices) in
  let D := compute_distance sub_matrix_X sub_matrix_Y f in
  let n := Z.of_nat (length sub_matrix_X) in
  let M := match lag with Some m => m | None => ceil_sqrt n end in
  Qsum (lag_values e D.1 D.2 n M).

(** The array after the turns for the lags [js], one write per lag. *)
Definition fill (f : Z → Q) (arr : list Q) (js : list Z) : list Q :=
  foldl (λ a j, <[Z.to_nat j := f j]> a) arr js.

(** *** The lag that [test_statistic] reports

    The triple [(max_dependence, optimal_lag, optimal_scale)] after the
    turn of the loop for lag [j], and after the whole loop. *)

Definition lag_scale (e : MGC) (matrix_X matrix_Y : matrix) (n j : Z) : scale :=
  let '(dist_mtx_X, dist_mtx_Y) := lag_matrices matrix_X matrix_Y n j in
  (MGC_test_statistic e dist_mtx_X dist_mtx_Y).2.

Definition best_step (value : Z → Q) (scale_at : Z → scale)
    (st : Q * Z * scale) (j : Z) : Q * Z * scale :=
  let '(max_dependence, optimal_lag, optimal_scale) := st in
  if Qgtb (value j) max_dependence then (value j, j, scale_at j) else st.

Definition best_lag (e : MGC) (matrix_X matrix_Y : matrix) (n M : Z)
    : Q * Z * scale :=
  let '(mgc_statistic, mgc_scale) := MGC_test_statistic e matrix_X matrix_Y in
  foldl (best_step (lag_value e matrix_X matrix_Y n)
                   (lag_scale e matrix_X matrix_Y n))
    (Qmax 0 mgc_statistic, 0, mgc_scale) (arange 1 (M + 1)).

(** After the turn of the loop of [_fast_p_value] for block [i], the
    statistic stored in [self] is the one written to entry [i] of the array
    at [a]. *)
Definition holds_statistic_of (a : addr) (i : Z) (w : world) : Prop :=
  ∃ arr v, heap w !! a = Some arr
           ∧ arr !! Z.to_nat i = Some v
           ∧ test_statistic_ (self w) = Some v.

(** What [p_value] leaves alone: the configuration of the object and every
    array that was in the store at [w0]. *)
Definition preserved (w0 w : world) : Prop :=
  compute_distance_matrix (self w) = compute_distance_matrix (self w0)
  ∧ max_lag (self w) = max_lag (self w0)
  ∧ which_test (self w) = which_test (self w0)
  ∧ mgc (self w) = mgc (self w0)
  ∧ heap w0 `prefix_of` heap w.

(** A computation that draws no random number, and a world whose
    generator is that of [w0] after [j] draws. *)
Definition keeps_rng {A} (c : Py A) : Prop := ∀ w, rng (c w).2 = rng w.

Definition drawn (w0 : world) (j : nat) (w : world) : Prop :=
  ∀ i, rng w i = rng w0 (j + i)%nat.

(** *** [compute_power] of [mgcpy/benchmarks/ts_benchmarks.py]

    [test['object']] is the [MGCX] object of the world and [test['is_fast']]
    the flag [is_fast]; [Parallel(n_jobs=-2, verbose=10)] is taken as the
    loop over [range(num_sims)], as in [p_value]. *)

(** [m[range(n), s]] *)
Definition fancy_column (m : matrix) (n s : Z) : Py (list Q) :=
  match column_head m n s with
  | Some c => ret c
  | None => raise IndexError
  end.

(** [worker(s)] *)
Definition power_worker (is_fast : bool) (X_full Y_full : matrix) (alpha : Q)
    (n : Z) (s : Z) : Py Z :=
  do X <- fancy_column X_full n s;
  do Y <- fancy_column Y_full n s;
  do '(p, _) <- p_value (Array1 X) (Array1 Y) None (Some is_fast);
  if Qle_bool p alpha then ret 1 else ret 0.

(** [np.sum] of a list of integers *)
Definition Zsum (l : list Z) : Z := foldr Z.add 0 l.

(** [compute_power(test, X_full, Y_full, num_sims, alpha, n)] *)
Definition compute_power (is_fast : bool) (X_full Y_full : matrix)
    (num_sims : Z) (alpha : Q) (n : Z) : Py Q :=
  do rejects <- map_each (power_worker is_fast X_full Y_full alpha n)
                  (arange 0 num_sims);
  let num_rejects := Zsum rejects in
  true_divide (inject_Z num_rejects) (inject_Z num_sims).

(** ** The primitives on small inputs *)

Example slice_negative_stop : slice [1; 2; 3] 0 (-1) = [1; 2].
Proof. reflexivity. Qed.

Example slice_stop_below_start : slice [1; 2; 3] 5 3 = [].
Proof. reflexivity. Qed.

Example slice_far_negative_stop : slice [1; 2; 3] 0 (-5) = [].
Proof. reflexivity. Qed.

Example item_negative_index : item [1; 2; 3] (-1) = Some 3.
Proof. reflexivity. Qed.

Example ceil_sqrt_values :
  ceil_sqrt <$> [0; 1; 2; 3; 4; 5; 9; 10; 16; 17]
  = [0; 1; 2; 2; 2; 3; 3; 4; 4; 5].
Proof. reflexivity. Qed.

Example ceil_div_values : ceil_div 3 2 = 2 ∧ ceil_div 4 2 = 2 ∧ 3 / 2 = 1.
Proof. repeat split. Qed.

Example sum_over_values :
  sum_over inject_Z 1 3 = 6%Q ∧ sum_over inject_Z 2 1 = 0%Q.
Proof. split; reflexivity. Qed.

Example count_above_values : count_above [1; 3; 2; 3; 0]%Q 2 = 2.
Proof. reflexivity. Qed.

Example blocks_of_three_starts :
  blocks_of [7; 0; 2] 10 4 = [7; 8; 9; 0; 0; 1; 2; 3; 2; 3].
Proof. reflexivity. Qed.

Example ix_select_two_by_two :
  ix_select [[1; 2]; [3; 4]]%Q [1; 0] [1; 0] = Some [[4; 3]; [2; 1]]%Q.
Proof. reflexivity. Qed.

(** ** Slices *)

Lemma slice_bound_inside (len i : Z) : 0 ≤ i ≤ len → slice_bound len i = i.
Proof.
  intros H. unfold slice_bound.
  destruct (Z.ltb_spec i 0); lia.
Qed.

Lemma slice_to_end {A} (l : list A) (j : Z) :
  0 ≤ j ≤ Z.of_nat (length l) →
  slice l j (Z.of_nat (length l)) = drop (Z.to_nat j) l.
Proof.
  intros H. unfold slice.
  rewrite !slice_bound_inside by lia.
  apply take_ge. rewrite length_drop. lia.
Qed.

Lemma slice_from_start {A} (l : list A) (k : Z) :
  0 ≤ k ≤ Z.of_nat (length l) →
  slice l 0 k = take (Z.to_nat k) l.
Proof.
  intros H. unfold slice.
  rewrite !slice_bound_inside by lia.
  rewrite Z.sub_0_r. reflexivity.
Qed.

Lemma slice2_drop_first (n : nat) (m : matrix) (j : Z) :
  is_square n m → 0 ≤ j ≤ Z.of_nat n →
  slice2 m j (Z.of_nat n) j (Z.of_nat n) = drop_first (Z.to_nat j) m.
Proof.
  intros [Hlen Hrows] Hj. unfold slice2, drop_first.
  rewrite <- Hlen at 1. rewrite slice_to_end by lia.
  apply Forall_fmap_ext, Forall_drop.
  eapply Forall_impl; [exact Hrows|].
  intros row Hrow. cbn in Hrow. cbn. rewrite <- Hrow at 1.
  apply slice_to_end. lia.
Qed.

Lemma slice2_drop_last (n : nat) (m : matrix) (j : Z) :
  is_square n m → 0 ≤ j ≤ Z.of_nat n →
  slice2 m 0 (Z.of_nat n - j) 0 (Z.of_nat n - j) = drop_last (Z.to_nat j) m.
Proof.
  intros [Hlen Hrows] Hj. unfold slice2, drop_last.
  rewrite slice_from_start by lia.
  replace (Z.to_nat (Z.of_nat n - j)) with (length m - Z.to_nat j)%nat by lia.
  apply Forall_fmap_ext, Forall_take.
  eapply Forall_impl; [exact Hrows|].
  intros row Hrow. cbn in Hrow. cbn. rewrite slice_from_start by lia.
  f_equal. lia.
Qed.

(** ** Running the monad *)

Lemma bind_ok {A B} (c : Py A) (k : A → Py B) (w w' : world) (a : A) :
  c w = (Ok a, w') → bind c k w = k a w'.
Proof. intros H. unfold bind. rewrite H. reflexivity. Qed.

Lemma norm_index_inside (len : nat) (i : Z) :
  0 ≤ i < Z.of_nat len → norm_index len i = Some (Z.to_nat i).
Proof.
  intros H. unfold norm_index.
  destruct (Z.leb_spec 0 i); [|lia].
  destruct (Z.ltb_spec i (Z.of_nat len)); [reflexivity|lia].
Qed.

Lemma item_inside {A} (l : list A) (i : Z) :
  0 ≤ i < Z.of_nat (length l) → item l i = l !! Z.to_nat i.
Proof.
  intros H. unfold item. rewrite norm_index_inside by lia. reflexivity.
Qed.

Lemma Qeq_bool_inject_Z_0 (n : Z) : n ≠ 0 → Qeq_bool (inject_Z n) 0 = false.
Proof.
  intros H. destruct (Qeq_bool (inject_Z n) 0) eqn:E; [|reflexivity].
  apply Qeq_bool_eq in E. unfold Qeq in E. cbn in E. lia.
Qed.

Lemma true_divide_run (a b : Q) (w : world) :
  Qeq_bool b 0 = false → true_divide a b w = (Ok (a / b)%Q, w).
Proof. intros H. unfold true_divide. rewrite H. reflexivity. Qed.

Lemma np_zeros_run (len : Z) (w : world) :
  0 ≤ len →
  np_zeros len w =
    (Ok (length (heap w)),
     with_heap (heap w ++ [replicate (Z.to_nat len) 0%Q]) w).
Proof.
  intros H. unfold np_zeros.
  destruct (Z.ltb_spec len 0); [lia|reflexivity].
Qed.

(** Writing to and reading from the array allocated last. *)
Lemma setitem_last (h : list (list Q)) (arr : list Q) (i : Z) (v : Q) (w : world) :
  heap w = h ++ [arr] → 0 ≤ i < Z.of_nat (length arr) →
  setitem (length h) i v w =
    (Ok tt, with_heap (h ++ [<[Z.to_nat i := v]> arr]) w).
Proof.
  intros Hh Hi. unfold setitem, bind, read_array.
  rewrite Hh, list_lookup_middle by reflexivity.
  rewrite norm_index_inside by lia.
  rewrite Hh. f_equal. f_equal.
  rewrite <- (Nat.add_0_r (length h)) at 1.
  rewrite insert_app_r. reflexivity.
Qed.

Lemma getitem_last (h : list (list Q)) (arr : list Q) (i : Z) (v : Q) (w : world) :
  heap w = h ++ [arr] → 0 ≤ i → arr !! Z.to_nat i = Some v →
  getitem (length h) i w = (Ok v, w).
Proof.
  intros Hh Hi Hv. unfold getitem, bind, read_array.
  rewrite Hh, list_lookup_middle by reflexivity.
  rewrite item_inside, Hv; [reflexivity|].
  apply lookup_lt_Some in Hv. lia.
Qed.

Lemma read_array_last (h : list (list Q)) (arr : list Q) (w : world) :
  heap w = h ++ [arr] → read_array (length h) w = (Ok arr, w).
Proof.
  intros Hh. unfold read_array.
  rewrite Hh, list_lookup_middle by reflexivity. reflexivity.
Qed.

(** ** The lag loop *)

(** One turn of the loop: the engine sees the two slices, and the entry of
    [dependence_by_lag] at [j] receives [lag_value]. *)
Lemma lag_body_run (matrix_X matrix_Y : matrix) (n j : Z)
    (h : list (list Q)) (arr : list Q) (st : Q * Z * scale) (w : world) :
  heap w = h ++ [arr] → 1 ≤ j < Z.of_nat (length arr) → n ≠ 0 →
  ∃ st', lag_body matrix_X matrix_Y n (length h) j st w =
    (Ok st',
     {| self := self w;
        heap := h ++ [<[Z.to_nat j := lag_value (mgc (self w)) matrix_X matrix_Y n j]> arr];
        rng := rng w;
        engine_log := engine_log w ++ [lag_matrices matrix_X matrix_Y n j] |}).
Proof.
  intros Hh Hj Hn. destruct st as [[max_dependence lag] sc].
  unfold lag_body.
  set (A := slice2 matrix_X j n j n).
  set (B := slice2 matrix_Y 0 (n - j) 0 (n - j)).
  set (v := lag_value (mgc (self w)) matrix_X matrix_Y n j).
  unfold bind at 1. unfold mgc_test_statistic.
  destruct (MGC_test_statistic (mgc (self w)) A B) as [s sc'] eqn:E.
  erewrite bind_ok; [|apply true_divide_run, Qeq_bool_inject_Z_0, Hn].
  erewrite bind_ok; [|apply setitem_last with (arr := arr); [exact Hh|lia]].
  erewrite bind_ok;
    [|apply getitem_last with
        (arr := <[Z.to_nat j := (inject_Z (n - j) * Qmax 0 s / inject_Z n)%Q]> arr);
      [reflexivity|lia|apply list_lookup_insert_eq; lia]].
  assert (Hv : v = (inject_Z (n - j) * Qmax 0 s / inject_Z n)%Q).
  { unfold v, lag_value, lag_matrices. fold A B. rewrite E. reflexivity. }
  rewrite Hv.
  destruct (Qgtb _ max_dependence); eexists; reflexivity.
Qed.

Lemma length_fill (f : Z → Q) (js : list Z) (arr : list Q) :
  length (fill f arr js) = length arr.
Proof.
  revert arr. induction js as [|j js IH]; intros arr; [reflexivity|].
  cbn. unfold fill in IH. rewrite IH. apply length_insert.
Qed.

(** Filling the first [k] entries after [pre] leaves the rest as it is. *)
Lemma fill_seqZ_tail (f : Z → Q) (k : nat) (pre tail : list Q) :
  fill f (pre ++ replicate k 0%Q ++ tail)
    (seqZ (Z.of_nat (length pre)) (Z.of_nat k))
  = pre ++ (f <$> seqZ (Z.of_nat (length pre)) (Z.of_nat k)) ++ tail.
Proof.
  revert pre. induction k as [|k IH]; intros pre.
  - reflexivity.
  - rewrite seqZ_cons by lia. cbn [replicate fill foldl fmap list_fmap app].
    rewrite Nat2Z.id.
    rewrite <- (Nat.add_0_r (length pre)) at 1.
    rewrite insert_app_r. cbn [insert list_insert].
    replace (Z.pred (Z.of_nat (S k))) with (Z.of_nat k) by lia.
    replace (Z.succ (Z.of_nat (length pre)))
      with (Z.of_nat (length (pre ++ [f (Z.of_nat (length pre))])))
      by (rewrite length_app; cbn; lia).
    specialize (IH (pre ++ [f (Z.of_nat (length pre))])).
    rewrite <- !app_assoc in IH. cbn in IH. unfold fill in IH.
    rewrite IH. reflexivity.
Qed.

Lemma fill_seqZ (f : Z → Q) (k : nat) (pre : list Q) :
  fill f (pre ++ replicate k 0%Q) (seqZ (Z.of_nat (length pre)) (Z.of_nat k))
  = pre ++ (f <$> seqZ (Z.of_nat (length pre)) (Z.of_nat k)).
Proof.
  pose proof (fill_seqZ_tail f k pre []) as H.
  rewrite !app_nil_r in H. exact H.
Qed.

Lemma lag_loop_run (matrix_X matrix_Y : matrix) (n : Z) (h : list (list Q))
    (js : list Z) (arr : list Q) (st : Q * Z * scale) (w : world) :
  heap w = h ++ [arr] →
  Forall (λ j, 1 ≤ j < Z.of_nat (length arr)) js →
  n ≠ 0 ∨ js = [] →
  ∃ st', for_each js (lag_body matrix_X matrix_Y n (length h)) st w =
    (Ok st',
     {| self := self w;
        heap := h ++ [fill (lag_value (mgc (self w)) matrix_X matrix_Y n) arr js];
        rng := rng w;
        engine_log := engine_log w ++ (lag_matrices matrix_X matrix_Y n <$> js) |}).
Proof.
  revert arr st w. induction js as [|j js IH]; intros arr st w Hh Hjs Hn.
  - exists st. cbn. rewrite app_nil_r, <- Hh. destruct w; reflexivity.
  - destruct Hn as [Hn|Hn]; [|discriminate].
    apply Forall_cons in Hjs as [Hj Hjs].
    destruct (lag_body_run matrix_X matrix_Y n j h arr st w Hh Hj Hn)
      as [st1 Hbody].
    cbn [for_each]. erewrite bind_ok; [|exact Hbody].
    edestruct IH as [st' Hrest]; cycle 3.
    + exists st'. rewrite Hrest. cbn [self heap rng engine_log].
      rewrite <- app_assoc. reflexivity.
    + reflexivity.
    + cbn [heap]. rewrite length_insert. exact Hjs.
    + left. exact Hn.
Qed.

(** ** One call of [test_statistic] *)

(** For inputs of equal first dimension and a lag bound [0 <= M],
    [test_statistic] returns: it allocates one array, [dependence_by_lag],
    fills it with [lag_values], stores metadata and statistic in [self], and
    calls the engine once per lag. *)
Lemma test_statistic_run (matrix_X matrix_Y : ndarray) (w : world) :
  let n := shape0 matrix_X in
  let D := compute_distance (as_2d matrix_X) (as_2d matrix_Y)
             (compute_distance_matrix (self w)) in
  let M := lag_bound (self w) n in
  let arr := lag_values (mgc (self w)) D.1 D.2 n M in
  shape0 matrix_X = shape0 matrix_Y → 0 ≤ M → n ≠ 0 ∨ M = 0 →
  ∃ lag sc,
    let md := {| optimal_lag := lag; optimal_scale := sc;
                 dependence_by_lag := length (heap w) |} in
    test_statistic matrix_X matrix_Y w =
      (Ok (Qsum arr, md),
       {| self := set_test_statistic_ (Qsum arr)
                    (set_test_statistic_metadata_ md (self w));
          heap := heap w ++ [arr];
          rng := rng w;
          engine_log := engine_log w
            ++ (D.1, D.2) :: (lag_matrices D.1 D.2 n <$> arange 1 (M + 1)) |}).
Proof.
  intros n D M arr Hshape HM Hn.
  unfold test_statistic.
  apply Z.eqb_eq in Hshape. rewrite Hshape. cbn [assert].
  unfold bind at 1. cbn [ret].
  unfold bind at 1. cbn [get_self].
  fold n. fold D. destruct D as [DX DY] eqn:ED. fold M.
  cbn [fst snd] in arr.
  erewrite bind_ok; [|apply np_zeros_run; lia].
  unfold bind at 1. unfold mgc_test_statistic at 1.
  cbn [self with_heap].
  destruct (MGC_test_statistic (mgc (self w)) DX DY) as [s0 sc0] eqn:E0.
  set (v0 := Qmax 0 s0).
  assert (Hzeros : replicate (Z.to_nat (M + 1)) 0%Q = 0%Q :: replicate (Z.to_nat M) 0%Q).
  { replace (Z.to_nat (M + 1)) with (S (Z.to_nat M)) by lia. reflexivity. }
  erewrite bind_ok;
    [|apply setitem_last with (arr := replicate (Z.to_nat (M + 1)) 0%Q);
      [reflexivity|rewrite length_replicate; lia]].
  rewrite Hzeros. cbn [Z.to_nat insert list_insert].
  erewrite bind_ok;
    [|apply getitem_last with (arr := v0 :: replicate (Z.to_nat M) 0%Q);
      [reflexivity|lia|reflexivity]].
  edestruct (lag_loop_run DX DY n (heap w) (arange 1 (M + 1))
               (v0 :: replicate (Z.to_nat M) 0%Q) (v0, 0, sc0)) as [[[md' lag] sc] Hloop];
    cycle 3.
  - erewrite bind_ok; [|exact Hloop].
    exists lag, sc. cbn zeta.
    unfold bind at 1. cbn [modify_self].
    unfold arange. replace (M + 1 - 1) with (Z.of_nat (Z.to_nat M)) by lia.
    pose proof (fill_seqZ (lag_value (mgc (self w)) DX DY n) (Z.to_nat M) [v0]) as Hfill.
    cbn [length app] in Hfill. change (Z.of_nat 1) with 1 in Hfill.
    cbn [self heap rng engine_log with_self with_heap with_log].
    rewrite Hfill.
    erewrite bind_ok; [|apply read_array_last; reflexivity].
    unfold bind at 1. cbn [modify_self ret].
    cbn [self heap rng engine_log with_self with_heap with_log].
    assert (Harr : arr = v0 :: (lag_value (mgc (self w)) DX DY n
                                 <$> seqZ 1 (Z.of_nat (Z.to_nat M)))).
    { unfold arr, lag_values, arange. rewrite E0.
      replace (M + 1 - 1) with (Z.of_nat (Z.to_nat M)) by lia. reflexivity. }
    rewrite Harr. rewrite <- app_assoc. reflexivity.
  - reflexivity.
  - cbn [length]. rewrite length_replicate.
    unfold arange. apply Forall_seqZ. intros j Hj. lia.
  - destruct Hn as [Hn|Hn]; [left; exact Hn|right].
    unfold arange. apply seqZ_nil. lia.
Qed.

(** ** Rules of the program logic *)

Lemma hoare_ret {A} (P : world → Prop) (a : A) (Q : A → world → Prop) E :
  (∀ w, P w → Q a w) → hoare P (ret a) Q E.
Proof. intros H w Hw. cbn. auto. Qed.

Lemma hoare_bind {A B} (P : world → Prop) (c : Py A) (k : A → Py B)
    (Q : A → world → Prop) (R : B → world → Prop) E :
  hoare P c Q E → (∀ a, hoare (Q a) (k a) R E) → hoare P (bind c k) R E.
Proof.
  intros Hc Hk w Hw. specialize (Hc w Hw). unfold bind.
  destruct (c w) as [[a|e] w']; [apply Hk; exact Hc|exact Hc].
Qed.

(** A computation that only reads keeps whatever held before. *)
Lemma hoare_reads {A} (P : world → Prop) (c : Py A) :
  (∀ w, (c w).2 = w) → hoare P c (λ _, P) (λ _, P).
Proof.
  intros H w Hw. specialize (H w).
  destruct (c w) as [[a|e] w']; cbn in H; subst w'; exact Hw.
Qed.

Lemma hoare_for_each {A S} (I : world → Prop) (xs : list A)
    (body : A → S → Py S) (s : S) E :
  (∀ x s, x ∈ xs → hoare I (body x s) (λ _, I) E) →
  hoare I (for_each xs body s) (λ _, I) E.
Proof.
  revert s. induction xs as [|x xs IH]; intros s Hbody.
  - apply hoare_ret. auto.
  - cbn [for_each]. eapply hoare_bind.
    + apply Hbody. left.
    + intros s'. apply IH. intros y t Hy. apply Hbody. right. exact Hy.
Qed.

Lemma assert_reads c msg w : (assert c msg w).2 = w.
Proof. destruct c; reflexivity. Qed.

Lemma true_divide_reads a b w : (true_divide a b w).2 = w.
Proof. unfold true_divide. destruct (Qeq_bool b 0); reflexivity. Qed.

Lemma read_array_reads a w : (read_array a w).2 = w.
Proof. unfold read_array. destruct (heap w !! a); reflexivity. Qed.

Lemma getitem_reads a i w : (getitem a i w).2 = w.
Proof.
  unfold getitem, bind, read_array.
  destruct (heap w !! a) as [arr|]; [|reflexivity].
  destruct (item arr i); reflexivity.
Qed.

(** ** What [test_statistic] leaves alone *)

Lemma untouched_refl (w : world) : untouched w w.
Proof. unfold untouched. repeat split; reflexivity. Qed.

Lemma untouched_alloc (w0 w : world) (arr : list Q) :
  untouched w0 w → untouched w0 (with_heap (heap w ++ [arr]) w).
Proof.
  unfold untouched. cbn. intros (?&?&?&?&?&?&?&Hp).
  repeat split; try assumption. apply prefix_app_r. exact Hp.
Qed.

Lemma untouched_write (w0 w : world) (a : addr) (arr : list Q) :
  untouched w0 w → (length (heap w0) ≤ a)%nat →
  untouched w0 (with_heap (<[a := arr]> (heap w)) w).
Proof.
  unfold untouched. cbn. intros (?&?&?&?&?&?&?&[k Hk]) Ha.
  repeat split; try assumption.
  rewrite Hk, insert_app_r_alt by exact Ha. eexists. reflexivity.
Qed.

Lemma untouched_log (w0 w : world) (l : list (matrix * matrix)) :
  untouched w0 w → untouched w0 (with_log l w).
Proof. unfold untouched. cbn. tauto. Qed.

Lemma untouched_set_metadata (w0 w : world) (md : ts_metadata) :
  untouched w0 w →
  untouched w0 (with_self (set_test_statistic_metadata_ md (self w)) w).
Proof. unfold untouched. cbn. tauto. Qed.

Lemma untouched_set_statistic (w0 w : world) (s : Q) :
  untouched w0 w →
  untouched w0 (with_self (set_test_statistic_ s (self w)) w).
Proof. unfold untouched. cbn. tauto. Qed.

Lemma hoare_np_zeros (w0 : world) (len : Z) :
  hoare (untouched w0) (np_zeros len) (fresh_in w0) (λ _, untouched w0).
Proof.
  intros w Hw. unfold np_zeros. destruct (len <? 0); cbn.
  - exact Hw.
  - split; [apply untouched_alloc; exact Hw|].
    destruct Hw as (_&_&_&_&_&_&_&Hp). apply prefix_length. exact Hp.
Qed.

Lemma hoare_setitem (w0 : world) (a : addr) (i : Z) (v : Q) :
  hoare (fresh_in w0 a) (setitem a i v)
    (λ _, fresh_in w0 a) (λ _, untouched w0).
Proof.
  intros w [Hw Ha]. unfold setitem, bind, read_array.
  destruct (heap w !! a) as [arr|]; [|exact Hw].
  destruct (norm_index (length arr) i); cbn; [|exact Hw].
  split; [|exact Ha]. apply untouched_write; assumption.
Qed.

Lemma hoare_mgc_fresh (w0 : world) (a : addr) (A B : matrix) :
  hoare (fresh_in w0 a) (mgc_test_statistic A B)
    (λ _, fresh_in w0 a) (λ _, untouched w0).
Proof.
  intros w [Hw Ha]. cbn. split; [apply untouched_log; exact Hw|exact Ha].
Qed.

Lemma hoare_reads_fresh {A} (w0 : world) (a : addr) (c : Py A) :
  (∀ w, (c w).2 = w) →
  hoare (fresh_in w0 a) c (λ _, fresh_in w0 a) (λ _, untouched w0).
Proof.
  intros H w Hw. specialize (H w).
  destruct (c w) as [[x|e] w']; cbn in H; subst w'; [exact Hw|exact (proj1 Hw)].
Qed.

Lemma hoare_lag_body (w0 : world) (matrix_X matrix_Y : matrix) (n : Z)
    (a : addr) (j : Z) (st : Q * Z * scale) :
  hoare (fresh_in w0 a) (lag_body matrix_X matrix_Y n a j st)
    (λ _, fresh_in w0 a) (λ _, untouched w0).
Proof.
  destruct st as [[max_dependence lag] sc]. unfold lag_body.
  eapply hoare_bind; [apply hoare_mgc_fresh|].
  intros [s sc']. eapply hoare_bind; [apply hoare_reads_fresh, true_divide_reads|].
  intros v. eapply hoare_bind; [apply hoare_setitem|].
  intros ?. eapply hoare_bind; [apply hoare_reads_fresh, getitem_reads|].
  intros cur. destruct (Qgtb cur max_dependence); apply hoare_ret; auto.
Qed.

Lemma test_statistic_keeps (w0 : world) (matrix_X matrix_Y : ndarray) :
  hoare (untouched w0) (test_statistic matrix_X matrix_Y)
    (λ r w, untouched w0 w
            ∧ test_statistic_ (self w) = Some r.1
            ∧ test_statistic_metadata_ (self w) = Some r.2)
    (λ _, untouched w0).
Proof.
  unfold test_statistic.
  eapply hoare_bind; [apply hoare_reads, assert_reads|]. intros [].
  eapply hoare_bind; [apply hoare_reads; reflexivity|]. intros o.
  destruct (compute_distance _ _ _) as [DX DY].
  eapply hoare_bind; [apply hoare_np_zeros|]. intros a.
  eapply hoare_bind; [apply hoare_mgc_fresh|].
  intros [s0 sc0]. eapply hoare_bind; [apply hoare_setitem|]. intros [].
  eapply hoare_bind; [apply hoare_reads_fresh, getitem_reads|].
  intros v0. eapply hoare_bind.
  { apply hoare_for_each. intros j st _. apply hoare_lag_body. }
  intros [[md lag] sc]. cbn beta iota.
  intros w [Hw Ha]. unfold bind. cbn [modify_self].
  pose proof (untouched_set_metadata w0 w
    {| optimal_lag := lag; optimal_scale := sc; dependence_by_lag := a |} Hw) as H1.
  unfold read_array. cbn [heap with_self].
  destruct (heap w !! a) as [arr|]; [|exact H1].
  cbn. split; [|split; reflexivity].
  apply (untouched_set_statistic w0 _ (Qsum arr)) in H1. exact H1.
Qed.

(** ** The array [dependence_by_lag] *)

Lemma entries_of_list (l : list Q) :
  entry l <$> seqZ 0 (Z.of_nat (length l)) = l.
Proof.
  apply list_eq. intros i. rewrite list_lookup_fmap.
  destruct (l !! i) as [x|] eqn:E.
  - pose proof (lookup_lt_Some _ _ _ E) as Hi.
    rewrite lookup_seqZ_lt by lia. cbn.
    unfold entry. rewrite item_inside by lia.
    rewrite Z.add_0_l, Nat2Z.id, E. reflexivity.
  - apply lookup_ge_None in E. rewrite lookup_seqZ_ge by lia. reflexivity.
Qed.

(** Addition of fractions is associative and has the neutral element 0, on
    the nose: the sum that [np.sum] forms from the right and the sum of
    the entries taken one after the other are the same fraction. *)
Lemma Qplus_0_r_eq (x : Q) : (x + 0)%Q = x.
Proof.
  destruct x as [a b]. unfold Qplus. cbn [Qnum Qden].
  f_equal; [lia|apply Pos.mul_1_r].
Qed.

Lemma Qplus_0_l_eq (x : Q) : (0 + x)%Q = x.
Proof.
  destruct x as [a b]. unfold Qplus. cbn [Qnum Qden].
  f_equal. lia.
Qed.

Lemma Qplus_assoc_eq (x y z : Q) : (x + (y + z))%Q = (x + y + z)%Q.
Proof.
  destruct x as [a b], y as [c d], z as [e f]. unfold Qplus. cbn [Qnum Qden].
  f_equal; [rewrite !Pos2Z.inj_mul; ring|apply Pos.mul_assoc].
Qed.

Lemma Qsum_snoc (l : list Q) (x : Q) : Qsum (l ++ [x]) = (Qsum l + x)%Q.
Proof.
  induction l as [|y l IH].
  - change ((x + 0)%Q = (0 + x)%Q). rewrite Qplus_0_r_eq, Qplus_0_l_eq.
    reflexivity.
  - change ((y + Qsum (l ++ [x]))%Q = (y + Qsum l + x)%Q).
    rewrite IH. apply Qplus_assoc_eq.
Qed.

Lemma sum_terms_ext (f g : Z → Q) (lo : Z) (k : nat) :
  (∀ i : nat, (i < k)%nat → f (lo + Z.of_nat i) = g (lo + Z.of_nat i)) →
  sum_terms f lo k = sum_terms g lo k.
Proof.
  induction k as [|k IH]; intros H; [reflexivity|].
  cbn [sum_terms]. rewrite IH by (intros i Hi; apply H; lia).
  rewrite H by lia. reflexivity.
Qed.

Lemma entry_app_l (l l' : list Q) (i : nat) :
  (i < length l)%nat → entry (l ++ l') (Z.of_nat i) = entry l (Z.of_nat i).
Proof.
  intros Hi. unfold entry.
  rewrite !item_inside by (rewrite ?length_app; lia).
  rewrite Nat2Z.id, lookup_app_l by exact Hi. reflexivity.
Qed.

Lemma entry_snoc (l : list Q) (x : Q) :
  entry (l ++ [x]) (Z.of_nat (length l)) = x.
Proof.
  unfold entry. rewrite item_inside by (rewrite length_app; cbn; lia).
  rewrite Nat2Z.id, list_lookup_middle by reflexivity. reflexivity.
Qed.

Lemma Qsum_terms (l : list Q) : Qsum l = sum_terms (entry l) 0 (length l).
Proof.
  induction l as [|x l IH] using rev_ind; [reflexivity|].
  rewrite Qsum_snoc, length_app, Nat.add_1_r. cbn [sum_terms].
  rewrite Z.add_0_l, entry_snoc. f_equal. rewrite IH.
  apply sum_terms_ext. intros i Hi. rewrite Z.add_0_l. symmetry.
  apply entry_app_l, Hi.
Qed.

Lemma Qsum_entries (l : list Q) (M : Z) :
  Z.of_nat (length l) = M + 1 → Qsum l = sum_over (entry l) 0 M.
Proof.
  intros H. unfold sum_over.
  replace (Z.to_nat (M + 1 - 0)) with (length l) by lia.
  apply Qsum_terms.
Qed.

Lemma length_lag_values (e : MGC) (matrix_X matrix_Y : matrix) (n M : Z) :
  0 ≤ M → Z.of_nat (length (lag_values e matrix_X matrix_Y n M)) = M + 1.
Proof.
  intros H. unfold lag_values, arange. cbn [length].
  rewrite length_fmap, length_seqZ. lia.
Qed.

Lemma lookup_lag_values (e : MGC) (matrix_X matrix_Y : matrix) (n M j : Z) :
  1 ≤ j ≤ M →
  lag_values e matrix_X matrix_Y n M !! Z.to_nat j
  = Some (lag_value e matrix_X matrix_Y n j).
Proof.
  intros H. unfold lag_values, arange.
  replace (Z.to_nat j) with (S (Z.to_nat (j - 1))) by lia.
  rewrite lookup_cons_ne_0 by lia. cbn [Nat.pred]. rewrite list_lookup_fmap.
  rewrite lookup_seqZ_lt by lia. cbn [fmap option_fmap option_map].
  replace (1 + Z.of_nat (Z.to_nat (j - 1))) with j by lia. reflexivity.
Qed.

(** Within the length of the series, the slices of the loop are the
    matrices of the specification. *)
Lemma lag_value_claimed (e : MGC) (dist_X dist_Y : matrix) (n : nat) (j : Z) :
  is_square n dist_X → is_square n dist_Y → 1 ≤ j ≤ Z.of_nat n →
  lag_value e dist_X dist_Y (Z.of_nat n) j
  == claimed_lag_value e dist_X dist_Y (Z.of_nat n) j.
Proof.
  intros HX HY Hj. unfold lag_value, claimed_lag_value, lag_matrices.
  rewrite (slice2_drop_first n dist_X j HX) by lia.
  rewrite (slice2_drop_last n dist_Y j HY) by lia.
  destruct (Z.eqb_spec j 0); [lia|].
  unfold Qdiv. ring.
Qed.

(** C6: the statistic returned by [test_statistic] is exactly
    [dependence_by_lag[0] + ... + dependence_by_lag[M]], the [M + 1] entries
    of the array added one after the other ([sum_over], which is defined
    without the [np.sum] of the code), with no further scaling; the same
    value is stored in [self.test_statistic_]. *)
Theorem statistic_is_sum_of_lags (matrix_X matrix_Y : ndarray) (w : world) :
  let n := shape0 matrix_X in
  let M := lag_bound (self w) n in
  shape0 matrix_X = shape0 matrix_Y → 0 ≤ M → n ≠ 0 ∨ M = 0 →
  ∃ statistic metadata w' arr,
    test_statistic matrix_X matrix_Y w = (Ok (statistic, metadata), w')
    ∧ heap w' !! dependence_by_lag metadata = Some arr
    ∧ Z.of_nat (length arr) = M + 1
    ∧ statistic = sum_over (entry arr) 0 M
    ∧ test_statistic_ (self w') = Some statistic.
Proof.
  intros n M Hshape HM Hn.
  destruct (test_statistic_run matrix_X matrix_Y w Hshape HM Hn)
    as (lag & sc & Hrun).
  cbn zeta in Hrun. fold n M in Hrun.
  set (D := compute_distance _ _ _) in Hrun.
  set (arr := lag_values (mgc (self w)) D.1 D.2 n M) in Hrun.
  pose proof (length_lag_values (mgc (self w)) D.1 D.2 n M HM) as Hlen.
  eexists _, _, _, arr. split; [exact Hrun|].
  cbn [heap self dependence_by_lag test_statistic_ set_test_statistic_].
  split; [apply list_lookup_middle; reflexivity|].
  split; [exact Hlen|].
  split; [apply Qsum_entries; exact Hlen|reflexivity].
Qed.

(** C5 (amended): [dependence_by_lag] has [M + 1] entries; entry 0 is
    [max(0, s0)] for the engine statistic [s0] of the full distance matrices,
    and for every lag [1 <= j <= M] that does not exceed the number [n] of
    observations, entry [j] is [((n - j) / n) * max(0, sj)] where [sj] is the
    engine statistic of [X]'s distance matrix without its first [j] rows and
    columns and [Y]'s distance matrix without its last [j] rows and
    columns. *)
Theorem dependence_by_lag_values (matrix_X matrix_Y : ndarray) (w : world) :
  let n := shape0 matrix_X in
  let D := compute_distance (as_2d matrix_X) (as_2d matrix_Y)
             (compute_distance_matrix (self w)) in
  let M := lag_bound (self w) n in
  shape0 matrix_X = shape0 matrix_Y →
  is_square (Z.to_nat n) D.1 → is_square (Z.to_nat n) D.2 →
  0 ≤ M → n ≠ 0 ∨ M = 0 →
  ∃ statistic metadata w' arr,
    test_statistic matrix_X matrix_Y w = (Ok (statistic, metadata), w')
    ∧ heap w' !! dependence_by_lag metadata = Some arr
    ∧ Z.of_nat (length arr) = M + 1
    ∧ ∀ j, 0 ≤ j ≤ M → j ≤ n →
        ∃ v, arr !! Z.to_nat j = Some v
             ∧ v == claimed_lag_value (mgc (self w)) D.1 D.2 n j.
Proof.
  intros n D M Hshape HX HY HM Hn.
  destruct (test_statistic_run matrix_X matrix_Y w Hshape HM Hn)
    as (lag & sc & Hrun).
  cbn zeta in Hrun. fold n D M in Hrun.
  set (arr := lag_values (mgc (self w)) D.1 D.2 n M) in Hrun.
  eexists _, _, _, arr. split; [exact Hrun|].
  cbn [heap dependence_by_lag].
  split; [apply list_lookup_middle; reflexivity|].
  split; [apply length_lag_values; exact HM|].
  intros j Hj Hjn.
  destruct (Z.eq_dec j 0) as [->|Hj0].
  - eexists. split; [reflexivity|]. reflexivity.
  - exists (lag_value (mgc (self w)) D.1 D.2 n j).
    split; [apply lookup_lag_values; lia|].
    assert (Hnn : n = Z.of_nat (Z.to_nat n)).
    { unfold n. destruct matrix_X; cbn; lia. }
    rewrite Hnn. apply lag_value_claimed; [exact HX|exact HY|lia].
Qed.

(** ** The lag bound *)

Lemma shape0_nonneg (a : ndarray) : 0 ≤ shape0 a.
Proof. destruct a; cbn; lia. Qed.

Lemma ceil_sqrt_spec (n : Z) :
  0 ≤ n →
  0 ≤ ceil_sqrt n
  ∧ n ≤ ceil_sqrt n * ceil_sqrt n
  ∧ ∀ k, 0 ≤ k → n ≤ k * k → ceil_sqrt n ≤ k.
Proof.
  intros Hn. unfold ceil_sqrt.
  pose proof (Z.sqrt_spec n Hn) as Hs. pose proof (Z.sqrt_nonneg n) as H0.
  set (r := Z.sqrt n) in *. cbn zeta in Hs.
  destruct (Z.eqb_spec (r * r) n) as [E|E].
  - split; [lia|]. split; [lia|]. intros k Hk Hnk. nia.
  - split; [lia|]. split; [nia|]. intros k Hk Hnk. nia.
Qed.

Lemma ceil_sqrt_pos (n : Z) : 1 ≤ n → 1 ≤ ceil_sqrt n.
Proof.
  intros Hn. destruct (ceil_sqrt_spec n) as (H0 & H1 & _); [lia|]. nia.
Qed.

Lemma runs_with_lag_bound_intro (matrix_X matrix_Y : ndarray) (w : world) :
  let n := shape0 matrix_X in
  let M := lag_bound (self w) n in
  shape0 matrix_X = shape0 matrix_Y → 0 ≤ M → n ≠ 0 ∨ M = 0 →
  runs_with_lag_bound matrix_X matrix_Y w M.
Proof.
  intros n M Hshape HM Hn.
  destruct (test_statistic_run matrix_X matrix_Y w Hshape HM Hn)
    as (lag & sc & Hrun).
  cbn zeta in Hrun. fold n M in Hrun.
  eexists _, _, _. split; [exact Hrun|].
  cbn [heap snd dependence_by_lag engine_log].
  split; [apply list_lookup_middle; reflexivity|].
  split; [apply length_lag_values; exact HM|].
  rewrite length_app. cbn [length]. rewrite length_fmap.
  unfold arange. rewrite length_seqZ. lia.
Qed.

Lemma runs_with_lag_bound_unique (matrix_X matrix_Y : ndarray) (w : world)
    (M M' : Z) :
  runs_with_lag_bound matrix_X matrix_Y w M →
  runs_with_lag_bound matrix_X matrix_Y w M' → M = M'.
Proof.
  intros (r & w1 & arr & H1 & _ & _ & Hlog) (r' & w2 & arr' & H2 & _ & _ & Hlog').
  rewrite H1 in H2. injection H2 as _ ->. lia.
Qed.

(** C4 (amended): the lag bound [M] used by [test_statistic] is
    [ceil(sqrt(n))], the least [k >= 0] with [n <= k * k], when the object was
    built with [max_lag=None]; when the caller leaves [max_lag] out, the
    default [0] of the constructor applies and [M] is 0. *)
Theorem default_lag_bound (cdm : option (option distance_fn))
    (matrix_X matrix_Y : ndarray) (w : world) :
  let n := shape0 matrix_X in
  shape0 matrix_X = shape0 matrix_Y →
  (self w = MGCX_init cdm (Some None) →
     runs_with_lag_bound matrix_X matrix_Y w (ceil_sqrt n))
  ∧ (self w = MGCX_init cdm None →
     runs_with_lag_bound matrix_X matrix_Y w 0)
  ∧ (0 ≤ ceil_sqrt n
     ∧ n ≤ ceil_sqrt n * ceil_sqrt n
     ∧ ∀ k, 0 ≤ k → n ≤ k * k → ceil_sqrt n ≤ k).
Proof.
  intros n Hshape.
  pose proof (ceil_sqrt_spec n (shape0_nonneg matrix_X)) as Hspec.
  split; [|split; [|exact Hspec]].
  - intros Hself.
    assert (HM : lag_bound (self w) n = ceil_sqrt n).
    { rewrite Hself. reflexivity. }
    rewrite <- HM. apply runs_with_lag_bound_intro.
    + exact Hshape.
    + fold n. rewrite HM. apply Hspec.
    + fold n. rewrite HM.
      destruct (Z.eq_dec n 0) as [->|]; [right; reflexivity|left; assumption].
  - intros Hself.
    assert (HM : lag_bound (self w) n = 0).
    { rewrite Hself. reflexivity. }
    rewrite <- HM. apply runs_with_lag_bound_intro.
    + exact Hshape.
    + fold n. rewrite HM. lia.
    + fold n. rewrite HM. right. reflexivity.
Qed.

(** ** Failure at entry *)

Lemma test_statistic_mismatch (matrix_X matrix_Y : ndarray) (w : world) :
  shape0 matrix_X ≠ shape0 matrix_Y →
  test_statistic matrix_X matrix_Y w = (Raise (AssertionError shape_message), w).
Proof.
  intros H. unfold test_statistic.
  apply Z.eqb_neq in H. rewrite H. reflexivity.
Qed.

Lemma p_value_mismatch (matrix_X matrix_Y : ndarray)
    (replication_factor : option Z) (is_fast : option bool) (w : world) :
  shape0 matrix_X ≠ shape0 matrix_Y →
  p_value matrix_X matrix_Y replication_factor is_fast w
  = (Raise (AssertionError shape_message), w).
Proof.
  intros H. unfold p_value.
  apply Z.eqb_neq in H. rewrite H. reflexivity.
Qed.

(** C7: when the first dimensions of [X] and [Y] differ, [test_statistic]
    and [p_value] both fail on their entry assertion (the error the
    specification calls InvalidInputError): the world is as it was, so the
    engine has not been called, nothing has been allocated or stored and no
    random number has been drawn. *)
Theorem shape_mismatch_fails_at_entry (matrix_X matrix_Y : ndarray)
    (replication_factor : option Z) (is_fast : option bool) (w : world) :
  shape0 matrix_X ≠ shape0 matrix_Y →
  test_statistic matrix_X matrix_Y w
    = (Raise (AssertionError shape_message), w)
  ∧ p_value matrix_X matrix_Y replication_factor is_fast w
    = (Raise (AssertionError shape_message), w).
Proof.
  intros H. split.
  - apply test_statistic_mismatch, H.
  - apply p_value_mismatch, H.
Qed.

(** ** Side effects *)

(** C9 (amended): a call of [test_statistic] leaves unchanged the fields
    [compute_distance_matrix], [max_lag], [which_test], [mgc], [p_value_] and
    [p_value_metadata_] of the test object, the random generator, and every
    array that existed before the call (its only writes go to the array it
    allocates; the input matrices are read and never written); when it
    returns, it has stored the returned statistic and metadata in the fields
    [test_statistic_] and [test_statistic_metadata_]. *)
Theorem test_statistic_side_effects (matrix_X matrix_Y : ndarray) (w : world) :
  match test_statistic matrix_X matrix_Y w with
  | (Ok r, w') =>
      untouched w w'
      ∧ test_statistic_ (self w') = Some r.1
      ∧ test_statistic_metadata_ (self w') = Some r.2
  | (Raise _, w') => untouched w w'
  end.
Proof.
  apply (test_statistic_keeps w matrix_X matrix_Y w), untouched_refl.
Qed.

(** ** Block permutation *)

Lemma choice_length (g : rng_state) (a size : Z) :
  length (choice g a size).1 = Z.to_nat size.
Proof. cbn. rewrite length_fmap, length_seq. reflexivity. Qed.

Lemma choice_lookup (g : rng_state) (a size : Z) (k : nat) :
  (k < Z.to_nat size)%nat → (choice g a size).1 !! k = Some (g k `mod` a).
Proof.
  intros Hk. cbn. rewrite list_lookup_fmap, lookup_seq_lt by exact Hk.
  reflexivity.
Qed.

Lemma choice_range (g : rng_state) (a size : Z) :
  0 < a → Forall (λ x, 0 ≤ x < a) (choice g a size).1.
Proof.
  intros Ha. cbn. apply Forall_fmap, Forall_forall.
  intros i _. cbn. apply Z.mod_pos_bound. exact Ha.
Qed.

Lemma block_starts_run (n block_size : Z) (w : world) :
  1 ≤ n → 1 ≤ block_size →
  block_starts n block_size w
  = (Ok (choice (rng w) n (n / block_size + 1)).1,
     with_rng (choice (rng w) n (n / block_size + 1)).2 w).
Proof.
  intros Hn Hb. unfold block_starts, bind, floor_divide.
  destruct (Z.eqb_spec block_size 0); [lia|]. cbn [ret].
  unfold np_random_choice.
  destruct (Z.leb_spec n 0); [lia|].
  destruct (Z.ltb_spec (n / block_size + 1) 0) as [Hk|Hk].
  - pose proof (Z.div_pos n block_size). lia.
  - reflexivity.
Qed.

Lemma length_concat_blocks (starts : list Z) (block_size : Z) :
  length (concat ((λ t, arange t (t + block_size)) <$> starts))
  = (length starts * Z.to_nat block_size)%nat.
Proof.
  induction starts as [|t starts IH]; [reflexivity|].
  cbn [fmap list_fmap concat length]. rewrite length_app, IH.
  unfold arange. rewrite length_seqZ. f_equal. lia.
Qed.

Lemma lookup_concat_blocks (starts : list Z) (block_size : nat) (i : nat) (t : Z) :
  (0 < block_size)%nat →
  starts !! (i / block_size)%nat = Some t →
  concat ((λ t, arange t (t + Z.of_nat block_size)) <$> starts) !! i
  = Some (t + Z.of_nat (i mod block_size)).
Proof.
  intros Hb. revert i. induction starts as [|t0 starts IH]; intros i Ht.
  - discriminate.
  - cbn [fmap list_fmap concat].
    assert (Hlen : length (arange t0 (t0 + Z.of_nat block_size)) = block_size).
    { unfold arange. rewrite length_seqZ. lia. }
    destruct (Nat.lt_ge_cases i block_size) as [Hi|Hi].
    + rewrite Nat.div_small in Ht by exact Hi. injection Ht as ->.
      rewrite lookup_app_l by (rewrite Hlen; exact Hi).
      rewrite Nat.mod_small by exact Hi.
      unfold arange. apply lookup_seqZ_lt. lia.
    + rewrite lookup_app_r by (rewrite Hlen; exact Hi). rewrite Hlen.
      assert (Hsplit : i = ((i - block_size) + 1 * block_size)%nat) by lia.
      rewrite Hsplit in Ht. rewrite Nat.div_add in Ht by lia.
      rewrite Nat.add_1_r in Ht. cbn [lookup list_lookup] in Ht.
      rewrite (IH _ Ht). f_equal. f_equal. f_equal.
      rewrite Hsplit at 2. rewrite Nat.Div0.mod_add. reflexivity.
Qed.

Lemma blocks_of_take (starts : list Z) (n block_size : Z) :
  0 ≤ n → n ≤ Z.of_nat (length starts) * block_size →
  blocks_of starts n block_size
  = (λ x, x `mod` n)
      <$> take (Z.to_nat n) (concat ((λ t, arange t (t + block_size)) <$> starts)).
Proof.
  intros Hn Hlen. unfold blocks_of. rewrite slice_from_start; [reflexivity|].
  rewrite length_concat_blocks. lia.
Qed.

Lemma blocks_of_length (starts : list Z) (n block_size : Z) :
  0 ≤ n → n ≤ Z.of_nat (length starts) * block_size →
  length (blocks_of starts n block_size) = Z.to_nat n.
Proof.
  intros Hn Hlen. rewrite blocks_of_take by assumption.
  rewrite length_fmap, length_take, length_concat_blocks. lia.
Qed.

Lemma blocks_of_range (starts : list Z) (n block_size : Z) :
  1 ≤ n → Forall (λ x, 0 ≤ x < n) (blocks_of starts n block_size).
Proof.
  intros Hn. unfold blocks_of. apply Forall_fmap, Forall_forall.
  intros x _. cbn. apply Z.mod_pos_bound. lia.
Qed.

Lemma blocks_of_lookup (starts : list Z) (n block_size : Z) (i : nat) (t : Z) :
  1 ≤ block_size → n ≤ Z.of_nat (length starts) * block_size →
  Z.of_nat i < n →
  starts !! (i / Z.to_nat block_size)%nat = Some t →
  blocks_of starts n block_size !! i
  = Some ((t + Z.of_nat (i mod Z.to_nat block_size)) `mod` n).
Proof.
  intros Hb Hlen Hi Ht. rewrite blocks_of_take by lia.
  rewrite list_lookup_fmap, lookup_take_lt by lia.
  pose proof (lookup_concat_blocks starts (Z.to_nat block_size) i t) as Hc.
  rewrite Z2Nat.id in Hc by lia.
  rewrite Hc by (lia || exact Ht). reflexivity.
Qed.

(** Enough blocks are drawn to cover the series. *)
Lemma blocks_cover (n block_size : Z) :
  0 ≤ n → 1 ≤ block_size → n ≤ (n / block_size + 1) * block_size.
Proof.
  intros Hn Hb.
  pose proof (Z.div_mod n block_size) as Hdm.
  pose proof (Z.mod_pos_bound n block_size). nia.
Qed.

(** ** Fancy indexing *)

Lemma item_is_Some {A} (l : list A) (i : Z) :
  0 ≤ i < Z.of_nat (length l) → is_Some (item l i).
Proof.
  intros H. rewrite item_inside by exact H.
  apply lookup_lt_is_Some. lia.
Qed.

Lemma item_elem_of {A} (l : list A) (i : Z) (x : A) : item l i = Some x → x ∈ l.
Proof.
  unfold item. destruct (norm_index (length l) i) as [p|]; [|discriminate].
  cbn. apply list_elem_of_lookup_2.
Qed.

Lemma ix_select_shape (n : nat) (m : matrix) (rows cols : list Z) :
  is_square n m →
  Forall (λ x, 0 ≤ x < Z.of_nat n) rows → Forall (λ x, 0 ≤ x < Z.of_nat n) cols →
  ∃ P, ix_select m rows cols = Some P
       ∧ length P = length rows
       ∧ Forall (λ r, length r = length cols) P.
Proof.
  intros [Hlen Hrows] Hr Hc. unfold ix_select.
  assert (Hsome : is_Some (mapM (λ r, row ← item m r; mapM (item row) cols) rows)).
  { apply mapM_is_Some_2. eapply Forall_impl; [exact Hr|].
    intros r Hrr. cbn in Hrr. cbn.
    destruct (item_is_Some m r) as [row Hrow]; [lia|].
    rewrite Hrow. cbn. apply mapM_is_Some_2.
    apply item_elem_of in Hrow as Hin.
    rewrite Forall_forall in Hrows. specialize (Hrows row Hin). cbn in Hrows.
    eapply Forall_impl; [exact Hc|]. intros c Hcc. cbn in Hcc. cbn.
    apply item_is_Some. lia. }
  destruct Hsome as [P HP]. exists P. split; [exact HP|].
  split; [symmetry; eapply length_mapM; exact HP|].
  apply mapM_Some_1 in HP.
  apply Forall_forall. intros y Hy.
  apply list_elem_of_lookup in Hy as [k Hk].
  destruct (Forall2_lookup_r _ _ _ _ _ HP Hk) as (r & _ & Hry).
  cbn in Hry. destruct (item m r) as [row|]; [|discriminate]. cbn in Hry.
  symmetry. eapply length_mapM. exact Hry.
Qed.

Lemma ix_run (n : nat) (m : matrix) (idx : list Z) (w : world) :
  is_square n m → length idx = n → Forall (λ x, 0 ≤ x < Z.of_nat n) idx →
  ∃ P, ix_ m idx idx w = (Ok P, w) ∧ is_square n P.
Proof.
  intros Hm Hlen Hidx.
  destruct (ix_select_shape n m idx idx Hm Hidx Hidx) as (P & HP & HlP & HrP).
  exists P. unfold ix_. rewrite HP. split; [reflexivity|].
  split; [lia|]. rewrite Hlen in HrP. exact HrP.
Qed.

Lemma block_permutation_run (n block_size : Z) (w : world) :
  1 ≤ n → 1 ≤ block_size →
  let starts := (choice (rng w) n (n / block_size + 1)).1 in
  let w' := with_rng (choice (rng w) n (n / block_size + 1)).2 w in
  block_starts n block_size w = (Ok starts, w')
  ∧ block_permutation n block_size w = (Ok (blocks_of starts n block_size), w')
  ∧ Z.of_nat (length starts) = n / block_size + 1
  ∧ Forall (λ t, 0 ≤ t < n) starts
  ∧ Z.of_nat (length (blocks_of starts n block_size)) = n
  ∧ Forall (λ x, 0 ≤ x < n) (blocks_of starts n block_size).
Proof.
  intros Hn Hb starts w'.
  pose proof (block_starts_run n block_size w Hn Hb) as Hrun.
  pose proof (Z.div_pos n block_size) as Hdiv.
  assert (Hlen : Z.of_nat (length starts) = n / block_size + 1).
  { unfold starts. rewrite choice_length. lia. }
  split; [exact Hrun|].
  split; [unfold block_permutation; erewrite bind_ok; [reflexivity|exact Hrun]|].
  split; [exact Hlen|].
  split; [apply choice_range; lia|].
  split; [|apply blocks_of_range; exact Hn].
  rewrite blocks_of_length; [lia|lia|].
  rewrite Hlen. apply blocks_cover; lia.
Qed.

(** C8: for [n >= 1] and [block_size = ceil(sqrt(n))], the permuted index
    sequence of a repetition is produced, has length exactly [n] and all its
    values lie in [[0, n)]; indexing an [n]-by-[n] matrix with it on rows and
    columns succeeds and gives an [n]-by-[n] matrix. *)
Theorem permuted_indices_in_bounds (n : Z) (w : world) :
  1 ≤ n →
  ∃ permuted_indices w',
    block_permutation n (ceil_sqrt n) w = (Ok permuted_indices, w')
    ∧ Z.of_nat (length permuted_indices) = n
    ∧ Forall (λ x, 0 ≤ x < n) permuted_indices
    ∧ ∀ dist_Y, is_square (Z.to_nat n) dist_Y →
        ∃ permuted_Y,
          ix_ dist_Y permuted_indices permuted_indices w' = (Ok permuted_Y, w')
          ∧ is_square (Z.to_nat n) permuted_Y.
Proof.
  intros Hn.
  destruct (block_permutation_run n (ceil_sqrt n) w Hn (ceil_sqrt_pos n Hn))
    as (_ & Hperm & _ & _ & Hlen & Hrange).
  eexists _, _. split; [exact Hperm|].
  split; [exact Hlen|]. split; [exact Hrange|].
  intros dist_Y Hsq. apply ix_run; [exact Hsq|lia|].
  eapply Forall_impl; [exact Hrange|]. intros x Hx. cbn in Hx. lia.
Qed.

(** C2 (amended): with [block_size = ceil(sqrt(n))], a repetition draws
    exactly [floor(n / block_size) + 1] block starting indices, each in
    [{0,...,n-1}] and each from a raw draw of its own; the blocks of length
    [block_size] that start at the drawn indices are concatenated, truncated
    to length [n] and wrapped modulo [n]: position [i] of the result holds
    [(starts[i // block_size] + i % block_size) mod n]. *)
Theorem block_starts_drawn (n : Z) (w : world) :
  1 ≤ n →
  let block_size := ceil_sqrt n in
  ∃ starts w',
    block_starts n block_size w = (Ok starts, w')
    ∧ block_permutation n block_size w = (Ok (blocks_of starts n block_size), w')
    ∧ Z.of_nat (length starts) = n / block_size + 1
    ∧ Forall (λ t, 0 ≤ t < n) starts
    ∧ (∀ k : nat, Z.of_nat k < n / block_size + 1 →
         starts !! k = Some (rng w k `mod` n))
    ∧ Z.of_nat (length (blocks_of starts n block_size)) = n
    ∧ ∀ i : nat, Z.of_nat i < n →
        ∃ t, starts !! (i / Z.to_nat block_size)%nat = Some t
             ∧ blocks_of starts n block_size !! i
               = Some ((t + Z.of_nat (i mod Z.to_nat block_size)) `mod` n).
Proof.
  intros Hn block_size.
  pose proof (ceil_sqrt_pos n Hn) as Hb. fold block_size in Hb.
  destruct (block_permutation_run n block_size w Hn Hb)
    as (Hstarts & Hperm & Hlen & Hrange & Hplen & _).
  eexists _, _. split; [exact Hstarts|]. split; [exact Hperm|].
  split; [exact Hlen|]. split; [exact Hrange|].
  split; [intros k Hk; apply choice_lookup; lia|].
  split; [exact Hplen|].
  intros i Hi.
  pose proof (blocks_cover n block_size ltac:(lia) Hb) as Hcover.
  set (starts := (choice (rng w) n (n / block_size + 1)).1) in *.
  assert (Hq : (i / Z.to_nat block_size < length starts)%nat).
  { apply Nat.Div0.div_lt_upper_bound. nia. }
  destruct (lookup_lt_is_Some_2 starts _ Hq) as [t Ht].
  exists t. split; [exact Ht|].
  apply blocks_of_lookup; [exact Hb|lia|exact Hi|exact Ht].
Qed.

(** ** The exact path of [p_value] *)

Lemma permuted_indices_run (n : Z) (w : world) :
  1 ≤ n →
  ∃ idx w',
    block_permutation n (ceil_sqrt n) w = (Ok idx, w')
    ∧ Z.of_nat (length idx) = n
    ∧ Forall (λ x, 0 ≤ x < n) idx
    ∧ self w' = self w
    ∧ heap w' = heap w.
Proof.
  intros Hn.
  destruct (block_permutation_run n (ceil_sqrt n) w Hn (ceil_sqrt_pos n Hn))
    as (_ & Hperm & _ & _ & Hlen & Hrange).
  eexists _, _. split; [exact Hperm|].
  split; [exact Hlen|]. split; [exact Hrange|]. split; reflexivity.
Qed.

Lemma hoare_map_each {A B} (I : world → Prop) (f : A → Py B) (xs : list A) E :
  (∀ x, hoare I (f x) (λ _, I) E) →
  hoare I (map_each f xs) (λ ys w, I w ∧ length ys = length xs) E.
Proof.
  intros Hf. induction xs as [|x xs IH].
  - apply hoare_ret. auto.
  - cbn [map_each]. eapply hoare_bind; [apply Hf|]. intros y.
    eapply hoare_bind; [apply IH|]. intros ys.
    apply hoare_ret. intros w [Hw Hlen]. split; [exact Hw|].
    cbn. rewrite Hlen. reflexivity.
Qed.

Lemma lag_bound_configured (f : option distance_fn) (lag : option Z) (e : MGC)
    (w : world) (n : Z) :
  configured f lag e w →
  lag_bound (self w) n = match lag with Some m => m | None => ceil_sqrt n end.
Proof. intros (_ & Hl & _). unfold lag_bound. rewrite Hl. reflexivity. Qed.

(** With a lag bound [0 <= M] and matching shapes, [test_statistic] returns
    and keeps the configuration. *)
Lemma test_statistic_returns (f : option distance_fn) (lag : option Z) (e : MGC)
    (matrix_X matrix_Y : ndarray) :
  let n := shape0 matrix_X in
  let M := match lag with Some m => m | None => ceil_sqrt n end in
  shape0 matrix_X = shape0 matrix_Y → 0 ≤ M → n ≠ 0 ∨ M = 0 →
  hoare (configured f lag e) (test_statistic matrix_X matrix_Y)
    (λ _, configured f lag e) no_exn.
Proof.
  intros n M Hshape HM Hn w Hw.
  pose proof (lag_bound_configured f lag e w n Hw) as HMw. fold M in HMw.
  destruct (test_statistic_run matrix_X matrix_Y w) as (l & sc & Hrun);
    [exact Hshape|fold n; rewrite HMw; exact HM|fold n; rewrite HMw; exact Hn|].
  rewrite Hrun. exact Hw.
Qed.

Lemma worker_returns (f : option distance_fn) (lag : option Z) (e : MGC)
    (dist_X dist_Y : matrix) (n : nat) (rep : Z) :
  let M := match lag with Some m => m | None => ceil_sqrt (Z.of_nat n) end in
  is_square n dist_X → is_square n dist_Y → (1 ≤ n)%nat → 0 ≤ M →
  hoare (configured f lag e)
    (worker dist_X dist_Y (Z.of_nat n) (ceil_sqrt (Z.of_nat n)) rep)
    (λ _, configured f lag e) no_exn.
Proof.
  intros M HX HY Hn HM w Hw. unfold worker.
  destruct (permuted_indices_run (Z.of_nat n) w ltac:(lia))
    as (idx & w1 & Hperm & Hlen & Hrange & Hw1 & _).
  erewrite bind_ok; [|exact Hperm].
  destruct (ix_run n dist_Y idx w1 HY ltac:(lia)) as (P & HP & HPsq).
  { eapply Forall_impl; [exact Hrange|]. intros x Hx. cbn in Hx. lia. }
  erewrite bind_ok; [|exact HP].
  assert (Hshape : shape0 (Array2 dist_X) = shape0 (Array2 P)).
  { cbn. destruct HX as [-> _]. destruct HPsq as [-> _]. reflexivity. }
  assert (HnX : shape0 (Array2 dist_X) = Z.of_nat n).
  { cbn. destruct HX as [-> _]. reflexivity. }
  pose proof (test_statistic_returns f lag e (Array2 dist_X) (Array2 P) Hshape)
    as Hts.
  rewrite HnX in Hts. fold M in Hts.
  specialize (Hts HM ltac:(left; lia) w1).
  unfold bind.
  destruct (test_statistic (Array2 dist_X) (Array2 P) w1) as [[[s md]|ex] w2].
  - cbn. apply Hts. unfold configured. rewrite Hw1. exact Hw.
  - apply Hts. unfold configured. rewrite Hw1. exact Hw.
Qed.

Lemma shape0_as_2d (a : ndarray) : shape0 a = Z.of_nat (length (as_2d a)).
Proof. destruct a; cbn; [unfold reshape_column; rewrite length_fmap|]; reflexivity. Qed.

Lemma count_greater_bounds (l : list Q) (x : Q) :
  0 ≤ count_greater l x ≤ Z.of_nat (length l).
Proof.
  unfold count_greater.
  pose proof (length_filter (λ y, Qgtb y x = true) l). lia.
Qed.

(** The count that [np.sum(np.greater(l, x))] gives is the number of
    samples strictly greater than [x]. *)
Lemma count_greater_above (l : list Q) (x : Q) :
  count_greater l x = count_above l x.
Proof.
  unfold count_greater. induction l as [|y l IH]; [reflexivity|].
  cbn [count_above]. rewrite <- IH.
  destruct (Qlt_le_dec x y) as [Hlt|Hle].
  - rewrite filter_cons_True; [cbn [length]; lia|].
    unfold Qgtb. destruct (Qle_bool y x) eqn:E; [|reflexivity].
    apply Qle_bool_iff in E. exfalso.
    apply (Qlt_irrefl x). eapply Qlt_le_trans; eassumption.
  - rewrite filter_cons_False; [lia|].
    unfold Qgtb. apply Qle_bool_iff in Hle. rewrite Hle. discriminate.
Qed.

Lemma ratio_is_zero (c rf : Z) :
  1 ≤ rf → Qeq_bool (inject_Z c / inject_Z rf) 0 = (c =? 0).
Proof.
  intros Hrf. destruct rf as [|r|r]; try lia.
  destruct (Z.eqb_spec c 0) as [->|Hc].
  - reflexivity.
  - destruct (Qeq_bool _ 0) eqn:E; [|reflexivity].
    apply Qeq_bool_eq in E. unfold Qeq in E. cbn in E. lia.
Qed.

Lemma claimed_p_value_bounds (stats : list Q) (observed : Q) (rf : Z) :
  Z.of_nat (length stats) = rf → 1 ≤ rf →
  (0 < claimed_p_value stats observed rf)%Q
  ∧ (claimed_p_value stats observed rf <= 1)%Q.
Proof.
  intros Hlen Hrf. unfold claimed_p_value. rewrite <- count_greater_above.
  pose proof (count_greater_bounds stats observed) as Hc.
  set (c := count_greater stats observed) in *.
  destruct rf as [|r|r]; try lia.
  destruct (Z.eqb_spec c 0) as [E|E].
  - split; unfold Qlt, Qle; cbn; lia.
  - split; unfold Qlt, Qle; cbn; lia.
Qed.

(** The steps of [p_value] after the null samples have been collected. *)
Lemma p_value_tail (stats : list Q) (observed : Q) (rf : Z) (w : world) :
  1 ≤ rf →
  let p := claimed_p_value stats observed rf in
  let md := {| null_distribution := length (heap w) |} in
  (do test_stats_null <- new_list stats;
   do p <- true_divide (inject_Z (count_greater stats observed)) (inject_Z rf);
   modify_self (set_p_value_ p);;
   do p <- (if Qeq_bool p 0
            then do p' <- int_true_divide 1 rf;
                 modify_self (set_p_value_ p');; ret p'
            else ret p);
   let metadata := {| null_distribution := test_stats_null |} in
   modify_self (set_p_value_metadata_ metadata);;
   ret (p, metadata)) w
  = (Ok (p, md),
     {| self := set_p_value_metadata_ md (set_p_value_ p (self w));
        heap := heap w ++ [stats];
        rng := rng w;
        engine_log := engine_log w |}).
Proof.
  intros Hrf p md.
  unfold bind at 1. cbn [new_list].
  erewrite bind_ok; [|apply true_divide_run, Qeq_bool_inject_Z_0; lia].
  unfold bind at 1. cbn [modify_self].
  rewrite ratio_is_zero by exact Hrf.
  unfold p, claimed_p_value. rewrite <- count_greater_above.
  destruct (count_greater stats observed =? 0).
  - unfold bind, int_true_divide.
    destruct (Z.eqb_spec rf 0); [lia|]. reflexivity.
  - reflexivity.
Qed.

(** In the exact path [p_value] is the observed statistic, the
    repetitions, and then [empirical_p_value] on their results. *)
Lemma p_value_exact_path (matrix_X matrix_Y : ndarray)
    (replication_factor : option Z) (is_fast : option bool) :
  default false is_fast = false →
  p_value matrix_X matrix_Y replication_factor is_fast
  = (let rf := default 1000 replication_factor in
     assert (shape0 matrix_X =? shape0 matrix_Y) shape_message;;
     let n := shape0 matrix_X in
     do self <- get_self;
     let '(dist_X, dist_Y) :=
       compute_distance (as_2d matrix_X) (as_2d matrix_Y)
         (compute_distance_matrix self) in
     do '(observed, _) <- test_statistic (Array2 dist_X) (Array2 dist_Y);
     do stats <- map_each (worker dist_X dist_Y n (ceil_sqrt n)) (arange 0 rf);
     empirical_p_value stats observed rf).
Proof. intros Hfast. unfold p_value. rewrite Hfast. reflexivity. Qed.

(** Whatever the repetitions have returned, the lines after them give the
    p-value of the specification, which lies in [(0, 1]]. *)
Lemma empirical_p_value_run (stats : list Q) (observed : Q) (rf : Z) (w : world) :
  1 ≤ rf → Z.of_nat (length stats) = rf →
  let p := claimed_p_value stats observed rf in
  ∃ metadata w',
    empirical_p_value stats observed rf w = (Ok (p, metadata), w')
    ∧ heap w' !! null_distribution metadata = Some stats
    ∧ p_value_ (self w') = Some p
    ∧ (0 < p)%Q ∧ (p <= 1)%Q.
Proof.
  intros Hrf Hlen p.
  destruct (claimed_p_value_bounds stats observed rf Hlen Hrf) as [Hlo Hhi].
  eexists _, _. split; [apply (p_value_tail stats observed rf w Hrf)|].
  cbn [heap null_distribution self p_value_ set_p_value_metadata_ set_p_value_].
  split; [apply list_lookup_middle; reflexivity|].
  split; [reflexivity|]. split; [exact Hlo|exact Hhi].
Qed.

(** The exact path returns: the null samples are the results of the
    workers, and the p-value is computed from them. *)
Lemma p_value_exact_run (matrix_X matrix_Y : ndarray)
    (replication_factor : option Z) (is_fast : option bool) (w : world) :
  let n := shape0 matrix_X in
  let rf := default 1000 replication_factor in
  let D := compute_distance (as_2d matrix_X) (as_2d matrix_Y)
             (compute_distance_matrix (self w)) in
  shape0 matrix_X = shape0 matrix_Y → 1 ≤ n → 0 ≤ lag_bound (self w) n →
  distance_contract (compute_distance_matrix (self w)) →
  default false is_fast = false → 1 ≤ rf →
  ∃ stats observed metadata0 w0 w2,
    test_statistic (Array2 D.1) (Array2 D.2) w = (Ok (observed, metadata0), w0)
    ∧ map_each (worker D.1 D.2 n (ceil_sqrt n)) (arange 0 rf) w0 = (Ok stats, w2)
    ∧ length stats = length (arange 0 rf)
    ∧ let p := claimed_p_value stats observed rf in
      let metadata := {| null_distribution := length (heap w2) |} in
      p_value matrix_X matrix_Y replication_factor is_fast w
      = (Ok (p, metadata),
         {| self := set_p_value_metadata_ metadata (set_p_value_ p (self w2));
            heap := heap w2 ++ [stats];
            rng := rng w2;
            engine_log := engine_log w2 |}).
Proof.
  intros n rf D Hshape Hn HM Hcontract Hfast Hrf.
  set (f := compute_distance_matrix (self w)) in *.
  set (lag := max_lag (self w)).
  set (e := mgc (self w)).
  assert (Hcfg : configured f lag e w) by (repeat split).
  set (N := length (as_2d matrix_X)).
  assert (HnN : n = Z.of_nat N) by apply shape0_as_2d.
  assert (HNY : length (as_2d matrix_Y) = N).
  { pose proof (shape0_as_2d matrix_Y). unfold n in HnN. lia. }
  destruct (Hcontract (as_2d matrix_X) (as_2d matrix_Y)) as [HX HY].
  fold D N in HX, HY. rewrite HNY in HY.
  destruct D as [dist_X dist_Y] eqn:ED. cbn [fst snd] in *.
  assert (HsX : shape0 (Array2 dist_X) = n).
  { cbn. destruct HX as [-> _]. symmetry. exact HnN. }
  assert (HsY : shape0 (Array2 dist_Y) = n).
  { cbn. destruct HY as [-> _]. symmetry. exact HnN. }
  (* the observed statistic *)
  destruct (test_statistic_run (Array2 dist_X) (Array2 dist_Y) w)
    as (l0 & sc0 & Hobs).
  { rewrite HsX, HsY. reflexivity. }
  { rewrite HsX. exact HM. }
  { left. rewrite HsX. lia. }
  cbn zeta in Hobs.
  match type of Hobs with _ = (Ok (?s, ?md), ?ww) =>
    set (observed := s) in *; set (md0 := md) in *; set (w0 := ww) in * end.
  assert (Hcfg0 : configured f lag e w0) by exact Hcfg.
  (* the null samples *)
  assert (HMlag : 0 ≤ match lag with Some m => m | None => ceil_sqrt (Z.of_nat N) end).
  { rewrite <- HnN. rewrite <- (lag_bound_configured f lag e w n Hcfg). exact HM. }
  assert (Hworker : ∀ rep,
    hoare (configured f lag e) (worker dist_X dist_Y n (ceil_sqrt n) rep)
      (λ _, configured f lag e) no_exn).
  { intros rep. rewrite HnN.
    apply worker_returns; [exact HX|exact HY|lia|exact HMlag]. }
  pose proof (hoare_map_each _ _ (arange 0 rf) _ Hworker w0 Hcfg0) as Hmap.
  destruct (map_each (worker dist_X dist_Y n (ceil_sqrt n)) (arange 0 rf) w0)
    as [[stats|ex] w2] eqn:Estats; [|destruct Hmap].
  destruct Hmap as [Hcfg2 Hlen].
  pose proof (p_value_tail stats observed rf w2 Hrf) as Htail.
  cbn zeta in Htail.
  exists stats, observed, md0, w0, w2.
  split; [exact Hobs|]. split; [exact Estats|]. split; [exact Hlen|].
  cbn zeta. unfold p_value. fold rf. rewrite Hfast.
  apply Z.eqb_eq in Hshape. rewrite Hshape. cbn [assert].
  unfold bind at 1. cbn [ret]. unfold bind at 1. cbn [get_self].
  fold f. fold n. fold D. rewrite ED. cbv beta iota.
  erewrite bind_ok; [|exact Hobs]. cbv beta iota.
  erewrite bind_ok; [|exact Estats].
  exact Htail.
Qed.

(** C3: in the exact path with [replication_factor >= 1], the p-value is
    the number of null samples strictly greater than the observed statistic
    ([count_above], which counts sample by sample and is defined without
    the comparison of the code), divided by [replication_factor]; when that
    number is 0 the p-value is [1 / replication_factor]; it lies in
    [(0, 1]].  First for the lines after the repetitions
    ([empirical_p_value], with which [p_value] ends by
    [p_value_exact_path]): this holds for every list [stats] of
    [replication_factor] samples and every observed statistic, so for
    whatever the repetitions have returned, wherever and in whichever order
    they ran and however their statistics were rounded.  Then for the call
    as a whole: [p_value] returns, its null distribution is a list of
    [replication_factor] samples, and the p-value returned and stored is the
    one above for that list and the statistic [test_statistic] returns on
    the distance matrices. *)
Theorem exact_p_value (matrix_X matrix_Y : ndarray)
    (replication_factor : option Z) (is_fast : option bool) (w : world) :
  let n := shape0 matrix_X in
  let rf := default 1000 replication_factor in
  let D := compute_distance (as_2d matrix_X) (as_2d matrix_Y)
             (compute_distance_matrix (self w)) in
  shape0 matrix_X = shape0 matrix_Y → 1 ≤ n → 0 ≤ lag_bound (self w) n →
  distance_contract (compute_distance_matrix (self w)) →
  default false is_fast = false → 1 ≤ rf →
  (∀ (stats : list Q) (observed : Q) (w1 : world),
     Z.of_nat (length stats) = rf →
     ∃ p metadata w1',
       empirical_p_value stats observed rf w1 = (Ok (p, metadata), w1')
       ∧ heap w1' !! null_distribution metadata = Some stats
       ∧ 0 ≤ count_above stats observed ≤ rf
       ∧ (count_above stats observed ≠ 0 →
          p = (inject_Z (count_above stats observed) / inject_Z rf)%Q)
       ∧ (count_above stats observed = 0 → p = (1 / inject_Z rf)%Q)
       ∧ (0 < p)%Q ∧ (p <= 1)%Q
       ∧ p_value_ (self w1') = Some p)
  ∧ ∃ p metadata w' stats observed metadata0 w0,
    test_statistic (Array2 D.1) (Array2 D.2) w = (Ok (observed, metadata0), w0)
    ∧ p_value matrix_X matrix_Y replication_factor is_fast w
      = (Ok (p, metadata), w')
    ∧ heap w' !! null_distribution metadata = Some stats
    ∧ Z.of_nat (length stats) = rf
    ∧ 0 ≤ count_above stats observed ≤ rf
    ∧ (count_above stats observed ≠ 0 →
       p = (inject_Z (count_above stats observed) / inject_Z rf)%Q)
    ∧ (count_above stats observed = 0 → p = (1 / inject_Z rf)%Q)
    ∧ p = claimed_p_value stats observed rf
    ∧ (0 < p)%Q ∧ (p <= 1)%Q
    ∧ p_value_ (self w') = Some p.
Proof.
  intros n rf D Hshape Hn HM Hcontract Hfast Hrf.
  assert (Hcases : ∀ stats observed, Z.of_nat (length stats) = rf →
    0 ≤ count_above stats observed ≤ rf
    ∧ (count_above stats observed ≠ 0 →
       claimed_p_value stats observed rf
       = (inject_Z (count_above stats observed) / inject_Z rf)%Q)
    ∧ (count_above stats observed = 0 →
       claimed_p_value stats observed rf = (1 / inject_Z rf)%Q)).
  { intros stats observed Hl.
    pose proof (count_greater_bounds stats observed) as Hcount.
    rewrite count_greater_above, Hl in Hcount.
    split; [exact Hcount|]. split.
    - intros Hc. unfold claimed_p_value.
      destruct (Z.eqb_spec (count_above stats observed) 0); [contradiction|].
      reflexivity.
    - intros Hc. unfold claimed_p_value. rewrite Hc. reflexivity. }
  split.
  { intros stats observed w1 Hl.
    destruct (empirical_p_value_run stats observed rf w1 Hrf Hl)
      as (md & w1' & Hrun & Hheap & Hself & Hlo & Hhi).
    destruct (Hcases stats observed Hl) as (Hc & Hpos & Hzero).
    exists (claimed_p_value stats observed rf), md, w1'.
    repeat split; try assumption; apply Hc. }
  destruct (p_value_exact_run matrix_X matrix_Y replication_factor is_fast w
              Hshape Hn HM Hcontract Hfast Hrf)
    as (stats & observed & md0 & w0 & w2 & Hobs & Hstats & Hlen & Hrun).
  cbn zeta in Hrun. fold n rf D in Hobs, Hstats, Hlen, Hrun.
  assert (Hlen' : Z.of_nat (length stats) = rf).
  { rewrite Hlen. unfold arange. rewrite length_seqZ. lia. }
  destruct (claimed_p_value_bounds stats observed rf Hlen' Hrf) as [Hlo Hhi].
  destruct (Hcases stats observed Hlen') as (Hcount & Hpos & Hzero).
  eexists _, _, _, stats, observed, md0, w0.
  split; [exact Hobs|]. split; [exact Hrun|].
  cbn [heap null_distribution self p_value_ set_p_value_metadata_ set_p_value_].
  split; [apply list_lookup_middle; reflexivity|].
  split; [exact Hlen'|]. split; [exact Hcount|].
  split; [exact Hpos|]. split; [exact Hzero|].
  split; [reflexivity|].
  split; [exact Hlo|]. split; [exact Hhi|reflexivity].
Qed.

(** ** One-dimensional inputs *)

Lemma shape0_column (v : list Q) :
  shape0 (Array2 (reshape_column v)) = shape0 (Array1 v).
Proof. cbn. unfold reshape_column. rewrite length_fmap. reflexivity. Qed.

Lemma test_statistic_column_l (v : list Q) (other : ndarray) (w : world) :
  test_statistic (Array1 v) other w
  = test_statistic (Array2 (reshape_column v)) other w.
Proof. unfold test_statistic. rewrite shape0_column. reflexivity. Qed.

Lemma test_statistic_column_r (v : list Q) (other : ndarray) (w : world) :
  test_statistic other (Array1 v) w
  = test_statistic other (Array2 (reshape_column v)) w.
Proof. unfold test_statistic. rewrite shape0_column. reflexivity. Qed.

Lemma p_value_column_l (v : list Q) (other : ndarray)
    (replication_factor : option Z) (is_fast : option bool) (w : world) :
  p_value (Array1 v) other replication_factor is_fast w
  = p_value (Array2 (reshape_column v)) other replication_factor is_fast w.
Proof. unfold p_value. rewrite shape0_column. reflexivity. Qed.

Lemma p_value_column_r (v : list Q) (other : ndarray)
    (replication_factor : option Z) (is_fast : option bool) (w : world) :
  p_value other (Array1 v) replication_factor is_fast w
  = p_value other (Array2 (reshape_column v)) replication_factor is_fast w.
Proof. unfold p_value. rewrite shape0_column. reflexivity. Qed.

(** The column matrix of the code is the explicit [[n, 1]] matrix, and the
    only one. *)
Lemma reshape_column_is_column (v : list Q) : is_column_of v (reshape_column v).
Proof.
  unfold is_column_of, reshape_column, matrix. split; [apply length_fmap|].
  intros i x Hx. rewrite list_lookup_fmap, Hx. reflexivity.
Qed.

Lemma column_unique (v : list Q) (col : matrix) :
  is_column_of v col → col = reshape_column v.
Proof.
  unfold is_column_of, reshape_column, matrix. intros [Hlen Hrows].
  apply list_eq. intros i. rewrite list_lookup_fmap.
  destruct (v !! i) as [x|] eqn:E.
  - apply Hrows, E.
  - apply lookup_ge_None in E. apply lookup_ge_None. lia.
Qed.

(** C10: a 1-D array [v] of length [n] given as [matrix_X] or [matrix_Y]
    is reshaped into the [n]-by-1 column matrix before the distance
    transform: the matrix the code goes on with has [n] rows and its row [i]
    is [[v[i]]], and for every matrix [col] of that description
    [test_statistic] and [p_value] give on [v] the result they give on
    [col]; with an input of matching length they return instead of rejecting
    the array. *)
Theorem one_dimensional_input (v : list Q) (other : ndarray)
    (replication_factor : option Z) (is_fast : option bool) (w : world) :
  let column := Array2 (reshape_column v) in
  let n := Z.of_nat (length v) in
  (as_2d (Array1 v) = reshape_column v
   ∧ length (reshape_column v) = length v
   ∧ Forall (λ row, length row = 1%nat) (reshape_column v)
   ∧ (∀ (i : nat) (x : Q), v !! i = Some x → as_2d (Array1 v) !! i = Some [x])
   ∧ is_column_of v (as_2d (Array1 v)))
  ∧ (test_statistic (Array1 v) other w = test_statistic column other w
     ∧ test_statistic other (Array1 v) w = test_statistic other column w
     ∧ p_value (Array1 v) other replication_factor is_fast w
       = p_value column other replication_factor is_fast w
     ∧ p_value other (Array1 v) replication_factor is_fast w
       = p_value other column replication_factor is_fast w)
  ∧ (∀ col, is_column_of v col →
     test_statistic (Array1 v) other w = test_statistic (Array2 col) other w
     ∧ test_statistic other (Array1 v) w = test_statistic other (Array2 col) w
     ∧ p_value (Array1 v) other replication_factor is_fast w
       = p_value (Array2 col) other replication_factor is_fast w
     ∧ p_value other (Array1 v) replication_factor is_fast w
       = p_value other (Array2 col) replication_factor is_fast w)
  ∧ (shape0 other = n → 1 ≤ n → 0 ≤ lag_bound (self w) n →
     (∃ r w', test_statistic (Array1 v) other w = (Ok r, w'))
     ∧ (∃ r w', test_statistic other (Array1 v) w = (Ok r, w'))
     ∧ (distance_contract (compute_distance_matrix (self w)) →
        default false is_fast = false → 1 ≤ default 1000 replication_factor →
        (∃ r w', p_value (Array1 v) other replication_factor is_fast w = (Ok r, w'))
        ∧ (∃ r w', p_value other (Array1 v) replication_factor is_fast w = (Ok r, w')))).
Proof.
  intros column n.
  pose proof (reshape_column_is_column v) as Hcol.
  split; [|split; [|split]].
  - split; [reflexivity|]. unfold reshape_column.
    split; [apply length_fmap|].
    split; [apply Forall_fmap, Forall_forall; intros x _; reflexivity|].
    split; [exact (proj2 Hcol)|exact Hcol].
  - split; [apply test_statistic_column_l|].
    split; [apply test_statistic_column_r|].
    split; [apply p_value_column_l|apply p_value_column_r].
  - intros col Hc. rewrite (column_unique v col Hc).
    split; [apply test_statistic_column_l|].
    split; [apply test_statistic_column_r|].
    split; [apply p_value_column_l|apply p_value_column_r].
  - intros Hshape Hn HM.
    assert (Hl : shape0 (Array1 v) = shape0 other) by (symmetry; exact Hshape).
    split; [|split].
    + destruct (test_statistic_run (Array1 v) other w Hl) as (l & sc & Hrun);
        [exact HM|left; cbn; lia|].
      eexists _, _. exact Hrun.
    + destruct (test_statistic_run other (Array1 v) w) as (l & sc & Hrun);
        [exact Hshape|rewrite Hshape; exact HM|left; lia|].
      eexists _, _. exact Hrun.
    + intros Hc Hfast Hrf. split.
      * destruct (p_value_exact_run (Array1 v) other replication_factor is_fast w)
          as (stats & obs & md0 & w0 & w2 & _ & _ & _ & Hrun); try assumption.
        eexists _, _. exact Hrun.
      * destruct (p_value_exact_run other (Array1 v) replication_factor is_fast w)
          as (stats & obs & md0 & w0 & w2 & _ & _ & _ & Hrun);
          try assumption; try (rewrite Hshape; assumption).
        eexists _, _. exact Hrun.
Qed.

(** ** The fast path of [p_value] *)

Lemma setitem_at (a : addr) (arr : list Q) (i : Z) (v : Q) (w : world) :
  heap w !! a = Some arr → 0 ≤ i < Z.of_nat (length arr) →
  setitem a i v w
  = (Ok tt, with_heap (<[a := <[Z.to_nat i := v]> arr]> (heap w)) w).
Proof.
  intros Ha Hi. unfold setitem, bind, read_array. rewrite Ha.
  rewrite norm_index_inside by lia. reflexivity.
Qed.

Lemma np_mean_run (l : list Q) (w : world) :
  l ≠ [] →
  np_mean l w = (Ok (Qsum l / inject_Z (Z.of_nat (length l)))%Q, w).
Proof.
  intros Hl. unfold np_mean. apply true_divide_run, Qeq_bool_inject_Z_0.
  destruct l; [congruence|cbn; lia].
Qed.

Lemma np_std_run (l : list Q) (w : world) :
  l ≠ [] →
  let len := inject_Z (Z.of_nat (length l)) in
  let mu := (Qsum l / len)%Q in
  np_std l w
  = (Ok (np_sqrt (Qsum ((λ x, (x - mu) * (x - mu))%Q <$> l) / len)%Q), w).
Proof.
  intros Hl len mu. unfold np_std.
  erewrite bind_ok; [|apply np_mean_run, Hl].
  erewrite bind_ok; [|apply np_mean_run].
  - rewrite length_fmap. reflexivity.
  - destruct l; [congruence|discriminate].
Qed.

Lemma Qsum_app_zeros (l : list Q) (k : nat) :
  Qsum (l ++ replicate k 0%Q) == Qsum l.
Proof.
  induction l as [|x l IH]; cbn.
  - induction k as [|k IHk]; cbn; [reflexivity|]. rewrite IHk. ring.
  - rewrite IH. reflexivity.
Qed.

Lemma block_indices_range (subsample_size i num_samples : Z) (n : nat) :
  0 ≤ subsample_size → 0 ≤ i < num_samples →
  num_samples * subsample_size ≤ Z.of_nat n →
  Forall (λ x, 0 ≤ x < Z.of_nat n)
    (arange (subsample_size * i) (subsample_size * (i + 1))).
Proof.
  intros Hs Hi Hn. unfold arange. apply Forall_seqZ. intros x Hx. nia.
Qed.

(** One turn of [for i in range(num_samples)]: entry [i] of
    [test_stats_null] receives the statistic of block [i]. *)
Lemma fast_body_run (f : option distance_fn) (lag : option Z) (e : MGC)
    (matrix_X permuted_Y : matrix) (n : nat) (subsample_size num_samples : Z)
    (a : addr) (i : Z) (arr : list Q) (w : world) :
  let M := match lag with Some m => m | None => ceil_sqrt subsample_size end in
  is_square n matrix_X → is_square n permuted_Y →
  1 ≤ subsample_size → 0 ≤ i < num_samples →
  num_samples * subsample_size ≤ Z.of_nat n → 0 ≤ M →
  configured f lag e w → heap w !! a = Some arr → i < Z.of_nat (length arr) →
  ∃ w',
    fast_body matrix_X permuted_Y subsample_size a i tt w = (Ok tt, w')
    ∧ configured f lag e w'
    ∧ heap w' !! a
      = Some (<[Z.to_nat i :=
                 block_statistic f lag e matrix_X permuted_Y subsample_size i]> arr).
Proof.
  intros M HX HY Hs Hi Hn HM Hcfg Ha Hlen.
  unfold fast_body.
  set (indices := arange (subsample_size * i) (subsample_size * (i + 1))).
  assert (Hidx : Forall (λ x, 0 ≤ x < Z.of_nat n) indices).
  { apply (block_indices_range subsample_size i num_samples); lia. }
  assert (Hilen : Z.of_nat (length indices) = subsample_size).
  { unfold indices, arange. rewrite length_seqZ. lia. }
  destruct (ix_select_shape n matrix_X indices indices HX Hidx Hidx)
    as (SX & HSX & HSXlen & _).
  destruct (ix_select_shape n permuted_Y indices indices HY Hidx Hidx)
    as (SY & HSY & HSYlen & _).
  unfold bind at 1. unfold ix_ at 1. rewrite HSX. cbn [ret].
  unfold bind at 1. unfold ix_ at 1. rewrite HSY. cbn [ret].
  assert (HsX : shape0 (Array2 SX) = subsample_size) by (cbn; lia).
  assert (HsY : shape0 (Array2 SY) = subsample_size) by (cbn; lia).
  pose proof (lag_bound_configured f lag e w subsample_size Hcfg) as HMw.
  fold M in HMw.
  destruct (test_statistic_run (Array2 SX) (Array2 SY) w) as (l & sc & Hrun).
  { rewrite HsX, HsY. reflexivity. }
  { rewrite HsX, HMw. exact HM. }
  { left. rewrite HsX. lia. }
  cbn zeta in Hrun. erewrite bind_ok; [|exact Hrun]. cbv beta iota.
  erewrite setitem_at with (arr := arr);
    [|cbn [heap]; apply lookup_app_l_Some; exact Ha|lia].
  eexists. split; [reflexivity|].
  cbn [with_heap self heap rng engine_log].
  split; [exact Hcfg|].
  pose proof (lookup_lt_Some _ _ _ Ha) as Halt.
  rewrite list_lookup_insert_eq by (rewrite length_app; lia).
  f_equal. f_equal.
  unfold block_statistic. fold indices. rewrite HSX, HSY.
  cbn [default from_option id as_2d shape0].
  destruct Hcfg as (-> & Hl & ->). unfold lag_bound. rewrite Hl. reflexivity.
Qed.

Lemma fast_loop_run (f : option distance_fn) (lag : option Z) (e : MGC)
    (matrix_X permuted_Y : matrix) (n : nat) (subsample_size num_samples : Z)
    (a : addr) (js : list Z) (arr : list Q) (w : world) :
  let M := match lag with Some m => m | None => ceil_sqrt subsample_size end in
  is_square n matrix_X → is_square n permuted_Y →
  1 ≤ subsample_size → num_samples * subsample_size ≤ Z.of_nat n → 0 ≤ M →
  Forall (λ i, 0 ≤ i < num_samples ∧ i < Z.of_nat (length arr)) js →
  configured f lag e w → heap w !! a = Some arr →
  ∃ w',
    for_each js (fast_body matrix_X permuted_Y subsample_size a) tt w = (Ok tt, w')
    ∧ configured f lag e w'
    ∧ heap w' !! a
      = Some (fill (block_statistic f lag e matrix_X permuted_Y subsample_size)
                arr js).
Proof.
  intros M HX HY Hs Hn HM. revert arr w.
  induction js as [|i js IH]; intros arr w Hjs Hcfg Ha.
  - exists w. split; [reflexivity|]. split; [exact Hcfg|exact Ha].
  - apply Forall_cons in Hjs as [[Hi Hilen] Hjs].
    destruct (fast_body_run f lag e matrix_X permuted_Y n subsample_size
                num_samples a i arr w HX HY Hs Hi Hn HM Hcfg Ha Hilen)
      as (w1 & Hbody & Hcfg1 & Ha1).
    destruct (IH (<[Z.to_nat i :=
                     block_statistic f lag e matrix_X permuted_Y subsample_size i]>
                    arr) w1)
      as (w' & Hrest & Hcfg' & Ha'); [|exact Hcfg1|exact Ha1|].
    + rewrite length_insert. exact Hjs.
    + exists w'. cbn [for_each]. erewrite bind_ok; [|exact Hbody].
      split; [exact Hrest|]. split; [exact Hcfg'|exact Ha'].
Qed.

(** The steps of [_fast_p_value] after the loop. *)
Lemma fast_tail (a : addr) (arr : list Q) (observed : Q) (num_samples : Z)
    (w : world) :
  heap w !! a = Some arr → arr ≠ [] →
  Qeq_bool (np_sqrt (inject_Z num_samples)) 0 = false →
  let len := inject_Z (Z.of_nat (length arr)) in
  let mu := (Qsum arr / len)%Q in
  let sigma := (np_sqrt (Qsum ((λ x, (x - mu) * (x - mu))%Q <$> arr) / len)
                / np_sqrt (inject_Z num_samples))%Q in
  let p := (1 - norm_cdf observed mu sigma)%Q in
  let md := {| null_distribution := a |} in
  (do arr <- read_array a;
   do mu <- np_mean arr;
   do sd <- np_std arr;
   do sigma <- true_divide sd (np_sqrt (inject_Z num_samples));
   let p := (1 - norm_cdf observed mu sigma)%Q in
   modify_self (set_p_value_ p);;
   let metadata := {| null_distribution := a |} in
   modify_self (set_p_value_metadata_ metadata);;
   ret (p, metadata)) w
  = (Ok (p, md),
     with_self (set_p_value_metadata_ md (set_p_value_ p (self w))) w).
Proof.
  intros Ha Hne Hsqrt len mu sigma p md.
  unfold bind at 1. unfold read_array. rewrite Ha.
  erewrite bind_ok; [|apply np_mean_run, Hne].
  erewrite bind_ok; [|apply np_std_run, Hne].
  erewrite bind_ok; [|apply true_divide_run, Hsqrt].
  reflexivity.
Qed.

(** The fast path returns: [Y]'s distance matrix is permuted once, the loop
    writes the statistic of block [i] to entry [i] of the array
    [test_stats_null], allocated with [num_samples * 10] zeros, and the
    p-value is computed from the whole array. *)
Lemma p_value_fast_run (matrix_X matrix_Y : ndarray)
    (replication_factor : option Z) (w : world) :
  let n := shape0 matrix_X in
  let num_samples := n / 10 in
  let f := compute_distance_matrix (self w) in
  let D := compute_distance (as_2d matrix_X) (as_2d matrix_Y) f in
  shape0 matrix_X = shape0 matrix_Y → 10 ≤ n →
  0 ≤ lag_bound (self w) n → 0 ≤ lag_bound (self w) 10 →
  distance_contract f →
  Qeq_bool (np_sqrt (inject_Z num_samples)) 0 = false →
  ∃ observed metadata0 w0 permuted_indices w1 permuted_Y a w3,
    test_statistic (Array2 D.1) (Array2 D.2) w = (Ok (observed, metadata0), w0)
    ∧ block_permutation n (ceil_sqrt n) w0 = (Ok permuted_indices, w1)
    ∧ ix_select D.2 permuted_indices permuted_indices = Some permuted_Y
    ∧ let arr :=
        fill (block_statistic f (max_lag (self w)) (mgc (self w)) D.1 permuted_Y 10)
          (replicate (Z.to_nat (num_samples * 10)) 0%Q) (arange 0 num_samples) in
      let len := inject_Z (num_samples * 10) in
      let mu := (Qsum arr / len)%Q in
      let sigma := (np_sqrt (Qsum ((λ x, (x - mu) * (x - mu))%Q <$> arr) / len)
                    / np_sqrt (inject_Z num_samples))%Q in
      let p := (1 - norm_cdf observed mu sigma)%Q in
      let metadata := {| null_distribution := a |} in
      heap w3 !! a = Some arr
      ∧ p_value matrix_X matrix_Y replication_factor (Some true) w
        = (Ok (p, metadata),
           with_self (set_p_value_metadata_ metadata (set_p_value_ p (self w3))) w3).
Proof.
  intros n num_samples f D Hshape Hn HM HM10 Hcontract Hsqrt.
  set (lag := max_lag (self w)).
  set (e := mgc (self w)).
  assert (Hcfg : configured f lag e w) by (repeat split).
  set (N := length (as_2d matrix_X)).
  assert (HnN : n = Z.of_nat N) by apply shape0_as_2d.
  assert (HNY : length (as_2d matrix_Y) = N).
  { pose proof (shape0_as_2d matrix_Y). unfold n in HnN. lia. }
  destruct (Hcontract (as_2d matrix_X) (as_2d matrix_Y)) as [HX HY].
  fold D N in HX, HY. rewrite HNY in HY.
  destruct D as [dist_X dist_Y] eqn:ED. cbn [fst snd] in *.
  assert (HlX : Z.of_nat (length dist_X) = n).
  { destruct HX as [-> _]. symmetry. exact HnN. }
  assert (HsX : shape0 (Array2 dist_X) = n) by exact HlX.
  assert (HsY : shape0 (Array2 dist_Y) = n).
  { cbn. destruct HY as [-> _]. symmetry. exact HnN. }
  assert (Hns : 1 ≤ num_samples).
  { unfold num_samples. apply Z.div_le_lower_bound; lia. }
  assert (Hns10 : num_samples * 10 ≤ n).
  { unfold num_samples. pose proof (Z.mul_div_le n 10). lia. }
  (* the observed statistic *)
  destruct (test_statistic_run (Array2 dist_X) (Array2 dist_Y) w)
    as (l0 & sc0 & Hobs).
  { rewrite HsX, HsY. reflexivity. }
  { rewrite HsX. exact HM. }
  { left. rewrite HsX. lia. }
  cbn zeta in Hobs.
  match type of Hobs with _ = (Ok (?s, ?md), ?ww) =>
    set (observed := s) in *; set (md0 := md) in *; set (w0 := ww) in * end.
  assert (Hcfg0 : configured f lag e w0) by exact Hcfg.
  (* the permutation *)
  destruct (permuted_indices_run n w0 ltac:(lia))
    as (idx & w1 & Hperm & Hilen & Hirange & Hself1 & Hheap1).
  assert (Hirange' : Forall (λ x, 0 ≤ x < Z.of_nat N) idx).
  { eapply Forall_impl; [exact Hirange|]. intros x Hx. cbn in Hx. lia. }
  destruct (ix_select_shape N dist_Y idx idx HY Hirange' Hirange')
    as (PY & HPY & HPYlen & HPYrows).
  assert (HPYsq : is_square N PY).
  { split; [lia|]. eapply Forall_impl; [exact HPYrows|].
    intros r Hr. cbn in Hr. lia. }
  (* the loop *)
  set (a := length (heap w1)).
  set (arr0 := replicate (Z.to_nat (num_samples * 10)) 0%Q).
  set (w2 := with_heap (heap w1 ++ [arr0]) w1).
  assert (Hcfg2 : configured f lag e w2).
  { unfold configured, w2. cbn [self with_heap]. rewrite Hself1. exact Hcfg0. }
  assert (HM10' : 0 ≤ match lag with Some m => m | None => ceil_sqrt 10 end).
  { rewrite <- (lag_bound_configured f lag e w 10 Hcfg). exact HM10. }
  destruct (fast_loop_run f lag e dist_X PY N 10 num_samples a
              (arange 0 num_samples) arr0 w2 HX HPYsq ltac:(lia) ltac:(lia) HM10')
    as (w3 & Hloop & Hcfg3 & Harr).
  { unfold arange. apply Forall_seqZ. intros i Hi.
    unfold arr0. rewrite length_replicate. lia. }
  { exact Hcfg2. }
  { unfold w2, a. cbn [heap with_heap]. apply list_lookup_middle. reflexivity. }
  set (arr := fill (block_statistic f lag e dist_X PY 10) arr0
                (arange 0 num_samples)) in *.
  assert (Halen : length arr = Z.to_nat (num_samples * 10)).
  { unfold arr. rewrite length_fill. apply length_replicate. }
  assert (Hne : arr ≠ []).
  { intros E. rewrite E in Halen. cbn in Halen. lia. }
  pose proof (fast_tail a arr observed num_samples w3 Harr Hne Hsqrt) as Htail.
  cbn zeta in Htail.
  replace (Z.of_nat (length arr)) with (num_samples * 10) in Htail by lia.
  exists observed, md0, w0, idx, w1, PY, a, w3.
  split; [exact Hobs|]. split; [exact Hperm|]. split; [exact HPY|].
  cbn zeta. split; [exact Harr|].
  unfold p_value. cbn [default from_option id].
  apply Z.eqb_eq in Hshape. rewrite Hshape. cbn [assert].
  unfold bind at 1. cbn [ret]. unfold bind at 1. cbn [get_self].
  fold f. fold n. fold D. rewrite ED. cbv beta iota.
  erewrite bind_ok; [|exact Hobs]. cbv beta iota.
  unfold _fast_p_value. cbn [default from_option id].
  unfold bind at 1. unfold floor_divide. cbn [Z.eqb ret].
  rewrite HlX. fold num_samples.
  erewrite bind_ok; [|exact Hperm].
  unfold bind at 1. unfold ix_ at 1. rewrite HPY. cbn [ret].
  erewrite bind_ok; [|apply np_zeros_run; lia].
  fold a. fold arr0. fold w2.
  erewrite bind_ok; [|exact Hloop].
  exact Htail.
Qed.

(** C1: what the fast path does.  For [n >= 10] observations and
    [num_samples = n // 10], one statistic is computed per contiguous block
    of ten observations, but the array of null samples has
    [num_samples * 10] entries, not [num_samples]: the block statistics are
    its first [num_samples] entries and the others keep the 0 of [np.zeros].
    The p-value is the upper tail at the observed statistic of the Normal
    distribution whose mean is the mean of this whole array (a tenth of the
    sample mean of the block statistics) and whose scale is the deviation of
    this whole array over [sqrt(num_samples)]. *)
Theorem fast_null_set_is_zero_padded (matrix_X matrix_Y : ndarray)
    (replication_factor : option Z) (w : world) :
  let n := shape0 matrix_X in
  let num_samples := n / 10 in
  let f := compute_distance_matrix (self w) in
  let D := compute_distance (as_2d matrix_X) (as_2d matrix_Y) f in
  shape0 matrix_X = shape0 matrix_Y → 10 ≤ n →
  0 ≤ lag_bound (self w) n → 0 ≤ lag_bound (self w) 10 →
  distance_contract f →
  Qeq_bool (np_sqrt (inject_Z num_samples)) 0 = false →
  ∃ p metadata w' arr observed metadata0 w0 permuted_indices w1 permuted_Y,
    test_statistic (Array2 D.1) (Array2 D.2) w = (Ok (observed, metadata0), w0)
    ∧ block_permutation n (ceil_sqrt n) w0 = (Ok permuted_indices, w1)
    ∧ ix_select D.2 permuted_indices permuted_indices = Some permuted_Y
    ∧ p_value matrix_X matrix_Y replication_factor (Some true) w
      = (Ok (p, metadata), w')
    ∧ heap w' !! null_distribution metadata = Some arr
    ∧ Z.of_nat (length arr) = num_samples * 10
    ∧ arr = (block_statistic f (max_lag (self w)) (mgc (self w)) D.1 permuted_Y 10
               <$> arange 0 num_samples)
            ++ replicate (Z.to_nat (num_samples * 9)) 0%Q
    ∧ (let len := inject_Z (num_samples * 10) in
       let mu := (Qsum arr / len)%Q in
       let sigma := (np_sqrt (Qsum ((λ x, (x - mu) * (x - mu))%Q <$> arr) / len)
                     / np_sqrt (inject_Z num_samples))%Q in
       p = (1 - norm_cdf observed mu sigma)%Q)
    ∧ (Qsum arr / inject_Z (num_samples * 10) * 10
       == Qsum (take (Z.to_nat num_samples) arr) / inject_Z num_samples)
    ∧ p_value_ (self w') = Some p.
Proof.
  intros n num_samples f D Hshape Hn HM HM10 Hcontract Hsqrt.
  destruct (p_value_fast_run matrix_X matrix_Y replication_factor w
              Hshape Hn HM HM10 Hcontract Hsqrt)
    as (observed & md0 & w0 & idx & w1 & PY & a & w3
        & Hobs & Hperm & HPY & Harr & Hrun).
  fold n num_samples f D in Hobs, Hperm, HPY, Harr, Hrun.
  set (stat := block_statistic f (max_lag (self w)) (mgc (self w)) D.1 PY 10)
    in *.
  set (arr := fill stat (replicate (Z.to_nat (num_samples * 10)) 0%Q)
                (arange 0 num_samples)) in *.
  assert (Hns : 1 ≤ num_samples).
  { unfold num_samples. apply Z.div_le_lower_bound; lia. }
  assert (Hfill : arr = (stat <$> arange 0 num_samples)
                        ++ replicate (Z.to_nat (num_samples * 9)) 0%Q).
  { pose proof (fill_seqZ_tail stat (Z.to_nat num_samples) []
                  (replicate (Z.to_nat (num_samples * 9)) 0%Q)) as Hf.
    cbn [length app] in Hf. change (Z.of_nat 0) with 0 in Hf.
    rewrite Z2Nat.id, <- replicate_add in Hf by lia.
    replace (Z.to_nat num_samples + Z.to_nat (num_samples * 9))%nat
      with (Z.to_nat (num_samples * 10)) in Hf by lia.
    unfold arr, arange. rewrite Z.sub_0_r. exact Hf. }
  assert (Htake : take (Z.to_nat num_samples) arr = stat <$> arange 0 num_samples).
  { rewrite Hfill. apply take_app_length'.
    unfold arange. rewrite length_fmap, length_seqZ. lia. }
  eexists _, _, _, arr, observed, md0, w0, idx, w1, PY.
  split; [exact Hobs|]. split; [exact Hperm|]. split; [exact HPY|].
  split; [exact Hrun|].
  cbn [heap null_distribution self p_value_ with_self
       set_p_value_metadata_ set_p_value_].
  split; [exact Harr|].
  split; [unfold arr; rewrite length_fill, length_replicate; lia|].
  split; [exact Hfill|]. split; [reflexivity|]. split; [|reflexivity].
  assert (Hsum : Qsum arr == Qsum (take (Z.to_nat num_samples) arr)).
  { rewrite Htake. rewrite Hfill. apply Qsum_app_zeros. }
  rewrite Hsum, inject_Z_mult. field.
  intros E. unfold Qeq in E. cbn in E. lia.
Qed.

(** ** The reported lag *)

Lemma lag_body_state (matrix_X matrix_Y : matrix) (n j : Z)
    (h : list (list Q)) (arr : list Q) (st : Q * Z * scale) (w : world) :
  heap w = h ++ [arr] → 1 ≤ j < Z.of_nat (length arr) → n ≠ 0 →
  lag_body matrix_X matrix_Y n (length h) j st w =
    (Ok (best_step (lag_value (mgc (self w)) matrix_X matrix_Y n)
           (lag_scale (mgc (self w)) matrix_X matrix_Y n) st j),
     {| self := self w;
        heap := h ++ [<[Z.to_nat j := lag_value (mgc (self w)) matrix_X matrix_Y n j]> arr];
        rng := rng w;
        engine_log := engine_log w ++ [lag_matrices matrix_X matrix_Y n j] |}).
Proof.
  intros Hh Hj Hn. destruct st as [[max_dependence lag] sc].
  unfold lag_body, best_step.
  set (A := slice2 matrix_X j n j n).
  set (B := slice2 matrix_Y 0 (n - j) 0 (n - j)).
  unfold bind at 1. unfold mgc_test_statistic.
  destruct (MGC_test_statistic (mgc (self w)) A B) as [s sc'] eqn:E.
  erewrite bind_ok; [|apply true_divide_run, Qeq_bool_inject_Z_0, Hn].
  erewrite bind_ok; [|apply setitem_last with (arr := arr); [exact Hh|lia]].
  erewrite bind_ok;
    [|apply getitem_last with
        (arr := <[Z.to_nat j := (inject_Z (n - j) * Qmax 0 s / inject_Z n)%Q]> arr);
      [reflexivity|lia|apply list_lookup_insert_eq; lia]].
  assert (Hv : lag_value (mgc (self w)) matrix_X matrix_Y n j
               = (inject_Z (n - j) * Qmax 0 s / inject_Z n)%Q).
  { unfold lag_value, lag_matrices. fold A B. rewrite E. reflexivity. }
  assert (Hs : lag_scale (mgc (self w)) matrix_X matrix_Y n j = sc').
  { unfold lag_scale, lag_matrices. fold A B. rewrite E. reflexivity. }
  rewrite Hv, Hs.
  destruct (Qgtb _ max_dependence); reflexivity.
Qed.

Lemma lag_loop_state (matrix_X matrix_Y : matrix) (n : Z) (h : list (list Q))
    (js : list Z) (arr : list Q) (st : Q * Z * scale) (w : world) :
  heap w = h ++ [arr] →
  Forall (λ j, 1 ≤ j < Z.of_nat (length arr)) js →
  n ≠ 0 ∨ js = [] →
  for_each js (lag_body matrix_X matrix_Y n (length h)) st w =
    (Ok (foldl (best_step (lag_value (mgc (self w)) matrix_X matrix_Y n)
                  (lag_scale (mgc (self w)) matrix_X matrix_Y n)) st js),
     {| self := self w;
        heap := h ++ [fill (lag_value (mgc (self w)) matrix_X matrix_Y n) arr js];
        rng := rng w;
        engine_log := engine_log w ++ (lag_matrices matrix_X matrix_Y n <$> js) |}).
Proof.
  revert arr st w. induction js as [|j js IH]; intros arr st w Hh Hjs Hn.
  - cbn. rewrite app_nil_r, <- Hh. destruct w; reflexivity.
  - destruct Hn as [Hn|Hn]; [|discriminate].
    apply Forall_cons in Hjs as [Hj Hjs].
    cbn [for_each].
    erewrite bind_ok; [|apply lag_body_state; [exact Hh|exact Hj|exact Hn]].
    rewrite IH with (arr := <[Z.to_nat j := lag_value (mgc (self w)) matrix_X matrix_Y n j]> arr).
    + cbn [self heap rng engine_log foldl fill fmap list_fmap].
      rewrite <- app_assoc. reflexivity.
    + reflexivity.
    + rewrite length_insert. exact Hjs.
    + left. exact Hn.
Qed.

(** The metadata of a successful call carries the lag and the scale that
    [best_lag] gives. *)
Lemma test_statistic_state (matrix_X matrix_Y : ndarray) (w : world) :
  let n := shape0 matrix_X in
  let D := compute_distance (as_2d matrix_X) (as_2d matrix_Y)
             (compute_distance_matrix (self w)) in
  let M := lag_bound (self w) n in
  let arr := lag_values (mgc (self w)) D.1 D.2 n M in
  let best := best_lag (mgc (self w)) D.1 D.2 n M in
  let md := {| optimal_lag := best.1.2; optimal_scale := best.2;
               dependence_by_lag := length (heap w) |} in
  shape0 matrix_X = shape0 matrix_Y → 0 ≤ M → n ≠ 0 ∨ M = 0 →
  test_statistic matrix_X matrix_Y w =
    (Ok (Qsum arr, md),
     {| self := set_test_statistic_ (Qsum arr)
                  (set_test_statistic_metadata_ md (self w));
        heap := heap w ++ [arr];
        rng := rng w;
        engine_log := engine_log w
          ++ (D.1, D.2) :: (lag_matrices D.1 D.2 n <$> arange 1 (M + 1)) |}).
Proof.
  intros n D M arr best md Hshape HM Hn.
  unfold test_statistic.
  apply Z.eqb_eq in Hshape. rewrite Hshape. cbn [assert].
  unfold bind at 1. cbn [ret].
  unfold bind at 1. cbn [get_self].
  fold n. fold D. destruct D as [DX DY] eqn:ED. fold M.
  cbn [fst snd] in arr, best.
  erewrite bind_ok; [|apply np_zeros_run; lia].
  unfold bind at 1. unfold mgc_test_statistic at 1.
  cbn [self with_heap].
  destruct (MGC_test_statistic (mgc (self w)) DX DY) as [s0 sc0] eqn:E0.
  set (v0 := Qmax 0 s0).
  assert (Hzeros : replicate (Z.to_nat (M + 1)) 0%Q = 0%Q :: replicate (Z.to_nat M) 0%Q).
  { replace (Z.to_nat (M + 1)) with (S (Z.to_nat M)) by lia. reflexivity. }
  erewrite bind_ok;
    [|apply setitem_last with (arr := replicate (Z.to_nat (M + 1)) 0%Q);
      [reflexivity|rewrite length_replicate; lia]].
  rewrite Hzeros. cbn [Z.to_nat insert list_insert].
  erewrite bind_ok;
    [|apply getitem_last with (arr := v0 :: replicate (Z.to_nat M) 0%Q);
      [reflexivity|lia|reflexivity]].
  erewrite bind_ok;
    [|apply lag_loop_state with (arr := v0 :: replicate (Z.to_nat M) 0%Q);
      [reflexivity| |]].
  - cbn [self heap rng engine_log with_self with_heap with_log].
    assert (Hbest : foldl (best_step (lag_value (mgc (self w)) DX DY n)
                             (lag_scale (mgc (self w)) DX DY n))
                      (v0, 0, sc0) (arange 1 (M + 1)) = best).
    { unfold best, best_lag. rewrite E0. reflexivity. }
    rewrite Hbest. destruct best as [[mx lag] sc] eqn:Eb. cbv beta iota.
    unfold bind at 1. cbn [modify_self].
    unfold arange. replace (M + 1 - 1) with (Z.of_nat (Z.to_nat M)) by lia.
    pose proof (fill_seqZ (lag_value (mgc (self w)) DX DY n) (Z.to_nat M) [v0]) as Hfill.
    cbn [length app] in Hfill. change (Z.of_nat 1) with 1 in Hfill.
    cbn [self heap rng engine_log with_self with_heap with_log].
    rewrite Hfill.
    erewrite bind_ok; [|apply read_array_last; reflexivity].
    unfold bind at 1. cbn [modify_self ret].
    cbn [self heap rng engine_log with_self with_heap with_log].
    assert (Harr : arr = v0 :: (lag_value (mgc (self w)) DX DY n
                                 <$> seqZ 1 (Z.of_nat (Z.to_nat M)))).
    { unfold arr, lag_values, arange. rewrite E0.
      replace (M + 1 - 1) with (Z.of_nat (Z.to_nat M)) by lia. reflexivity. }
    rewrite Harr. rewrite <- app_assoc. reflexivity.
  - cbn [length]. rewrite length_replicate.
    unfold arange. apply Forall_seqZ. intros j Hj. lia.
  - destruct Hn as [Hn|Hn]; [left; exact Hn|right].
    unfold arange. apply seqZ_nil. lia.
Qed.
(** The running best over the lags [1..k], started at lag 0: it is an
    entry of largest value, and the first of them. *)
Lemma best_fold (value : Z → Q) (scale_at : Z → scale) (m0 : Q) (s0 : scale)
    (k : nat) :
  let v := λ j, if j =? 0 then m0 else value j in
  let sc := λ j, if j =? 0 then s0 else scale_at j in
  let best := foldl (best_step value scale_at) (m0, 0, s0) (seqZ 1 (Z.of_nat k)) in
  0 ≤ best.1.2 ≤ Z.of_nat k
  ∧ best.1.1 = v best.1.2
  ∧ best.2 = sc best.1.2
  ∧ (∀ j, 0 ≤ j ≤ Z.of_nat k → (v j <= best.1.1)%Q)
  ∧ (∀ j, 0 ≤ j < best.1.2 → (v j < best.1.1)%Q).
Proof.
  intros v sc. induction k as [|k IH].
  - intros best. unfold best. rewrite seqZ_nil by lia. cbn [foldl fst snd].
    split; [lia|]. split; [reflexivity|]. split; [reflexivity|]. split.
    + intros j Hj. assert (j = 0) as -> by lia. apply Qle_refl.
    + intros j Hj. lia.
  - intros best. unfold best. rewrite seqZ_S, foldl_app. cbn [foldl].
    cbn zeta in IH.
    destruct (foldl (best_step value scale_at) (m0, 0, s0) (seqZ 1 (Z.of_nat k)))
      as [[mx lag] s].
    cbn [fst snd] in IH. destruct IH as (Hr & Hv & Hs & Hle & Hlt).
    remember (1 + Z.of_nat k) as j1 eqn:Hj1.
    assert (Hnew : v j1 = value j1).
    { unfold v. destruct (Z.eqb_spec j1 0); [lia|reflexivity]. }
    unfold best_step.
    destruct (Qgtb (value j1) mx) eqn:E; cbn [fst snd].
    + assert (Hgt : (mx < value j1)%Q).
      { apply Qnot_le_lt. intros Hc. apply Qle_bool_iff in Hc.
        unfold Qgtb in E. rewrite Hc in E. discriminate. }
      split; [lia|]. split; [symmetry; exact Hnew|].
      split; [unfold sc; destruct (Z.eqb_spec j1 0); [lia|reflexivity]|].
      split.
      * intros j Hj. destruct (Z.eq_dec j j1) as [->|Hne].
        -- rewrite Hnew. apply Qle_refl.
        -- eapply Qle_trans; [apply Hle; lia|]. apply Qlt_le_weak, Hgt.
      * intros j Hj. eapply Qle_lt_trans; [apply Hle; lia|exact Hgt].
    + assert (Hle' : (value j1 <= mx)%Q).
      { apply Qle_bool_iff. unfold Qgtb in E.
        destruct (Qle_bool (value j1) mx); [reflexivity|discriminate]. }
      split; [lia|]. split; [exact Hv|]. split; [exact Hs|]. split.
      * intros j Hj. destruct (Z.eq_dec j j1) as [->|Hne].
        -- rewrite Hnew. exact Hle'.
        -- apply Hle. lia.
      * exact Hlt.
Qed.

Lemma entry_lag_values (e : MGC) (matrix_X matrix_Y : matrix) (n M j : Z) :
  0 ≤ j ≤ M →
  entry (lag_values e matrix_X matrix_Y n M) j
  = if j =? 0 then Qmax 0 (MGC_test_statistic e matrix_X matrix_Y).1
    else lag_value e matrix_X matrix_Y n j.
Proof.
  intros Hj. unfold entry.
  rewrite item_inside by (rewrite length_lag_values; lia).
  destruct (Z.eqb_spec j 0) as [->|Hj0]; [reflexivity|].
  rewrite lookup_lag_values by lia. reflexivity.
Qed.

(** X1: the lag reported in the metadata of [test_statistic] lies in
    [0..M] and names a largest entry of [dependence_by_lag]; the comparison
    in the loop is strict, so among equal entries the smallest lag is
    reported; [optimal_scale] is the scale the engine gave at that lag. *)
Theorem optimal_lag_is_earliest_maximum (matrix_X matrix_Y : ndarray) (w : world) :
  let n := shape0 matrix_X in
  let D := compute_distance (as_2d matrix_X) (as_2d matrix_Y)
             (compute_distance_matrix (self w)) in
  let M := lag_bound (self w) n in
  shape0 matrix_X = shape0 matrix_Y → 0 ≤ M → n ≠ 0 ∨ M = 0 →
  ∃ statistic metadata w' arr,
    test_statistic matrix_X matrix_Y w = (Ok (statistic, metadata), w')
    ∧ heap w' !! dependence_by_lag metadata = Some arr
    ∧ 0 ≤ optimal_lag metadata ≤ M
    ∧ (∀ j, 0 ≤ j ≤ M →
         (entry arr j <= entry arr (optimal_lag metadata))%Q)
    ∧ (∀ j, 0 ≤ j < optimal_lag metadata →
         (entry arr j < entry arr (optimal_lag metadata))%Q)
    ∧ optimal_scale metadata
      = (if optimal_lag metadata =? 0
         then (MGC_test_statistic (mgc (self w)) D.1 D.2).2
         else lag_scale (mgc (self w)) D.1 D.2 n (optimal_lag metadata)).
Proof.
  intros n D M Hshape HM Hn.
  pose proof (test_statistic_state matrix_X matrix_Y w Hshape HM Hn) as Hrun.
  cbn zeta in Hrun. fold n D M in Hrun.
  set (e := mgc (self w)) in *.
  set (arr := lag_values e D.1 D.2 n M) in *.
  pose proof (best_fold (lag_value e D.1 D.2 n) (lag_scale e D.1 D.2 n)
                (Qmax 0 (MGC_test_statistic e D.1 D.2).1)
                (MGC_test_statistic e D.1 D.2).2 (Z.to_nat M)) as Hbest.
  cbn zeta in Hbest. rewrite Z2Nat.id in Hbest by exact HM.
  assert (Hfold : foldl (best_step (lag_value e D.1 D.2 n) (lag_scale e D.1 D.2 n))
                    (Qmax 0 (MGC_test_statistic e D.1 D.2).1, 0,
                     (MGC_test_statistic e D.1 D.2).2) (seqZ 1 M)
                  = best_lag e D.1 D.2 n M).
  { unfold best_lag, arange.
    destruct (MGC_test_statistic e D.1 D.2) as [s0 sc0]. cbn [fst snd].
    replace (M + 1 - 1) with M by lia. reflexivity. }
  rewrite Hfold in Hbest.
  set (best := best_lag e D.1 D.2 n M) in *.
  destruct Hbest as (Hr & Hv & Hs & Hle & Hlt).
  eexists _, _, _, arr. split; [exact Hrun|].
  cbn [heap dependence_by_lag optimal_lag optimal_scale].
  split; [apply list_lookup_middle; reflexivity|].
  split; [exact Hr|].
  split; [|split].
  - intros j Hj. unfold arr. rewrite !entry_lag_values by lia.
    rewrite <- Hv. apply Hle. exact Hj.
  - intros j Hj. unfold arr. rewrite !entry_lag_values by lia.
    rewrite <- Hv. apply Hlt. exact Hj.
  - exact Hs.
Qed.
(** ** A negative lag bound *)

(** X2: [max_lag] is not validated.  With a lag bound [M < -1] the
    allocation [np.zeros(M + 1)] raises [ValueError] before the engine is
    called, and nothing has changed; with [M = -1] the array is empty, the
    engine is called once on the full distance matrices, and the write to
    [dependence_by_lag[0]] raises [IndexError]. *)
Theorem negative_max_lag_fails (matrix_X matrix_Y : ndarray) (w : world) :
  let n := shape0 matrix_X in
  let D := compute_distance (as_2d matrix_X) (as_2d matrix_Y)
             (compute_distance_matrix (self w)) in
  let M := lag_bound (self w) n in
  shape0 matrix_X = shape0 matrix_Y →
  (M < -1 → test_statistic matrix_X matrix_Y w = (Raise ValueError, w))
  ∧ (M = -1 →
     test_statistic matrix_X matrix_Y w
     = (Raise IndexError,
        {| self := self w; heap := heap w ++ [[]]; rng := rng w;
           engine_log := engine_log w ++ [(D.1, D.2)] |})).
Proof.
  intros n D M Hshape.
  apply Z.eqb_eq in Hshape.
  split; intros HM; unfold test_statistic; rewrite Hshape; cbn [assert];
    unfold bind at 1; cbn [ret]; unfold bind at 1; cbn [get_self];
    fold n; fold D; destruct D as [DX DY]; fold M.
  - unfold bind at 1. unfold np_zeros.
    destruct (Z.ltb_spec (M + 1) 0); [reflexivity|lia].
  - rewrite HM. change (-1 + 1) with 0.
    erewrite bind_ok; [|apply np_zeros_run; lia].
    unfold bind at 1. unfold mgc_test_statistic at 1. cbn [self with_heap].
    destruct (MGC_test_statistic (mgc (self w)) DX DY) as [s0 sc0].
    unfold bind at 1. unfold setitem, bind, read_array.
    cbn [heap with_heap with_log Z.to_nat replicate].
    rewrite list_lookup_middle by reflexivity. reflexivity.
Qed.

(** ** Signs *)

Lemma Qsum_nonneg (l : list Q) : Forall (λ x, (0 <= x)%Q) l → (0 <= Qsum l)%Q.
Proof.
  induction 1 as [|x l Hx _ IH]; cbn.
  - apply Qle_refl.
  - replace 0%Q with (0 + 0)%Q by reflexivity. apply Qplus_le_compat; assumption.
Qed.

Lemma Qsum_app (l l' : list Q) : Qsum (l ++ l') == Qsum l + Qsum l'.
Proof.
  induction l as [|x l IH].
  - change (Qsum l' == 0 + Qsum l'). ring.
  - change (x + Qsum (l ++ l') == (x + Qsum l) + Qsum l'). rewrite IH. ring.
Qed.

Lemma lag_value_sign (e : MGC) (matrix_X matrix_Y : matrix) (n j : Z) :
  0 < n →
  (j ≤ n → (0 <= lag_value e matrix_X matrix_Y n j)%Q)
  ∧ (n ≤ j → (lag_value e matrix_X matrix_Y n j <= 0)%Q).
Proof.
  intros Hn. unfold lag_value.
  destruct (lag_matrices matrix_X matrix_Y n j) as [A B].
  set (s := Qmax 0 (MGC_test_statistic e A B).1).
  assert (Hs : (0 <= s)%Q) by apply Q.le_max_l.
  assert (Hinv : (0 <= / inject_Z n)%Q).
  { apply Qinv_le_0_compat. unfold Qle. cbn. lia. }
  split; intros Hj; unfold Qdiv.
  - apply Qmult_le_0_compat; [|exact Hinv].
    apply Qmult_le_0_compat; [|exact Hs]. unfold Qle. cbn. lia.
  - assert (Heq : (inject_Z (n - j) * s * / inject_Z n
                  == - (inject_Z (j - n) * s * / inject_Z n))%Q).
    { unfold Zminus. rewrite !inject_Z_plus, !inject_Z_opp. ring. }
    rewrite Heq. change 0%Q with (- 0)%Q. apply Qopp_le_compat.
    apply Qmult_le_0_compat; [|exact Hinv].
    apply Qmult_le_0_compat; [|exact Hs]. unfold Qle. cbn. lia.
Qed.

(** X3: signs of the entries.  An entry of [dependence_by_lag] at a lag
    that does not exceed the number [n] of observations is non-negative,
    so that the statistic is non-negative when [M <= n]; an entry at a lag
    [j >= 1] beyond [n] is non-positive, since its factor [(n - j) / n]
    is. *)
Theorem dependence_by_lag_signs (matrix_X matrix_Y : ndarray) (w : world) :
  let n := shape0 matrix_X in
  let M := lag_bound (self w) n in
  shape0 matrix_X = shape0 matrix_Y → 0 ≤ M → n ≠ 0 ∨ M = 0 →
  ∃ statistic metadata w' arr,
    test_statistic matrix_X matrix_Y w = (Ok (statistic, metadata), w')
    ∧ heap w' !! dependence_by_lag metadata = Some arr
    ∧ (∀ j, 0 ≤ j ≤ M → j ≤ n → (0 <= entry arr j)%Q)
    ∧ (∀ j, 1 ≤ j ≤ M → n ≤ j → (entry arr j <= 0)%Q)
    ∧ (M ≤ n → (0 <= statistic)%Q).
Proof.
  intros n M Hshape HM Hn.
  pose proof (test_statistic_state matrix_X matrix_Y w Hshape HM Hn) as Hrun.
  cbn zeta in Hrun. fold n M in Hrun.
  set (D := compute_distance _ _ _) in Hrun.
  set (e := mgc (self w)) in *.
  set (arr := lag_values e D.1 D.2 n M) in *.
  pose proof (shape0_nonneg matrix_X) as Hn0. fold n in Hn0.
  assert (Hpos : ∀ j, 0 ≤ j ≤ M → j ≤ n → (0 <= entry arr j)%Q).
  { intros j Hj Hjn. unfold arr. rewrite entry_lag_values by lia.
    destruct (Z.eqb_spec j 0); [apply Q.le_max_l|].
    apply lag_value_sign; lia. }
  eexists _, _, _, arr. split; [exact Hrun|].
  cbn [heap dependence_by_lag].
  split; [apply list_lookup_middle; reflexivity|].
  split; [exact Hpos|]. split.
  - intros j Hj Hjn. unfold arr. rewrite entry_lag_values by lia.
    destruct (Z.eqb_spec j 0); [lia|].
    apply lag_value_sign; lia.
  - intros HMn. apply Qsum_nonneg, Forall_lookup_2. intros i x Hi.
    pose proof (lookup_lt_Some _ _ _ Hi) as Hlt.
    pose proof (length_lag_values e D.1 D.2 n M HM) as Hlen. fold arr in Hlen.
    specialize (Hpos (Z.of_nat i) ltac:(lia) ltac:(lia)).
    unfold entry in Hpos. rewrite item_inside, Nat2Z.id, Hi in Hpos by lia.
    exact Hpos.
Qed.

(** ** The calls to the engine *)

Lemma is_square_drop_first (n j : nat) (m : matrix) :
  is_square n m → is_square (n - j) (drop_first j m).
Proof.
  intros [Hlen Hrows]. unfold drop_first. split.
  - rewrite length_fmap, length_drop. lia.
  - apply Forall_fmap, Forall_drop. eapply Forall_impl; [exact Hrows|].
    intros row Hrow. cbn in Hrow. cbn. rewrite length_drop. lia.
Qed.

Lemma is_square_drop_last (n j : nat) (m : matrix) :
  is_square n m → is_square (n - j) (drop_last j m).
Proof.
  intros [Hlen Hrows]. unfold drop_last. split.
  - rewrite length_fmap, length_take. lia.
  - apply Forall_fmap, Forall_take. eapply Forall_impl; [exact Hrows|].
    intros row Hrow. cbn in Hrow. cbn. rewrite length_take. lia.
Qed.

Lemma drop_first_0 (m : matrix) : drop_first 0 m = m.
Proof.
  unfold drop_first. rewrite drop_0.
  induction m as [|row m IH]; [reflexivity|]. cbn. rewrite IH. reflexivity.
Qed.

Lemma drop_last_0 (m : matrix) : drop_last 0 m = m.
Proof.
  unfold drop_last. rewrite Nat.sub_0_r, take_ge by lia.
  induction m as [|row m IH]; [reflexivity|].
  cbn [fmap list_fmap]. rewrite Nat.sub_0_r, take_ge by lia.
  f_equal. exact IH.
Qed.

(** X4: one call of [test_statistic] makes exactly [M + 1] calls to the
    engine, in the order of the lags; for a lag [j <= n] the call compares
    [X]'s distance matrix without its first [j] rows and columns with [Y]'s
    without its last [j], two square matrices of [n - j] rows. *)
Theorem engine_calls_by_lag (matrix_X matrix_Y : ndarray) (w : world) :
  let n := shape0 matrix_X in
  let D := compute_distance (as_2d matrix_X) (as_2d matrix_Y)
             (compute_distance_matrix (self w)) in
  let M := lag_bound (self w) n in
  shape0 matrix_X = shape0 matrix_Y →
  is_square (Z.to_nat n) D.1 → is_square (Z.to_nat n) D.2 →
  0 ≤ M → n ≠ 0 ∨ M = 0 →
  ∃ r w' calls,
    test_statistic matrix_X matrix_Y w = (Ok r, w')
    ∧ engine_log w' = engine_log w ++ calls
    ∧ Z.of_nat (length calls) = M + 1
    ∧ ∀ j, 0 ≤ j ≤ M → j ≤ n →
        ∃ A B, calls !! Z.to_nat j = Some (A, B)
               ∧ A = drop_first (Z.to_nat j) D.1
               ∧ B = drop_last (Z.to_nat j) D.2
               ∧ is_square (Z.to_nat (n - j)) A
               ∧ is_square (Z.to_nat (n - j)) B.
Proof.
  intros n D M Hshape HX HY HM Hn.
  pose proof (test_statistic_state matrix_X matrix_Y w Hshape HM Hn) as Hrun.
  cbn zeta in Hrun. fold n D M in Hrun.
  pose proof (shape0_nonneg matrix_X) as Hn0. fold n in Hn0.
  eexists _, _, _. split; [exact Hrun|].
  cbn [engine_log]. split; [reflexivity|].
  split.
  { cbn [length]. rewrite length_fmap. unfold arange. rewrite length_seqZ. lia. }
  intros j Hj Hjn.
  assert (Hsq : is_square (Z.to_nat (n - j)) (drop_first (Z.to_nat j) D.1)
                ∧ is_square (Z.to_nat (n - j)) (drop_last (Z.to_nat j) D.2)).
  { replace (Z.to_nat (n - j)) with (Z.to_nat n - Z.to_nat j)%nat by lia.
    split; [apply is_square_drop_first|apply is_square_drop_last]; assumption. }
  exists (drop_first (Z.to_nat j) D.1), (drop_last (Z.to_nat j) D.2).
  split; [|split; [reflexivity|split; [reflexivity|exact Hsq]]].
  destruct (Z.eq_dec j 0) as [->|Hj0].
  - cbn [Z.to_nat lookup list_lookup].
    rewrite drop_first_0, drop_last_0. reflexivity.
  - replace (Z.to_nat j) with (S (Z.to_nat (j - 1))) at 1 by lia.
    rewrite lookup_cons_ne_0 by lia. cbn [Nat.pred].
    rewrite list_lookup_fmap. unfold arange.
    rewrite lookup_seqZ_lt by lia. cbn [fmap option_fmap option_map].
    replace (1 + Z.of_nat (Z.to_nat (j - 1))) with j by lia.
    unfold lag_matrices. f_equal. f_equal.
    + rewrite <- (Z2Nat.id n) at 1 2 by lia.
      apply slice2_drop_first; [exact HX|lia].
    + rewrite <- (Z2Nat.id n) at 1 2 by lia.
      apply slice2_drop_last; [exact HY|lia].
Qed.
(** ** Repeated calls *)

(** X5: [test_statistic] keeps no result between calls.  A second call on
    the same inputs returns the same statistic, lag and scale, and writes
    them to an array of its own: the array reported by the first call is
    still in the store, with the content it had. *)
Theorem test_statistic_twice (matrix_X matrix_Y : ndarray) (w : world) :
  let n := shape0 matrix_X in
  let M := lag_bound (self w) n in
  shape0 matrix_X = shape0 matrix_Y → 0 ≤ M → n ≠ 0 ∨ M = 0 →
  ∃ statistic md1 w1 md2 w2 arr,
    test_statistic matrix_X matrix_Y w = (Ok (statistic, md1), w1)
    ∧ test_statistic matrix_X matrix_Y w1 = (Ok (statistic, md2), w2)
    ∧ optimal_lag md2 = optimal_lag md1
    ∧ optimal_scale md2 = optimal_scale md1
    ∧ dependence_by_lag md2 = S (dependence_by_lag md1)
    ∧ heap w1 !! dependence_by_lag md1 = Some arr
    ∧ heap w2 !! dependence_by_lag md1 = Some arr
    ∧ heap w2 !! dependence_by_lag md2 = Some arr.
Proof.
  intros n M Hshape HM Hn.
  pose proof (test_statistic_state matrix_X matrix_Y w Hshape HM Hn) as H1.
  cbn zeta in H1. fold n M in H1.
  match type of H1 with _ = (Ok (_, ?md), ?ww) =>
    set (md1 := md) in *; set (w1 := ww) in * end.
  pose proof (test_statistic_state matrix_X matrix_Y w1 Hshape HM Hn) as H2.
  cbn zeta in H2. fold n in H2.
  eexists _, md1, w1, _, _, _. split; [exact H1|]. split; [exact H2|].
  cbn [optimal_lag optimal_scale dependence_by_lag heap w1 md1].
  split; [reflexivity|]. split; [reflexivity|].
  split; [rewrite length_app; cbn; lia|].
  split; [apply list_lookup_middle; reflexivity|].
  split.
  - rewrite lookup_app_l by (rewrite length_app; cbn; lia).
    apply list_lookup_middle. reflexivity.
  - apply list_lookup_middle. reflexivity.
Qed.

(** ** The object of the default constructor *)

(** X6: an object built without [max_lag] searches no lag.  Its statistic
    is the engine's statistic of the two full distance matrices, clamped at
    0; the engine is called once, and the reported lag is 0 with the scale
    of that call. *)
Theorem default_object_statistic (cdm : option (option distance_fn))
    (matrix_X matrix_Y : ndarray) (w : world) :
  let D := compute_distance (as_2d matrix_X) (as_2d matrix_Y)
             (compute_distance_matrix (self w)) in
  let s0 := MGC_test_statistic MGC_new D.1 D.2 in
  self w = MGCX_init cdm None →
  shape0 matrix_X = shape0 matrix_Y →
  ∃ statistic metadata w',
    test_statistic matrix_X matrix_Y w = (Ok (statistic, metadata), w')
    ∧ statistic == Qmax 0 s0.1
    ∧ optimal_lag metadata = 0
    ∧ optimal_scale metadata = s0.2
    ∧ heap w' !! dependence_by_lag metadata = Some [Qmax 0 s0.1]
    ∧ engine_log w' = engine_log w ++ [(D.1, D.2)].
Proof.
  intros D s0 Hself Hshape.
  assert (HM : lag_bound (self w) (shape0 matrix_X) = 0).
  { rewrite Hself. reflexivity. }
  assert (He : mgc (self w) = MGC_new).
  { rewrite Hself. reflexivity. }
  pose proof (test_statistic_state matrix_X matrix_Y w Hshape) as Hrun.
  cbn zeta in Hrun. rewrite HM, He in Hrun. fold D in Hrun.
  specialize (Hrun ltac:(lia) ltac:(right; reflexivity)).
  eexists _, _, _. split; [exact Hrun|].
  unfold best_lag, lag_values. fold s0. destruct s0 as [s sc].
  change (arange 1 (0 + 1)) with (@nil Z).
  cbn [fmap list_fmap foldl fst snd
       optimal_lag optimal_scale dependence_by_lag heap engine_log Qsum foldr].
  split; [ring|]. split; [reflexivity|]. split; [reflexivity|].
  split; [apply list_lookup_middle; reflexivity|reflexivity].
Qed.

(** ** Inputs without observations *)

Lemma is_square_0 (m : matrix) : is_square 0 m → m = [].
Proof. intros [Hlen _]. destruct m; [reflexivity|discriminate]. Qed.

(** X7: a p-value of two empty series.  With no observation the block
    size [ceil(sqrt(0))] is 0, and after the observed statistic has been
    computed the line [n // block_size] raises [ZeroDivisionError], in the
    fast path and in the first repetition of the exact path; no random
    number has been drawn and no p-value has been stored. *)
Theorem p_value_of_empty_series (matrix_X matrix_Y : ndarray)
    (replication_factor : option Z) (is_fast : option bool) (w : world) :
  shape0 matrix_X = 0 → shape0 matrix_Y = 0 →
  lag_bound (self w) 0 = 0 →
  distance_contract (compute_distance_matrix (self w)) →
  default false is_fast = true ∨ 1 ≤ default 1000 replication_factor →
  ∃ w',
    p_value matrix_X matrix_Y replication_factor is_fast w
    = (Raise ZeroDivisionError, w')
    ∧ rng w' = rng w
    ∧ p_value_ (self w') = p_value_ (self w)
    ∧ Z.of_nat (length (engine_log w')) = Z.of_nat (length (engine_log w)) + 1.
Proof.
  intros HnX HnY HM Hcontract Hpath.
  set (f := compute_distance_matrix (self w)) in *.
  destruct (Hcontract (as_2d matrix_X) (as_2d matrix_Y)) as [HX HY].
  rewrite <- (Nat2Z.id (length (as_2d matrix_X))), <- shape0_as_2d, HnX in HX.
  rewrite <- (Nat2Z.id (length (as_2d matrix_Y))), <- shape0_as_2d, HnY in HY.
  apply is_square_0 in HX, HY.
  pose proof (test_statistic_state (Array2 []) (Array2 []) w) as Hobs.
  cbn zeta in Hobs. change (shape0 (Array2 [])) with 0 in Hobs.
  rewrite HM in Hobs.
  specialize (Hobs eq_refl ltac:(lia) ltac:(right; reflexivity)).
  match type of Hobs with _ = (Ok (?s, ?md), ?ww) =>
    set (observed := s) in *; set (md0 := md) in *; set (w0 := ww) in * end.
  exists w0. split.
  - unfold p_value. rewrite HnX, HnY. cbn [Z.eqb assert].
    unfold bind at 1. cbn [ret]. unfold bind at 1. cbn [get_self].
    fold f. destruct (compute_distance _ _ f) as [DX DY].
    cbn [fst snd] in HX, HY. subst DX DY.
    erewrite bind_ok; [|exact Hobs]. cbv beta iota.
    change (ceil_sqrt 0) with 0.
    destruct Hpath as [Hfast|Hrf].
    + rewrite Hfast. reflexivity.
    + destruct (default false is_fast); [reflexivity|].
      unfold arange. rewrite seqZ_cons by lia. reflexivity.
  - cbn [w0 rng self p_value_ set_test_statistic_ set_test_statistic_metadata_
         engine_log].
    split; [reflexivity|]. split; [reflexivity|].
    change (arange 1 (0 + 1)) with (@nil Z).
    rewrite length_app. cbn [fmap list_fmap length]. lia.
Qed.

(** ** A negative number of replications *)

(** X8: [replication_factor] is not validated.  With a negative value the
    exact path runs no repetition: the null distribution is empty, no
    random number is drawn, the count 0 over [replication_factor] is zero,
    and the value returned as p-value is [1 / replication_factor], a
    negative number. *)
Theorem p_value_negative_replications (matrix_X matrix_Y : ndarray)
    (rf : Z) (is_fast : option bool) (w : world) :
  let n := shape0 matrix_X in
  let M := lag_bound (self w) n in
  shape0 matrix_X = shape0 matrix_Y → 0 ≤ M → n ≠ 0 ∨ M = 0 →
  distance_contract (compute_distance_matrix (self w)) →
  default false is_fast = false → rf < 0 →
  ∃ p metadata w',
    p_value matrix_X matrix_Y (Some rf) is_fast w = (Ok (p, metadata), w')
    ∧ p = (1 / inject_Z rf)%Q
    ∧ (p < 0)%Q
    ∧ heap w' !! null_distribution metadata = Some []
    ∧ rng w' = rng w
    ∧ p_value_ (self w') = Some p.
Proof.
  intros n M Hshape HM Hn Hcontract Hfast Hrf.
  set (f := compute_distance_matrix (self w)) in *.
  destruct (Hcontract (as_2d matrix_X) (as_2d matrix_Y)) as [HX HY].
  pose proof (shape0_as_2d matrix_X) as HlX. fold n in HlX.
  pose proof (shape0_as_2d matrix_Y) as HlY. rewrite <- Hshape in HlY. fold n in HlY.
  set (D := compute_distance (as_2d matrix_X) (as_2d matrix_Y) f) in *.
  destruct D as [DX DY] eqn:ED. cbn [fst snd] in *.
  assert (HsX : shape0 (Array2 DX) = n).
  { cbn. destruct HX as [-> _]. symmetry. exact HlX. }
  assert (HsY : shape0 (Array2 DY) = n).
  { cbn. destruct HY as [-> _]. symmetry. exact HlY. }
  pose proof (test_statistic_state (Array2 DX) (Array2 DY) w) as Hobs.
  cbn zeta in Hobs. rewrite HsX in Hobs. fold M in Hobs.
  specialize (Hobs ltac:(rewrite HsY; reflexivity) HM Hn).
  match type of Hobs with _ = (Ok (?s, ?md), ?ww) =>
    set (observed := s) in *; set (md0 := md) in *; set (w0 := ww) in * end.
  assert (Hneg : (1 / inject_Z rf < 0)%Q).
  { destruct rf as [|r|r]; try lia. unfold Qlt. cbn. lia. }
  eexists _, _, _. split.
  - unfold p_value. cbn [default from_option id]. rewrite Hfast.
    apply Z.eqb_eq in Hshape. rewrite Hshape. cbn [assert].
    unfold bind at 1. cbn [ret]. unfold bind at 1. cbn [get_self].
    fold f. fold n. fold D. rewrite ED. cbv beta iota.
    erewrite bind_ok; [|exact Hobs]. cbv beta iota.
    unfold arange. rewrite seqZ_nil by lia. cbn [map_each].
    unfold bind at 1. cbn [ret].
    unfold bind at 1. cbn [new_list].
    change (count_greater [] observed) with 0.
    erewrite bind_ok; [|apply true_divide_run, Qeq_bool_inject_Z_0; lia].
    unfold bind at 1. cbn [modify_self].
    assert (Hzero : Qeq_bool (inject_Z 0 / inject_Z rf) 0 = true).
    { apply Qeq_bool_iff. unfold Qdiv. ring. }
    rewrite Hzero.
    unfold bind, int_true_divide.
    destruct (Z.eqb_spec rf 0); [lia|]. reflexivity.
  - cbn [heap null_distribution self p_value_ with_self with_heap
         set_p_value_metadata_ set_p_value_ rng w0].
    split; [reflexivity|]. split; [exact Hneg|].
    split; [apply list_lookup_middle; reflexivity|].
    split; reflexivity.
Qed.
(** ** Runs of the block permutation *)

Lemma succ_in_block (i b : nat) :
  (0 < b)%nat → (S i mod b ≠ 0)%nat →
  (S i / b = i / b)%nat ∧ (S i mod b = S (i mod b))%nat.
Proof.
  intros Hb Hne.
  pose proof (Nat.div_mod_eq i b) as Hi.
  pose proof (Nat.mod_upper_bound i b ltac:(lia)) as Hr.
  destruct (Nat.eq_dec (S (i mod b)) b) as [E|E].
  - exfalso. apply Hne.
    replace (S i) with (0 + (S (i / b)) * b)%nat by lia.
    rewrite Nat.Div0.mod_add. apply Nat.Div0.mod_0_l.
  - assert (Hlt : (S (i mod b) < b)%nat) by lia.
    assert (Heq : S i = (b * (i / b) + S (i mod b))%nat) by lia.
    split.
    + symmetry. eapply Nat.div_unique; [exact Hlt|exact Heq].
    + symmetry. eapply Nat.mod_unique; [exact Hlt|exact Heq].
Qed.

(** X9: the permutation moves whole blocks.  Two neighbouring positions
    [i] and [i + 1] of [permuted_indices] that lie in the same block (that
    is, [i + 1] is not a multiple of [block_size]) hold neighbouring
    observations: the second index is the first plus one, modulo [n]. *)
Theorem blocks_keep_runs (n : Z) (w : world) :
  1 ≤ n →
  let block_size := ceil_sqrt n in
  ∃ permuted_indices w',
    block_permutation n block_size w = (Ok permuted_indices, w')
    ∧ ∀ i : nat, Z.of_nat (S i) < n → (S i mod Z.to_nat block_size ≠ 0)%nat →
        ∃ x, permuted_indices !! i = Some x
             ∧ permuted_indices !! S i = Some ((x + 1) `mod` n).
Proof.
  intros Hn block_size.
  pose proof (ceil_sqrt_pos n Hn) as Hb. fold block_size in Hb.
  destruct (block_permutation_run n block_size w Hn Hb)
    as (_ & Hperm & Hlen & _ & _ & _).
  eexists _, _. split; [exact Hperm|].
  intros i Hi Hmod.
  pose proof (blocks_cover n block_size ltac:(lia) Hb) as Hcover.
  set (starts := (choice (rng w) n (n / block_size + 1)).1) in *.
  destruct (succ_in_block i (Z.to_nat block_size) ltac:(lia) Hmod) as [Hq Hr].
  assert (Hlt : (i / Z.to_nat block_size < length starts)%nat).
  { apply Nat.Div0.div_lt_upper_bound. nia. }
  destruct (lookup_lt_is_Some_2 starts _ Hlt) as [t Ht].
  exists ((t + Z.of_nat (i mod Z.to_nat block_size)) `mod` n). split.
  - apply blocks_of_lookup; [exact Hb|lia|lia|exact Ht].
  - rewrite (blocks_of_lookup starts n block_size (S i) t);
      [|exact Hb|lia|lia|rewrite Hq; exact Ht].
    f_equal. rewrite Hr, Z.add_mod_idemp_l by lia. f_equal. lia.
Qed.

(** ** The permuted distance matrix *)

Lemma norm_index_nonneg (len : nat) (i : Z) (p : nat) :
  0 ≤ i → norm_index len i = Some p → p = Z.to_nat i ∧ (p < len)%nat.
Proof.
  intros Hi. unfold norm_index.
  destruct (Z.leb_spec 0 i); [|lia].
  destruct (Z.ltb_spec i (Z.of_nat len)); cbn [andb].
  - intros [= <-]. lia.
  - destruct (Z.ltb_spec i 0); [lia|].
    rewrite andb_false_r. discriminate.
Qed.

Lemma item_nonneg {A} (l : list A) (i : Z) (x : A) :
  0 ≤ i → item l i = Some x → l !! Z.to_nat i = Some x.
Proof.
  intros Hi. unfold item.
  destruct (norm_index (length l) i) as [p|] eqn:E; [|discriminate].
  destruct (norm_index_nonneg _ _ _ Hi E) as [-> _]. cbn. auto.
Qed.

(** Entry [(i, j)] of [m[np.ix_(rows, cols)]] is entry
    [(rows[i], cols[j])] of [m]. *)
Lemma ix_select_cell (m P : matrix) (rows cols : list Z) (i j : nat) (r c : Z) :
  ix_select m rows cols = Some P →
  rows !! i = Some r → cols !! j = Some c → 0 ≤ r → 0 ≤ c →
  cell P i j = cell m (Z.to_nat r) (Z.to_nat c).
Proof.
  intros HP Hr Hc Hr0 Hc0. unfold ix_select in HP.
  apply mapM_Some_1 in HP.
  destruct (Forall2_lookup_l _ _ _ _ _ HP Hr) as (prow & HPi & Hrow).
  cbn in Hrow. destruct (item m r) as [row|] eqn:Em; [|discriminate].
  cbn in Hrow. apply mapM_Some_1 in Hrow.
  destruct (Forall2_lookup_l _ _ _ _ _ Hrow Hc) as (x & Hx & Hitem).
  unfold cell, matrix in *. rewrite HPi. cbn.
  rewrite (item_nonneg m r row Hr0 Em). cbn.
  rewrite Hx. symmetry. apply item_nonneg; assumption.
Qed.

(** X10: what a block permutation does to [Y]'s distance matrix.  Entry
    [(i, j)] of the permuted matrix is the distance between the
    observations [permuted_indices[i]] and [permuted_indices[j]]; the
    permuted matrix is therefore symmetric when the distance matrix is, and
    its diagonal is zero when that of the distance matrix is. *)
Theorem permuted_matrix_cells (n : Z) (dist_Y : matrix) (w : world) :
  1 ≤ n → is_square (Z.to_nat n) dist_Y →
  ∃ permuted_indices w' permuted_Y,
    block_permutation n (ceil_sqrt n) w = (Ok permuted_indices, w')
    ∧ ix_ dist_Y permuted_indices permuted_indices w' = (Ok permuted_Y, w')
    ∧ (∀ (i j : nat) (p q : Z),
         permuted_indices !! i = Some p → permuted_indices !! j = Some q →
         cell permuted_Y i j = cell dist_Y (Z.to_nat p) (Z.to_nat q))
    ∧ ((∀ a b, cell dist_Y a b = cell dist_Y b a) →
       ∀ i j, cell permuted_Y i j = cell permuted_Y j i)
    ∧ ((∀ a x, cell dist_Y a a = Some x → x == 0) →
       ∀ i x, cell permuted_Y i i = Some x → x == 0).
Proof.
  intros Hn Hsq.
  destruct (block_permutation_run n (ceil_sqrt n) w Hn (ceil_sqrt_pos n Hn))
    as (_ & Hperm & _ & _ & Hlen & Hrange).
  set (idx := blocks_of _ n (ceil_sqrt n)) in *.
  set (w' := with_rng _ w) in *.
  assert (Hrange' : Forall (λ x, 0 ≤ x < Z.of_nat (Z.to_nat n)) idx).
  { eapply Forall_impl; [exact Hrange|]. intros x Hx. cbn in Hx. lia. }
  destruct (ix_select_shape (Z.to_nat n) dist_Y idx idx Hsq Hrange' Hrange')
    as (P & HP & HPlen & HProws).
  assert (Hcells : ∀ (i j : nat) (p q : Z),
            idx !! i = Some p → idx !! j = Some q →
            cell P i j = cell dist_Y (Z.to_nat p) (Z.to_nat q)).
  { intros i j p q Hp Hq.
    rewrite Forall_forall in Hrange.
    pose proof (Hrange p (list_elem_of_lookup_2 _ _ _ Hp)) as Hp0.
    pose proof (Hrange q (list_elem_of_lookup_2 _ _ _ Hq)) as Hq0.
    cbn in Hp0, Hq0.
    apply (ix_select_cell dist_Y P idx idx i j p q HP Hp Hq); lia. }
  assert (Hout : ∀ i j, idx !! i = None ∨ idx !! j = None → cell P i j = None).
  { intros i j Hij. unfold cell.
    destruct (P !! i) as [row|] eqn:Ei; [|reflexivity]. cbn.
    destruct Hij as [Hi|Hj].
    - apply lookup_ge_None in Hi. apply lookup_lt_Some in Ei. lia.
    - apply lookup_ge_None in Hj. apply lookup_ge_None.
      rewrite Forall_forall in HProws.
      pose proof (HProws row (list_elem_of_lookup_2 _ _ _ Ei)) as Hl.
      cbn in Hl. lia. }
  exists idx, w', P. split; [exact Hperm|].
  split; [unfold ix_; rewrite HP; reflexivity|].
  split; [exact Hcells|]. split.
  - intros Hsym i j.
    destruct (idx !! i) as [p|] eqn:Ep; [|rewrite !Hout by auto; reflexivity].
    destruct (idx !! j) as [q|] eqn:Eq; [|rewrite !Hout by auto; reflexivity].
    rewrite (Hcells i j p q Ep Eq), (Hcells j i q p Eq Ep). apply Hsym.
  - intros Hdiag i x Hx.
    destruct (idx !! i) as [p|] eqn:Ep.
    + rewrite (Hcells i i p p Ep Ep) in Hx. eapply Hdiag. exact Hx.
    + rewrite Hout in Hx by auto. discriminate.
Qed.
(** ** What the fast path leaves in [self.test_statistic_] *)

Lemma fast_body_holds (matrix_X permuted_Y : matrix) (subsample_size : Z)
    (a : addr) (i : Z) (w : world) :
  0 ≤ i →
  match fast_body matrix_X permuted_Y subsample_size a i tt w with
  | (Ok _, w') => holds_statistic_of a i w'
  | (Raise _, _) => True
  end.
Proof.
  intros Hi. unfold fast_body, bind, ix_.
  destruct (ix_select matrix_X _ _) as [SX|]; [|exact I]. cbn [ret].
  destruct (ix_select permuted_Y _ _) as [SY|]; [|exact I]. cbn [ret].
  pose proof (test_statistic_keeps w (Array2 SX) (Array2 SY) w (untouched_refl w))
    as Hkeep.
  destruct (test_statistic (Array2 SX) (Array2 SY) w) as [[[s md]|ex] w1];
    [|exact I].
  destruct Hkeep as (_ & Hstat & _). cbn [fst] in Hstat.
  unfold setitem, bind, read_array.
  destruct (heap w1 !! a) as [arr|] eqn:Ea; [|exact I].
  destruct (norm_index (length arr) i) as [p|] eqn:Ep; [|exact I].
  destruct (norm_index_nonneg _ _ _ Hi Ep) as [-> Hp].
  exists (<[Z.to_nat i := s]> arr), s. cbn [heap self with_heap].
  split; [apply list_lookup_insert_eq; eapply lookup_lt_Some; exact Ea|].
  split; [apply list_lookup_insert_eq; exact Hp|exact Hstat].
Qed.

(** A loop ends in the state its last turn leaves. *)
Lemma for_each_last {A S} (xs : list A) (x : A) (body : A → S → Py S)
    (R : world → Prop) :
  (∀ s w, match body x s w with (Ok _, w') => R w' | (Raise _, _) => True end) →
  ∀ s w, match for_each (xs ++ [x]) body s w with
         | (Ok _, w') => R w'
         | (Raise _, _) => True
         end.
Proof.
  intros Hlast. induction xs as [|y xs IH]; intros s w.
  - cbn [app for_each]. unfold bind. specialize (Hlast s w).
    destruct (body x s w) as [[s'|ex] w']; [exact Hlast|exact I].
  - cbn [app for_each]. unfold bind.
    destruct (body y s w) as [[s'|ex] w']; [apply IH|exact I].
Qed.

Lemma fast_path_holds (matrix_X matrix_Y : matrix) (observed : Q)
    (block_size : Z) (w : world) :
  let num_samples := Z.of_nat (length matrix_X) / 10 in
  1 ≤ num_samples →
  match _fast_p_value matrix_X matrix_Y observed block_size None w with
  | (Ok (_, md), w') =>
      holds_statistic_of (null_distribution md) (num_samples - 1) w'
  | (Raise _, _) => True
  end.
Proof.
  intros num_samples Hns. unfold _fast_p_value. cbn [default from_option id].
  unfold bind at 1. unfold floor_divide. cbn [Z.eqb ret]. fold num_samples.
  unfold bind at 1.
  destruct (block_permutation _ block_size w) as [[idx|ex] w1]; [|exact I].
  unfold bind at 1. unfold ix_ at 1.
  destruct (ix_select matrix_Y idx idx) as [PY|]; [|exact I]. cbn [ret].
  unfold bind at 1.
  destruct (np_zeros (num_samples * 10) w1) as [[a|ex] w2]; [|exact I].
  assert (Hsplit : arange 0 num_samples
                   = seqZ 0 (Z.of_nat (Z.to_nat (num_samples - 1)))
                     ++ [num_samples - 1]).
  { unfold arange.
    replace (num_samples - 0) with (Z.of_nat (S (Z.to_nat (num_samples - 1))))
      by lia.
    rewrite seqZ_S. f_equal. f_equal. lia. }
  rewrite Hsplit.
  pose proof (for_each_last (seqZ 0 (Z.of_nat (Z.to_nat (num_samples - 1))))
                (num_samples - 1) (fast_body matrix_X PY 10 a)
                (holds_statistic_of a (num_samples - 1))) as Hloop.
  unfold bind at 1.
  specialize (Hloop (λ s w, match s with tt =>
                              fast_body_holds matrix_X PY 10 a (num_samples - 1) w
                                ltac:(lia) end) tt w2).
  destruct (for_each _ _ tt w2) as [[[]|ex] w3]; [|exact I].
  destruct Hloop as (arr & v & Harr & Hv & Hstat).
  unfold bind at 1. unfold read_array. rewrite Harr.
  unfold np_std, np_mean, bind, true_divide.
  repeat (match goal with
          | |- context [Qeq_bool ?x 0] => destruct (Qeq_bool x 0)
          end; cbv [raise ret]; cbv beta iota; try exact I).
  cbv [modify_self]. cbv beta iota zeta. exists arr, v.
  cbn [null_distribution heap self with_self test_statistic_
       set_p_value_ set_p_value_metadata_].
  split; [exact Harr|]. split; [exact Hv|exact Hstat].
Qed.

(** X11: the fast path overwrites [self.test_statistic_].  For [n >= 10]
    observations [p_value(..., is_fast=True)] returns, and the statistic it
    leaves in [self.test_statistic_] is the one of the last block of ten
    observations, entry [n // 10 - 1] of the null distribution: it is not
    the observed statistic, which was stored there before the blocks were
    processed. *)
Theorem fast_path_overwrites_statistic (matrix_X matrix_Y : ndarray)
    (replication_factor : option Z) (w : world) :
  let n := shape0 matrix_X in
  let num_samples := n / 10 in
  let f := compute_distance_matrix (self w) in
  let D := compute_distance (as_2d matrix_X) (as_2d matrix_Y) f in
  shape0 matrix_X = shape0 matrix_Y → 10 ≤ n →
  0 ≤ lag_bound (self w) n → 0 ≤ lag_bound (self w) 10 →
  distance_contract f →
  Qeq_bool (np_sqrt (inject_Z num_samples)) 0 = false →
  ∃ p metadata w' observed metadata0 w0 arr v,
    test_statistic (Array2 D.1) (Array2 D.2) w = (Ok (observed, metadata0), w0)
    ∧ test_statistic_ (self w0) = Some observed
    ∧ p_value matrix_X matrix_Y replication_factor (Some true) w
      = (Ok (p, metadata), w')
    ∧ heap w' !! null_distribution metadata = Some arr
    ∧ arr !! Z.to_nat (num_samples - 1) = Some v
    ∧ test_statistic_ (self w') = Some v.
Proof.
  intros n num_samples f D Hshape Hn HM HM10 Hcontract Hsqrt.
  destruct (p_value_fast_run matrix_X matrix_Y replication_factor w
              Hshape Hn HM HM10 Hcontract Hsqrt)
    as (observed & md0 & w0 & idx & w1 & PY & a & w3
        & Hobs & _ & _ & _ & Hrun).
  fold n num_samples f D in Hobs, Hrun.
  assert (Hns : 1 ≤ num_samples).
  { unfold num_samples. apply Z.div_le_lower_bound; lia. }
  assert (HlX : Z.of_nat (length D.1) = n).
  { destruct (Hcontract (as_2d matrix_X) (as_2d matrix_Y)) as [[HX _] _].
    fold f D in HX. rewrite HX. symmetry. apply shape0_as_2d. }
  pose proof (test_statistic_keeps w (Array2 D.1) (Array2 D.2) w
                (untouched_refl w)) as Hkeep.
  rewrite Hobs in Hkeep. destruct Hkeep as (_ & Hstat0 & _).
  pose proof (fast_path_holds D.1 D.2 observed (ceil_sqrt n) w0) as Hfast.
  cbn zeta in Hfast. rewrite HlX in Hfast. fold num_samples in Hfast.
  specialize (Hfast Hns).
  assert (Hsame : p_value matrix_X matrix_Y replication_factor (Some true) w
                  = _fast_p_value D.1 D.2 observed (ceil_sqrt n) None w0).
  { unfold p_value. cbn [default from_option id].
    apply Z.eqb_eq in Hshape. rewrite Hshape. cbn [assert].
    unfold bind at 1. cbn [ret]. unfold bind at 1. cbn [get_self].
    fold f. fold n. fold D. destruct D as [DX DY]. cbn [fst snd] in *.
    erewrite bind_ok; [|exact Hobs]. reflexivity. }
  rewrite <- Hsame, Hrun in Hfast.
  destruct Hfast as (arr & v & Harr & Hv & Hstat).
  eexists _, _, _, observed, md0, w0, arr, v.
  split; [exact Hobs|]. split; [exact Hstat0|]. split; [exact Hrun|].
  split; [exact Harr|]. split; [exact Hv|exact Hstat].
Qed.
(** ** The power of the test ([compute_power]) *)





Lemma item_beyond {A} (l : list A) (i : Z) :
  Z.of_nat (length l) ≤ i → item l i = None.
Proof.
  intros Hi. unfold item, norm_index.
  destruct (Z.ltb_spec i (Z.of_nat (length l))); [lia|].
  destruct (Z.ltb_spec i 0); [lia|].
  rewrite !andb_false_r. reflexivity.
Qed.

Lemma column_head_None (m : matrix) (n s : Z) :
  Z.of_nat (length m) < n → column_head m n s = None.
Proof.
  intros Hn. unfold column_head. apply mapM_None_2, Exists_exists.
  exists (Z.of_nat (length m)). split.
  - unfold arange. apply elem_of_seqZ. lia.
  - rewrite item_beyond by lia. reflexivity.
Qed.






(** X13: a sample size beyond the simulated series.  When [n] exceeds
    the number of rows of [X_full], the first simulation fails on
    [X_full[range(n), s]] with [IndexError]: no test has been run and the
    world is as it was. *)
Theorem compute_power_beyond_series (is_fast : bool) (X_full Y_full : matrix)
    (num_sims : Z) (alpha : Q) (n : Z) (w : world) :
  Z.of_nat (length X_full) < n → 1 ≤ num_sims →
  compute_power is_fast X_full Y_full num_sims alpha n w = (Raise IndexError, w).
Proof.
  intros Hn Hsims. unfold compute_power, arange.
  rewrite seqZ_cons by lia. cbn [map_each].
  unfold bind at 1. unfold bind at 1.
  unfold power_worker at 1. unfold bind at 1. unfold fancy_column at 1.
  rewrite column_head_None by exact Hn. reflexivity.
Qed.
(** ** What [p_value] leaves alone *)

Lemma preserved_refl (w : world) : preserved w w.
Proof. unfold preserved. repeat split; reflexivity. Qed.

Lemma preserved_untouched (w0 w1 w2 : world) :
  preserved w0 w1 → untouched w1 w2 → preserved w0 w2.
Proof.
  intros (H1 & H2 & H3 & H4 & H5) (U1 & U2 & U3 & U4 & _ & _ & _ & U5).
  unfold preserved.
  rewrite U1, U2, U3, U4. repeat split; try assumption.
  etransitivity; eassumption.
Qed.

Lemma hoare_test_statistic_preserved (w0 : world) (matrix_X matrix_Y : ndarray) :
  hoare (preserved w0) (test_statistic matrix_X matrix_Y)
    (λ _, preserved w0) (λ _, preserved w0).
Proof.
  intros w Hw.
  pose proof (test_statistic_keeps w matrix_X matrix_Y w (untouched_refl w)) as H.
  destruct (test_statistic matrix_X matrix_Y w) as [[r|ex] w'].
  - apply (preserved_untouched w0 w w' Hw), H.
  - apply (preserved_untouched w0 w w' Hw), H.
Qed.

Lemma floor_divide_reads a b w : (floor_divide a b w).2 = w.
Proof. unfold floor_divide. destruct (b =? 0); reflexivity. Qed.

Lemma int_true_divide_reads a b w : (int_true_divide a b w).2 = w.
Proof. unfold int_true_divide. destruct (b =? 0); reflexivity. Qed.

Lemma ix_reads m rows cols w : (ix_ m rows cols w).2 = w.
Proof. unfold ix_. destruct (ix_select m rows cols); reflexivity. Qed.

Lemma np_mean_reads l w : (np_mean l w).2 = w.
Proof. apply true_divide_reads. Qed.

Lemma np_std_reads l w : (np_std l w).2 = w.
Proof.
  unfold np_std, bind.
  pose proof (np_mean_reads l w) as H1.
  destruct (np_mean l w) as [[m|ex] w1]; cbn in H1; subst w1; [|reflexivity].
  pose proof (np_mean_reads ((λ x, (x - m) * (x - m))%Q <$> l) w) as H2.
  destruct (np_mean _ w) as [[v|ex] w2]; cbn in H2; subst w2; reflexivity.
Qed.

(** The draws of a permutation move the generator and nothing else. *)
Lemma block_permutation_world (n block_size : Z) (w : world) :
  let w' := (block_permutation n block_size w).2 in
  self w' = self w ∧ heap w' = heap w ∧ engine_log w' = engine_log w.
Proof.
  unfold block_permutation, block_starts, bind, floor_divide, np_random_choice.
  destruct (block_size =? 0); [repeat split|]. cbn [ret].
  destruct ((n <=? 0) || (n `div` block_size + 1 <? 0)); repeat split.
Qed.

Lemma hoare_block_permutation_preserved (w0 : world) (n block_size : Z) :
  hoare (preserved w0) (block_permutation n block_size)
    (λ _, preserved w0) (λ _, preserved w0).
Proof.
  intros w Hw.
  destruct (block_permutation_world n block_size w) as (Hs & Hh & _).
  destruct (block_permutation n block_size w) as [[idx|ex] w']; cbn in Hs, Hh;
    unfold preserved; rewrite Hs, Hh; exact Hw.
Qed.

Lemma hoare_worker_preserved (w0 : world) (matrix_X matrix_Y : matrix)
    (n block_size rep : Z) :
  hoare (preserved w0) (worker matrix_X matrix_Y n block_size rep)
    (λ _, preserved w0) (λ _, preserved w0).
Proof.
  unfold worker.
  eapply hoare_bind; [apply hoare_block_permutation_preserved|]. intros idx.
  eapply hoare_bind; [apply hoare_reads, ix_reads|]. intros PY.
  eapply hoare_bind; [apply hoare_test_statistic_preserved|].
  intros [s md]. apply hoare_ret. auto.
Qed.

Lemma preserved_set_p_value (w0 w : world) (p : Q) :
  preserved w0 w → preserved w0 (with_self (set_p_value_ p (self w)) w).
Proof. unfold preserved. cbn. auto. Qed.

Lemma preserved_set_p_value_metadata (w0 w : world) (md : pv_metadata) :
  preserved w0 w → preserved w0 (with_self (set_p_value_metadata_ md (self w)) w).
Proof. unfold preserved. cbn. auto. Qed.

Lemma preserved_alloc (w0 w : world) (arr : list Q) :
  preserved w0 w → preserved w0 (with_heap (heap w ++ [arr]) w).
Proof.
  unfold preserved. cbn. intros (?&?&?&?&Hp).
  repeat split; try assumption. apply prefix_app_r. exact Hp.
Qed.

Lemma preserved_write (w0 w : world) (a : addr) (arr : list Q) :
  preserved w0 w → (length (heap w0) ≤ a)%nat →
  preserved w0 (with_heap (<[a := arr]> (heap w)) w).
Proof.
  unfold preserved. cbn. intros (?&?&?&?&[k Hk]) Ha.
  repeat split; try assumption.
  rewrite Hk, insert_app_r_alt by exact Ha. eexists. reflexivity.
Qed.

(** The loop of the fast path writes to the array it was given, which is
    younger than [w0]. *)
Lemma hoare_fast_body_preserved (w0 : world) (matrix_X permuted_Y : matrix)
    (subsample_size : Z) (a : addr) (i : Z) :
  (length (heap w0) ≤ a)%nat →
  hoare (preserved w0) (fast_body matrix_X permuted_Y subsample_size a i tt)
    (λ _, preserved w0) (λ _, preserved w0).
Proof.
  intros Ha. unfold fast_body.
  eapply hoare_bind; [apply hoare_reads, ix_reads|]. intros SX.
  eapply hoare_bind; [apply hoare_reads, ix_reads|]. intros SY.
  eapply hoare_bind; [apply hoare_test_statistic_preserved|].
  intros [s md] w Hw. unfold setitem, bind, read_array.
  destruct (heap w !! a) as [arr|]; [|exact Hw].
  destruct (norm_index (length arr) i); cbn; [|exact Hw].
  apply preserved_write; assumption.
Qed.

Lemma hoare_fast_p_value_preserved (w0 : world) (matrix_X matrix_Y : matrix)
    (observed : Q) (block_size : Z) (subsample_size : option Z) :
  hoare (preserved w0)
    (_fast_p_value matrix_X matrix_Y observed block_size subsample_size)
    (λ r w, preserved w0 w
            ∧ p_value_ (self w) = Some r.1
            ∧ p_value_metadata_ (self w) = Some r.2)
    (λ _, preserved w0).
Proof.
  unfold _fast_p_value.
  eapply hoare_bind; [apply hoare_reads, floor_divide_reads|]. intros num_samples.
  eapply hoare_bind; [apply hoare_block_permutation_preserved|]. intros idx.
  eapply hoare_bind; [apply hoare_reads, ix_reads|]. intros PY.
  eapply hoare_bind with
    (Q := λ a w, preserved w0 w ∧ (length (heap w0) ≤ a)%nat).
  { intros w Hw. unfold np_zeros. destruct (_ <? 0); cbn; [exact Hw|].
    split; [apply preserved_alloc; exact Hw|].
    destruct Hw as (_&_&_&_&Hp). apply prefix_length. exact Hp. }
  intros a w [Hw Ha]. revert w Hw.
  change (hoare (preserved w0)
            (for_each (arange 0 num_samples)
               (fast_body matrix_X PY (default 10 subsample_size) a) tt;;
             do arr <- read_array a;
             do mu <- np_mean arr;
             do sd <- np_std arr;
             do sigma <- true_divide sd (np_sqrt (inject_Z num_samples));
             modify_self (set_p_value_ (1 - norm_cdf observed mu sigma)%Q);;
             modify_self (set_p_value_metadata_ {| null_distribution := a |});;
             ret ((1 - norm_cdf observed mu sigma)%Q, {| null_distribution := a |}))
            (λ r w, preserved w0 w
                    ∧ p_value_ (self w) = Some r.1
                    ∧ p_value_metadata_ (self w) = Some r.2)
            (λ _, preserved w0)).
  eapply hoare_bind.
  { apply hoare_for_each. intros i [] _.
    apply hoare_fast_body_preserved. exact Ha. }
  intros [].
  eapply hoare_bind; [apply hoare_reads, read_array_reads|]. intros arr.
  eapply hoare_bind; [apply hoare_reads, np_mean_reads|]. intros mu.
  eapply hoare_bind; [apply hoare_reads, np_std_reads|]. intros sd.
  eapply hoare_bind; [apply hoare_reads, true_divide_reads|]. intros sigma.
  intros w Hw. cbn.
  split; [|split; reflexivity].
  apply (preserved_set_p_value_metadata w0 _ {| null_distribution := a |}).
  apply (preserved_set_p_value w0 w (1 - norm_cdf observed mu sigma)%Q), Hw.
Qed.

(** X18: the side effects of [p_value].  Whether it returns or raises,
    on either path, a call leaves unchanged the fields
    [compute_distance_matrix], [max_lag], [which_test] and [mgc] of the test
    object and every array that existed before the call; when it returns,
    the fields [p_value_] and [p_value_metadata_] hold the returned p-value
    and metadata. *)
Theorem p_value_side_effects (matrix_X matrix_Y : ndarray)
    (replication_factor : option Z) (is_fast : option bool) (w : world) :
  match p_value matrix_X matrix_Y replication_factor is_fast w with
  | (Ok r, w') =>
      preserved w w'
      ∧ p_value_ (self w') = Some r.1
      ∧ p_value_metadata_ (self w') = Some r.2
  | (Raise _, w') => preserved w w'
  end.
Proof.
  assert (H : hoare (preserved w)
                (p_value matrix_X matrix_Y replication_factor is_fast)
                (λ r w', preserved w w'
                         ∧ p_value_ (self w') = Some r.1
                         ∧ p_value_metadata_ (self w') = Some r.2)
                (λ _, preserved w)).
  { unfold p_value.
    eapply hoare_bind; [apply hoare_reads, assert_reads|]. intros [].
    eapply hoare_bind; [apply hoare_reads; reflexivity|]. intros o.
    destruct (compute_distance _ _ _) as [DX DY].
    eapply hoare_bind; [apply hoare_test_statistic_preserved|].
    intros [observed md0].
    destruct (default false is_fast).
    - apply hoare_fast_p_value_preserved.
    - eapply hoare_bind.
      { apply hoare_map_each. intros rep. apply hoare_worker_preserved. }
      intros stats.
      eapply hoare_bind with (Q := λ _, preserved w).
      { intros w1 [Hw1 _]. cbn. apply (preserved_alloc w w1 stats). exact Hw1. }
      intros a.
      eapply hoare_bind; [apply hoare_reads, true_divide_reads|]. intros p.
      eapply hoare_bind with
        (Q := λ _ w1, preserved w w1 ∧ p_value_ (self w1) = Some p).
      { intros w1 Hw1. cbn.
        split; [apply (preserved_set_p_value w w1 p), Hw1|reflexivity]. }
      intros [].
      destruct (Qeq_bool p 0).
      + eapply hoare_bind with
          (Q := λ p' w1, preserved w w1 ∧ p_value_ (self w1) = Some p').
        { eapply hoare_bind with (Q := λ _, preserved w).
          - intros w1 [Hw1 _]. pose proof (int_true_divide_reads 1
              (default 1000 replication_factor) w1) as Hr.
            destruct (int_true_divide _ _ w1) as [[q|ex] w2]; cbn in Hr;
              subst w2; exact Hw1.
          - intros p' w1 Hw1. cbn.
            split; [apply (preserved_set_p_value w w1 p'), Hw1|reflexivity]. }
        intros p' w1 [Hw1 Hp]. cbn.
        split; [apply (preserved_set_p_value_metadata w w1 {| null_distribution := a |}), Hw1|].
        split; [exact Hp|reflexivity].
      + intros w1 [Hw1 Hp]. cbn.
        split; [apply (preserved_set_p_value_metadata w w1 {| null_distribution := a |}), Hw1|].
        split; [exact Hp|reflexivity]. }
  apply (H w), preserved_refl.
Qed.
(** ** The random numbers a p-value consumes *)

Lemma keeps_rng_reads {A} (c : Py A) : (∀ w, (c w).2 = w) → keeps_rng c.
Proof. intros H w. rewrite H. reflexivity. Qed.

Lemma keeps_rng_bind {A B} (c : Py A) (k : A → Py B) :
  keeps_rng c → (∀ a, keeps_rng (k a)) → keeps_rng (bind c k).
Proof.
  intros Hc Hk w. unfold bind. specialize (Hc w).
  destruct (c w) as [[a|ex] w1]; cbn in Hc.
  - rewrite Hk. exact Hc.
  - exact Hc.
Qed.

Lemma keeps_rng_for_each {A S} (xs : list A) (body : A → S → Py S) (s : S) :
  (∀ x s, keeps_rng (body x s)) → keeps_rng (for_each xs body s).
Proof.
  intros Hbody. revert s. induction xs as [|x xs IH]; intros s.
  - intros w. reflexivity.
  - cbn [for_each]. apply keeps_rng_bind; [apply Hbody|]. intros s'. apply IH.
Qed.

Lemma keeps_rng_test_statistic (matrix_X matrix_Y : ndarray) :
  keeps_rng (test_statistic matrix_X matrix_Y).
Proof.
  intros w.
  pose proof (test_statistic_keeps w matrix_X matrix_Y w (untouched_refl w)) as H.
  destruct (test_statistic matrix_X matrix_Y w) as [[r|ex] w']; cbn.
  - destruct H as ((_&_&_&_&_&_&Hr&_)&_). exact Hr.
  - destruct H as (_&_&_&_&_&_&Hr&_). exact Hr.
Qed.

Lemma keeps_rng_setitem (a : addr) (i : Z) (v : Q) : keeps_rng (setitem a i v).
Proof.
  intros w. unfold setitem, bind, read_array.
  destruct (heap w !! a) as [arr|]; [|reflexivity].
  destruct (norm_index (length arr) i); reflexivity.
Qed.

Lemma keeps_rng_np_zeros (len : Z) : keeps_rng (np_zeros len).
Proof. intros w. unfold np_zeros. destruct (len <? 0); reflexivity. Qed.

Lemma keeps_rng_fast_body (matrix_X permuted_Y : matrix) (subsample_size : Z)
    (a : addr) (i : Z) (u : unit) :
  keeps_rng (fast_body matrix_X permuted_Y subsample_size a i u).
Proof.
  unfold fast_body.
  apply keeps_rng_bind; [apply keeps_rng_reads, ix_reads|]. intros SX.
  apply keeps_rng_bind; [apply keeps_rng_reads, ix_reads|]. intros SY.
  apply keeps_rng_bind; [apply keeps_rng_test_statistic|]. intros [s md].
  apply keeps_rng_setitem.
Qed.

Lemma hoare_keeps_rng {A} (w0 : world) (j : nat) (c : Py A) :
  keeps_rng c → hoare (drawn w0 j) c (λ _, drawn w0 j) (λ _ _, True).
Proof.
  intros Hc w Hw. specialize (Hc w).
  destruct (c w) as [[a|ex] w']; cbn in Hc; [|exact I].
  intros i. rewrite Hc. apply Hw.
Qed.

(** One permutation takes [n // block_size + 1] draws. *)
Lemma hoare_block_permutation_draws (w0 : world) (j : nat) (n block_size : Z) :
  hoare (drawn w0 j) (block_permutation n block_size)
    (λ _, drawn w0 (j + Z.to_nat (n / block_size + 1))) (λ _ _, True).
Proof.
  intros w Hw.
  unfold block_permutation, block_starts, bind, floor_divide, np_random_choice.
  destruct (block_size =? 0); [exact I|]. cbn [ret].
  destruct ((n <=? 0) || (n / block_size + 1 <? 0)); [exact I|].
  unfold choice, ret. cbv beta iota zeta. intros i.
  cbn [rng with_rng]. rewrite Hw. f_equal. lia.
Qed.

Lemma hoare_worker_draws (w0 : world) (j : nat) (matrix_X matrix_Y : matrix)
    (n block_size rep : Z) :
  hoare (drawn w0 j) (worker matrix_X matrix_Y n block_size rep)
    (λ _, drawn w0 (j + Z.to_nat (n / block_size + 1))) (λ _ _, True).
Proof.
  unfold worker.
  eapply hoare_bind; [apply hoare_block_permutation_draws|]. intros idx.
  eapply hoare_bind; [apply hoare_keeps_rng, keeps_rng_reads, ix_reads|].
  intros PY.
  eapply hoare_bind; [apply hoare_keeps_rng, keeps_rng_test_statistic|].
  intros [s md]. apply hoare_ret. auto.
Qed.

Lemma hoare_workers_draw (w0 : world) (matrix_X matrix_Y : matrix)
    (n block_size : Z) (reps : list Z) (j : nat) :
  hoare (drawn w0 j) (map_each (worker matrix_X matrix_Y n block_size) reps)
    (λ _, drawn w0 (j + length reps * Z.to_nat (n / block_size + 1)))
    (λ _ _, True).
Proof.
  revert j. induction reps as [|rep reps IH]; intros j.
  - apply hoare_ret. intros w Hw i. rewrite Hw. f_equal. cbn. lia.
  - cbn [map_each]. eapply hoare_bind; [apply hoare_worker_draws|]. intros s.
    eapply hoare_bind; [apply IH|]. intros ss.
    apply hoare_ret. intros w Hw i. rewrite Hw. f_equal. cbn [length]. lia.
Qed.

(** The draws of a call that returns: one permutation in the fast path,
    one per repetition in the exact path. *)
Lemma p_value_draws (matrix_X matrix_Y : ndarray)
    (replication_factor : option Z) (is_fast : option bool) (w : world) :
  let n := shape0 matrix_X in
  let k := Z.to_nat (n / ceil_sqrt n + 1) in
  let reps := if default false is_fast then 1%nat
              else Z.to_nat (default 1000 replication_factor) in
  distance_contract (compute_distance_matrix (self w)) →
  hoare (λ w', w' = w)
    (p_value matrix_X matrix_Y replication_factor is_fast)
    (λ _, drawn w (reps * k)) (λ _ _, True).
Proof.
  intros n k reps Hcontract. unfold p_value.
  eapply hoare_bind with (Q := λ _ w', w' = w).
  { intros w' ->. pose proof (assert_reads (shape0 matrix_X =? shape0 matrix_Y)
                                shape_message w) as H.
    destruct (assert _ _ w) as [[[]|ex] w']; cbn in H; [exact H|exact I]. }
  intros [].
  eapply hoare_bind with (Q := λ o w', o = self w ∧ w' = w).
  { intros w' ->. split; reflexivity. }
  intros o.
  assert (Hgoal : hoare (drawn w 0)
    (let '(DX, DY) := compute_distance (as_2d matrix_X) (as_2d matrix_Y)
                        (compute_distance_matrix (self w)) in
     do '(observed, _) <- test_statistic (Array2 DX) (Array2 DY);
     if default false is_fast
     then _fast_p_value DX DY observed (ceil_sqrt n) None
     else
       do stats <- map_each (worker DX DY n (ceil_sqrt n))
                     (arange 0 (default 1000 replication_factor));
       do test_stats_null <- new_list stats;
       do p <- true_divide (inject_Z (count_greater stats observed))
                 (inject_Z (default 1000 replication_factor));
       modify_self (set_p_value_ p);;
       do p <- (if Qeq_bool p 0
                then do p' <- int_true_divide 1 (default 1000 replication_factor);
                     modify_self (set_p_value_ p');; ret p'
                else ret p);
       let metadata := {| null_distribution := test_stats_null |} in
       modify_self (set_p_value_metadata_ metadata);;
       ret (p, metadata))
    (λ _, drawn w (reps * k)) (λ _ _, True)).
  { destruct (Hcontract (as_2d matrix_X) (as_2d matrix_Y)) as [[HlX _] _].
    destruct (compute_distance _ _ _) as [DX DY]. cbn [fst] in HlX.
    eapply hoare_bind; [apply hoare_keeps_rng, keeps_rng_test_statistic|].
    intros [observed md0]. unfold reps.
    destruct (default false is_fast).
    - unfold _fast_p_value. cbn [default from_option id].
      rewrite HlX, <- shape0_as_2d. fold n.
      eapply hoare_bind; [apply hoare_keeps_rng, keeps_rng_reads, floor_divide_reads|].
      intros num_samples.
      eapply hoare_bind; [apply hoare_block_permutation_draws|]. intros idx.
      replace (0 + Z.to_nat (n / ceil_sqrt n + 1))%nat with (1 * k)%nat
        by (unfold k; lia).
      apply hoare_keeps_rng.
      apply keeps_rng_bind; [apply keeps_rng_reads, ix_reads|]. intros PY.
      apply keeps_rng_bind; [apply keeps_rng_np_zeros|]. intros a.
      apply keeps_rng_bind.
      { apply keeps_rng_for_each. intros i u. apply keeps_rng_fast_body. }
      intros [].
      apply keeps_rng_bind; [apply keeps_rng_reads, read_array_reads|]. intros arr.
      apply keeps_rng_bind; [apply keeps_rng_reads, np_mean_reads|]. intros mu.
      apply keeps_rng_bind; [apply keeps_rng_reads, np_std_reads|]. intros sd.
      apply keeps_rng_bind; [apply keeps_rng_reads, true_divide_reads|].
      intros sigma w'. reflexivity.
    - eapply hoare_bind; [apply hoare_workers_draw|]. intros stats.
      set (rf := default 1000 replication_factor).
      replace (0 + length (arange 0 rf) * Z.to_nat (n / ceil_sqrt n + 1))%nat
        with (Z.to_nat rf * k)%nat
        by (unfold k, arange; rewrite length_seqZ; lia).
      apply hoare_keeps_rng.
      apply keeps_rng_bind; [intros w'; reflexivity|]. intros a.
      apply keeps_rng_bind; [apply keeps_rng_reads, true_divide_reads|]. intros p.
      apply keeps_rng_bind; [intros w'; reflexivity|]. intros [].
      apply keeps_rng_bind.
      { destruct (Qeq_bool p 0); [|intros w'; reflexivity].
        apply keeps_rng_bind; [apply keeps_rng_reads, int_true_divide_reads|].
        intros p' w'. reflexivity. }
      intros p' w'. reflexivity. }
  intros w' [-> ->]. apply Hgoal. intros i. reflexivity.
Qed.

(** X19: the random numbers of the fast path.  The fast path permutes
    [Y] once, whatever the number of blocks: after a call on [n >= 10]
    observations the generator is the one before the call advanced by
    [n // block_size + 1] draws, and [replication_factor] plays no part. *)
Theorem fast_path_draws (matrix_X matrix_Y : ndarray)
    (replication_factor : option Z) (w : world) :
  let n := shape0 matrix_X in
  let num_samples := n / 10 in
  let f := compute_distance_matrix (self w) in
  shape0 matrix_X = shape0 matrix_Y → 10 ≤ n →
  0 ≤ lag_bound (self w) n → 0 ≤ lag_bound (self w) 10 →
  distance_contract f →
  Qeq_bool (np_sqrt (inject_Z num_samples)) 0 = false →
  ∃ r w',
    p_value matrix_X matrix_Y replication_factor (Some true) w = (Ok r, w')
    ∧ ∀ i, rng w' i = rng w (Z.to_nat (n / ceil_sqrt n + 1) + i)%nat.
Proof.
  intros n num_samples f Hshape Hn HM HM10 Hcontract Hsqrt.
  destruct (p_value_fast_run matrix_X matrix_Y replication_factor w
              Hshape Hn HM HM10 Hcontract Hsqrt)
    as (observed & md0 & w0 & idx & w1 & PY & a & w3 & _ & _ & _ & _ & Hrun).
  pose proof (p_value_draws matrix_X matrix_Y replication_factor (Some true) w
                Hcontract w eq_refl) as Hdraws.
  rewrite Hrun in Hdraws. cbn [default from_option id] in Hdraws.
  eexists _, _. split; [exact Hrun|].
  intros i. rewrite Hdraws. f_equal. fold n. lia.
Qed.
(** ** The distance transform is applied twice *)

(** [p_value] transforms its inputs and hands the distance matrices to
    [test_statistic], which transforms them once more: the two calls agree
    when the transform leaves the matrices it produced as they are. *)
Lemma test_statistic_of_distances (matrix_X matrix_Y : ndarray) (w : world) :
  let f := compute_distance_matrix (self w) in
  let D := compute_distance (as_2d matrix_X) (as_2d matrix_Y) f in
  shape0 matrix_X = shape0 matrix_Y →
  distance_contract f →
  compute_distance D.1 D.2 f = D →
  test_statistic (Array2 D.1) (Array2 D.2) w = test_statistic matrix_X matrix_Y w.
Proof.
  intros f D Hshape Hcontract Hidem.
  destruct (Hcontract (as_2d matrix_X) (as_2d matrix_Y)) as [[HlX _] [HlY _]].
  fold D in HlX, HlY.
  assert (HsX : shape0 (Array2 D.1) = shape0 matrix_X).
  { cbn. rewrite HlX. symmetry. apply shape0_as_2d. }
  assert (HsY : shape0 (Array2 D.2) = shape0 matrix_X).
  { cbn. rewrite HlY, Hshape. symmetry. apply shape0_as_2d. }
  unfold test_statistic. rewrite HsX, HsY, <- Hshape, Z.eqb_refl.
  cbn [assert as_2d]. unfold bind at 1 3. cbn [ret].
  unfold bind at 1 2. cbn [get_self]. fold f. rewrite Hidem. fold D.
  reflexivity.
Qed.

(** X20: which statistic the p-value is about.  In the exact path the
    null samples are compared with the statistic that [test_statistic]
    returns on the same inputs, provided that [compute_distance] leaves the
    distance matrices it has produced unchanged when it is given them
    again (the observed statistic is computed from the distance matrices,
    through a second distance transform). *)
Theorem p_value_compares_with_test_statistic (matrix_X matrix_Y : ndarray)
    (replication_factor : option Z) (is_fast : option bool) (w : world) :
  let n := shape0 matrix_X in
  let rf := default 1000 replication_factor in
  let f := compute_distance_matrix (self w) in
  let D := compute_distance (as_2d matrix_X) (as_2d matrix_Y) f in
  shape0 matrix_X = shape0 matrix_Y → 1 ≤ n → 0 ≤ lag_bound (self w) n →
  distance_contract f → compute_distance D.1 D.2 f = D →
  default false is_fast = false → 1 ≤ rf →
  ∃ p metadata w' stats observed metadata0 w0,
    test_statistic matrix_X matrix_Y w = (Ok (observed, metadata0), w0)
    ∧ p_value matrix_X matrix_Y replication_factor is_fast w
      = (Ok (p, metadata), w')
    ∧ heap w' !! null_distribution metadata = Some stats
    ∧ p = claimed_p_value stats observed rf.
Proof.
  intros n rf f D Hshape Hn HM Hcontract Hidem Hfast Hrf.
  destruct (p_value_exact_run matrix_X matrix_Y replication_factor is_fast w
              Hshape Hn HM Hcontract Hfast Hrf)
    as (stats & observed & md0 & w0 & w2 & Hobs & _ & _ & Hrun).
  cbn zeta in Hrun.
  pose proof (test_statistic_of_distances matrix_X matrix_Y w Hshape Hcontract Hidem)
    as Hsame.
  cbn zeta in Hsame. rewrite Hsame in Hobs.
  eexists _, _, _, stats, observed, md0, w0.
  split; [exact Hobs|]. split; [exact Hrun|].
  cbn [heap null_distribution].
  split; [apply list_lookup_middle; reflexivity|reflexivity].
Qed.

(** ** The range of the statistic *)

Lemma Qsum_le_length (l : list Q) :
  Forall (λ x, (x <= 1)%Q) l → (Qsum l <= inject_Z (Z.of_nat (length l)))%Q.
Proof.
  induction 1 as [|x l Hx _ IH].
  - apply Qle_refl.
  - change (x + Qsum l <= inject_Z (Z.of_nat (S (length l))))%Q.
    rewrite Nat2Z.inj_succ. unfold Z.succ.
    rewrite inject_Z_plus, Qplus_comm.
    apply Qplus_le_compat; assumption.
Qed.

Lemma lag_value_le_1 (e : MGC) (matrix_X matrix_Y : matrix) (n j : Z) :
  (∀ A B, ((MGC_test_statistic e A B).1 <= 1)%Q) →
  0 < n → 0 ≤ j ≤ n →
  (lag_value e matrix_X matrix_Y n j <= 1)%Q.
Proof.
  intros He Hn Hj. unfold lag_value.
  destruct (lag_matrices matrix_X matrix_Y n j) as [A B].
  assert (Hm : (Qmax 0 (MGC_test_statistic e A B).1 <= 1)%Q).
  { apply Q.max_lub; [discriminate|apply He]. }
  assert (H0 : (0 <= Qmax 0 (MGC_test_statistic e A B).1)%Q) by apply Q.le_max_l.
  set (m := Qmax 0 (MGC_test_statistic e A B).1) in *.
  apply Qle_shift_div_r; [unfold Qlt; cbn; lia|].
  rewrite Qmult_1_l.
  apply Qle_trans with (inject_Z (n - j) * 1)%Q.
  - destruct (Z.eq_dec (n - j) 0) as [E|E].
    + rewrite E. rewrite !Qmult_0_l. apply Qle_refl.
    + apply Qmult_le_l; [unfold Qlt; cbn; lia|exact Hm].
  - rewrite Qmult_1_r. rewrite <- Zle_Qle. lia.
Qed.

(** X21: the range of the statistic.  When the statistic of the engine
    never exceeds 1 and the lag bound does not exceed the number of
    observations, every entry of [dependence_by_lag] lies in [[0, 1]] and
    the statistic lies in [[0, M + 1]]. *)
Theorem statistic_range (matrix_X matrix_Y : ndarray) (w : world) :
  let n := shape0 matrix_X in
  let M := lag_bound (self w) n in
  (∀ A B, ((MGC_test_statistic (mgc (self w)) A B).1 <= 1)%Q) →
  shape0 matrix_X = shape0 matrix_Y → 0 ≤ M ≤ n → n ≠ 0 ∨ M = 0 →
  ∃ statistic metadata w' arr,
    test_statistic matrix_X matrix_Y w = (Ok (statistic, metadata), w')
    ∧ heap w' !! dependence_by_lag metadata = Some arr
    ∧ (∀ j, 0 ≤ j ≤ M → (0 <= entry arr j)%Q ∧ (entry arr j <= 1)%Q)
    ∧ (0 <= statistic)%Q ∧ (statistic <= inject_Z (M + 1))%Q.
Proof.
  intros n M He Hshape HM Hn.
  pose proof (test_statistic_state matrix_X matrix_Y w Hshape (proj1 HM) Hn) as Hrun.
  cbn zeta in Hrun. fold n M in Hrun.
  set (D := compute_distance _ _ _) in Hrun.
  set (e := mgc (self w)) in *.
  set (arr := lag_values e D.1 D.2 n M) in *.
  pose proof (length_lag_values e D.1 D.2 n M (proj1 HM)) as Hlen. fold arr in Hlen.
  assert (Hentries : ∀ j, 0 ≤ j ≤ M →
            (0 <= entry arr j)%Q ∧ (entry arr j <= 1)%Q).
  { intros j Hj. unfold arr. rewrite entry_lag_values by lia.
    destruct (Z.eqb_spec j 0) as [->|Hj0].
    - split; [apply Q.le_max_l|]. apply Q.max_lub; [discriminate|apply He].
    - split; [apply lag_value_sign; lia|apply lag_value_le_1; [exact He|lia|lia]]. }
  assert (Hall : Forall (λ x, (0 <= x)%Q ∧ (x <= 1)%Q) arr).
  { apply Forall_lookup_2. intros i x Hi.
    pose proof (lookup_lt_Some _ _ _ Hi) as Hlt.
    specialize (Hentries (Z.of_nat i) ltac:(lia)).
    unfold entry in Hentries. rewrite item_inside, Nat2Z.id, Hi in Hentries by lia.
    exact Hentries. }
  eexists _, _, _, arr. split; [exact Hrun|].
  cbn [heap dependence_by_lag].
  split; [apply list_lookup_middle; reflexivity|].
  split; [exact Hentries|]. split.
  - apply Qsum_nonneg. eapply Forall_impl; [exact Hall|].
    intros x Hx. cbn in Hx. exact (proj1 Hx).
  - rewrite <- Hlen. apply Qsum_le_length. eapply Forall_impl; [exact Hall|].
    intros x Hx. cbn in Hx. exact (proj2 Hx).
Qed.
(** ** One more lag *)

Lemma lag_values_succ (e : MGC) (matrix_X matrix_Y : matrix) (n M : Z) :
  0 ≤ M →
  lag_values e matrix_X matrix_Y n (M + 1)
  = lag_values e matrix_X matrix_Y n M
    ++ [lag_value e matrix_X matrix_Y n (M + 1)].
Proof.
  intros HM. unfold lag_values, arange.
  replace (M + 1 + 1 - 1) with (Z.of_nat (S (Z.to_nat M))) by lia.
  replace (M + 1 - 1) with (Z.of_nat (Z.to_nat M)) by lia.
  rewrite seqZ_S, fmap_app. cbn [fmap list_fmap app].
  replace (1 + Z.of_nat (Z.to_nat M)) with (M + 1) by lia. reflexivity.
Qed.

(** X22: the statistic grows with [max_lag].  Raising [max_lag] from
    [M] to [M + 1 <= n] leaves the entries for the lags [0..M] as they
    were and adds one non-negative entry, so the statistic does not
    decrease: it increases by exactly that entry. *)
Theorem statistic_grows_with_max_lag (matrix_X matrix_Y : ndarray) (M : Z)
    (w : world) :
  let n := shape0 matrix_X in
  let w2 := with_self (set_max_lag (Some (M + 1)) (self w)) w in
  max_lag (self w) = Some M → 0 ≤ M → M + 1 ≤ n →
  shape0 matrix_X = shape0 matrix_Y →
  ∃ s1 md1 w1' s2 md2 w2' arr v,
    test_statistic matrix_X matrix_Y w = (Ok (s1, md1), w1')
    ∧ test_statistic matrix_X matrix_Y w2 = (Ok (s2, md2), w2')
    ∧ heap w1' !! dependence_by_lag md1 = Some arr
    ∧ heap w2' !! dependence_by_lag md2 = Some (arr ++ [v])
    ∧ (0 <= v)%Q
    ∧ s2 == s1 + v
    ∧ (s1 <= s2)%Q.
Proof.
  intros n w2 Hlag HM HMn Hshape.
  assert (HM1 : lag_bound (self w) n = M).
  { unfold lag_bound. rewrite Hlag. reflexivity. }
  assert (HM2 : lag_bound (self w2) n = M + 1) by reflexivity.
  pose proof (test_statistic_state matrix_X matrix_Y w Hshape) as H1.
  cbn zeta in H1. fold n in H1. rewrite HM1 in H1.
  specialize (H1 HM ltac:(left; lia)).
  pose proof (test_statistic_state matrix_X matrix_Y w2 Hshape) as H2.
  cbn zeta in H2. fold n in H2. rewrite HM2 in H2.
  specialize (H2 ltac:(lia) ltac:(left; lia)).
  cbn [w2 self with_self set_max_lag mgc compute_distance_matrix] in H2.
  set (D := compute_distance _ _ _) in *.
  set (e := mgc (self w)) in *.
  rewrite lag_values_succ in H2 by exact HM.
  set (arr := lag_values e D.1 D.2 n M) in *.
  set (v := lag_value e D.1 D.2 n (M + 1)) in *.
  assert (Hv : (0 <= v)%Q) by (apply lag_value_sign; lia).
  assert (Hsum : Qsum (arr ++ [v]) == Qsum arr + v).
  { rewrite Qsum_app. change (Qsum [v]) with (v + 0)%Q. ring. }
  eexists _, _, _, _, _, _, arr, v.
  split; [exact H1|]. split; [exact H2|].
  cbn [heap dependence_by_lag with_self].
  split; [apply list_lookup_middle; reflexivity|].
  split; [apply list_lookup_middle; reflexivity|].
  split; [exact Hv|]. split; [exact Hsum|].
  rewrite Hsum. rewrite <- (Qplus_0_r (Qsum arr)) at 1.
  apply Qplus_le_compat; [apply Qle_refl|exact Hv].
Qed.

End MGCX.

(** * The concrete environment and examples *)

Lemma Demo_to_distance_square (m : matrix) :
  is_square (length m) (Demo.to_distance Demo.pairwise m).
Proof.
  unfold Demo.to_distance. destruct (Demo.is_distance m) eqn:E.
  - unfold Demo.is_distance in E. apply andb_prop in E as [E _].
    split; [reflexivity|]. apply Forall_forall. intros r Hr.
    rewrite forallb_forall in E. apply list_elem_of_In in Hr.
    apply Nat.eqb_eq. apply E. exact Hr.
  - unfold Demo.pairwise. split; [apply length_fmap|].
    apply Forall_fmap, Forall_forall. intros r _. cbn. apply length_fmap.
Qed.

Lemma Demo_contract : distance_contract Demo.compute_distance None.
Proof.
  intros X Y. cbn. split; apply Demo_to_distance_square.
Qed.

(** ** Examples: the theorems at concrete inputs *)

Lemma statistic_is_sum_of_lags_example :
  let w := Demo.start (Demo.object (Some 2) Demo.engine) in
  ∃ statistic metadata w' arr,
    test_statistic Demo.compute_distance Demo.X4 Demo.Y4 w
    = (Ok (statistic, metadata), w')
    ∧ heap w' !! dependence_by_lag metadata = Some arr
    ∧ Z.of_nat (length arr) = 2 + 1
    ∧ statistic = sum_over (entry arr) 0 2
    ∧ test_statistic_ (self w') = Some statistic.
Proof.
  intros w.
  apply (statistic_is_sum_of_lags Demo.compute_distance Demo.X4 Demo.Y4 w).
  - reflexivity.
  - vm_compute. discriminate.
  - left. vm_compute. discriminate.
Defined.

Lemma dependence_by_lag_values_example :
  let w := Demo.start (Demo.object (Some 2) Demo.engine) in
  let D := Demo.compute_distance (as_2d Demo.X4) (as_2d Demo.Y4) None in
  ∃ statistic metadata w' arr,
    test_statistic Demo.compute_distance Demo.X4 Demo.Y4 w
    = (Ok (statistic, metadata), w')
    ∧ heap w' !! dependence_by_lag metadata = Some arr
    ∧ Z.of_nat (length arr) = 2 + 1
    ∧ ∀ j, 0 ≤ j ≤ 2 → j ≤ 4 →
        ∃ v, arr !! Z.to_nat j = Some v
             ∧ v == claimed_lag_value Demo.engine D.1 D.2 4 j.
Proof.
  intros w D.
  apply (dependence_by_lag_values Demo.compute_distance Demo.X4 Demo.Y4 w).
  - reflexivity.
  - vm_compute. split; [reflexivity|]. repeat constructor.
  - vm_compute. split; [reflexivity|]. repeat constructor.
  - vm_compute. discriminate.
  - left. vm_compute. discriminate.
Defined.

Lemma default_lag_bound_example :
  let w := Demo.start (MGCX_init Demo.engine Demo.base_init None (Some None)) in
  runs_with_lag_bound Demo.compute_distance Demo.X4 Demo.Y4 w (ceil_sqrt 4).
Proof.
  intros w.
  apply (default_lag_bound Demo.engine Demo.compute_distance Demo.base_init
           None Demo.X4 Demo.Y4 w).
  - reflexivity.
  - reflexivity.
Defined.

Lemma shape_mismatch_fails_at_entry_example :
  let w := Demo.start (Demo.object (Some 2) Demo.engine) in
  test_statistic Demo.compute_distance Demo.X4 Demo.Y10 w
    = (Raise (AssertionError shape_message), w)
  ∧ p_value Demo.compute_distance Demo.sqrt3 Demo.cdf Demo.X4 Demo.Y10
      None None w
    = (Raise (AssertionError shape_message), w).
Proof.
  intros w.
  apply (shape_mismatch_fails_at_entry Demo.compute_distance Demo.sqrt3
           Demo.cdf Demo.X4 Demo.Y10 None None w).
  vm_compute. discriminate.
Defined.

Lemma permuted_indices_in_bounds_example :
  let w := Demo.start (Demo.object (Some 2) Demo.engine) in
  ∃ permuted_indices w',
    block_permutation 4 (ceil_sqrt 4) w = (Ok permuted_indices, w')
    ∧ Z.of_nat (length permuted_indices) = 4
    ∧ Forall (λ x, 0 ≤ x < 4) permuted_indices
    ∧ ∀ dist_Y, is_square (Z.to_nat 4) dist_Y →
        ∃ permuted_Y,
          ix_ dist_Y permuted_indices permuted_indices w' = (Ok permuted_Y, w')
          ∧ is_square (Z.to_nat 4) permuted_Y.
Proof.
  intros w. apply (permuted_indices_in_bounds 4 w). lia.
Defined.

Lemma block_starts_drawn_example :
  let w := Demo.start (Demo.object (Some 2) Demo.engine) in
  ∃ starts w',
    block_starts 10 (ceil_sqrt 10) w = (Ok starts, w')
    ∧ block_permutation 10 (ceil_sqrt 10) w
      = (Ok (blocks_of starts 10 (ceil_sqrt 10)), w')
    ∧ Z.of_nat (length starts) = 10 / ceil_sqrt 10 + 1
    ∧ Forall (λ t, 0 ≤ t < 10) starts
    ∧ (∀ k : nat, Z.of_nat k < 10 / ceil_sqrt 10 + 1 →
         starts !! k = Some (rng w k `mod` 10))
    ∧ Z.of_nat (length (blocks_of starts 10 (ceil_sqrt 10))) = 10
    ∧ ∀ i : nat, Z.of_nat i < 10 →
        ∃ t, starts !! (i / Z.to_nat (ceil_sqrt 10))%nat = Some t
             ∧ blocks_of starts 10 (ceil_sqrt 10) !! i
               = Some ((t + Z.of_nat (i mod Z.to_nat (ceil_sqrt 10))) `mod` 10).
Proof.
  intros w. apply (block_starts_drawn 10 w). lia.
Defined.

Lemma exact_p_value_example :
  let w := Demo.start (Demo.object (Some 1) Demo.engine) in
  let D := Demo.compute_distance (as_2d Demo.X4) (as_2d Demo.Y4) None in
  (∃ metadata w1',
     empirical_p_value [1 # 2; 3 # 4; 1]%Q (1 # 2) 3 w
     = (Ok ((2 # 3)%Q, metadata), w1')
     ∧ heap w1' !! null_distribution metadata = Some [1 # 2; 3 # 4; 1]%Q)
  ∧ (∃ metadata w1',
     empirical_p_value [1 # 2; 1 # 4; 1 # 4]%Q (1 # 2) 3 w
     = (Ok ((1 # 3)%Q, metadata), w1'))
  ∧ ∃ p metadata w' stats observed metadata0 w0,
    test_statistic Demo.compute_distance (Array2 D.1) (Array2 D.2) w
    = (Ok (observed, metadata0), w0)
    ∧ p_value Demo.compute_distance Demo.sqrt3 Demo.cdf Demo.X4 Demo.Y4
        (Some 3) None w
      = (Ok (p, metadata), w')
    ∧ heap w' !! null_distribution metadata = Some stats
    ∧ Z.of_nat (length stats) = 3
    ∧ 0 ≤ count_above stats observed ≤ 3
    ∧ (count_above stats observed ≠ 0 →
       p = (inject_Z (count_above stats observed) / inject_Z 3)%Q)
    ∧ (count_above stats observed = 0 → p = (1 / inject_Z 3)%Q)
    ∧ p = claimed_p_value stats observed 3
    ∧ (0 < p)%Q ∧ (p <= 1)%Q
    ∧ p_value_ (self w') = Some p.
Proof.
  intros w D.
  destruct (exact_p_value Demo.compute_distance Demo.sqrt3 Demo.cdf
              Demo.X4 Demo.Y4 (Some 3) None w) as [Hlines Hcall].
  - reflexivity.
  - vm_compute. discriminate.
  - vm_compute. discriminate.
  - exact Demo_contract.
  - reflexivity.
  - vm_compute. discriminate.
  - split; [|split; [|exact Hcall]].
    + destruct (Hlines [1 # 2; 3 # 4; 1]%Q (1 # 2)%Q w eq_refl)
        as (p & md & w1' & Hrun & Hheap & _ & Hp & _).
      rewrite (Hp ltac:(discriminate)) in Hrun.
      exists md, w1'. split; [exact Hrun|exact Hheap].
    + destruct (Hlines [1 # 2; 1 # 4; 1 # 4]%Q (1 # 2)%Q w eq_refl)
        as (p & md & w1' & Hrun & _ & _ & _ & Hp & _).
      rewrite (Hp eq_refl) in Hrun.
      exists md, w1'. exact Hrun.
Defined.

Lemma one_dimensional_input_example :
  let w := Demo.start (Demo.object (Some 1) Demo.engine) in
  let v := [0; 1; 3; 6]%Q in
  let col := [[0]; [1]; [3]; [6]]%Q in
  as_2d (Array1 v) = col
  ∧ (test_statistic Demo.compute_distance (Array1 v) Demo.Y4 w
     = test_statistic Demo.compute_distance (Array2 col) Demo.Y4 w
     ∧ test_statistic Demo.compute_distance Demo.Y4 (Array1 v) w
       = test_statistic Demo.compute_distance Demo.Y4 (Array2 col) w
     ∧ p_value Demo.compute_distance Demo.sqrt3 Demo.cdf
         (Array1 v) Demo.Y4 (Some 3) None w
       = p_value Demo.compute_distance Demo.sqrt3 Demo.cdf
           (Array2 col) Demo.Y4 (Some 3) None w
     ∧ p_value Demo.compute_distance Demo.sqrt3 Demo.cdf
         Demo.Y4 (Array1 v) (Some 3) None w
       = p_value Demo.compute_distance Demo.sqrt3 Demo.cdf
           Demo.Y4 (Array2 col) (Some 3) None w)
  ∧ (∃ r w', test_statistic Demo.compute_distance (Array1 v) Demo.Y4 w = (Ok r, w'))
  ∧ (∃ r w', test_statistic Demo.compute_distance Demo.Y4 (Array1 v) w = (Ok r, w'))
  ∧ (∃ r w', p_value Demo.compute_distance Demo.sqrt3 Demo.cdf
               (Array1 v) Demo.Y4 (Some 3) None w = (Ok r, w'))
  ∧ (∃ r w', p_value Demo.compute_distance Demo.sqrt3 Demo.cdf
               Demo.Y4 (Array1 v) (Some 3) None w = (Ok r, w')).
Proof.
  intros w v col.
  assert (Hcol : is_column_of v col).
  { split; [reflexivity|]. intros i x Hx.
    destruct i as [|[|[|[|i]]]]; cbn in Hx;
      try (injection Hx as <-; reflexivity).
    discriminate Hx. }
  destruct (one_dimensional_input Demo.compute_distance Demo.sqrt3 Demo.cdf
              v Demo.Y4 (Some 3) None w) as (_ & _ & Hsame & H).
  split; [reflexivity|]. split; [exact (Hsame col Hcol)|].
  destruct H as (H1 & H2 & H3).
  - reflexivity.
  - vm_compute. discriminate.
  - vm_compute. discriminate.
  - split; [exact H1|]. split; [exact H2|].
    apply H3.
    + exact Demo_contract.
    + reflexivity.
    + vm_compute. discriminate.
Defined.

(** ** Counterexamples: statements of the specification the code does not
    satisfy *)

(** C2 as stated, with [ceil(n / block_size) + 1] draws, fails for [n = 3]:
    the block size is 2, the code draws [3 // 2 + 1 = 2] starting indices,
    and [ceil(3 / 2) + 1] is 3. *)
Lemma block_starts_count_counterexample :
  let w := Demo.start (Demo.object (Some 0) Demo.engine) in
  ∃ starts w',
    block_starts 3 (ceil_sqrt 3) w = (Ok starts, w')
    ∧ Z.of_nat (length starts) ≠ ceil_div 3 (ceil_sqrt 3) + 1.
Proof.
  intros w. eexists _, _. split; [reflexivity|].
  vm_compute. discriminate.
Qed.

(** C4 as stated fails for an object built without [max_lag] and a series
    of four observations: [ceil(sqrt(4))] is 2, and [test_statistic] runs
    with the lag bound 0. *)
Lemma omitted_max_lag_counterexample :
  let w := Demo.start (MGCX_init Demo.engine Demo.base_init None None) in
  ¬ runs_with_lag_bound Demo.compute_distance Demo.X4 Demo.Y4 w
      (ceil_sqrt (shape0 Demo.X4)).
Proof.
  intros w H.
  assert (H0 : runs_with_lag_bound Demo.compute_distance Demo.X4 Demo.Y4 w 0).
  { apply (runs_with_lag_bound_intro Demo.compute_distance Demo.X4 Demo.Y4 w).
    - reflexivity.
    - vm_compute. discriminate.
    - right. reflexivity. }
  pose proof (runs_with_lag_bound_unique _ _ _ _ _ _ H H0) as E.
  vm_compute in E. discriminate.
Qed.

(** C5 as stated fails for a lag beyond the length of the series.  With two
    observations and [max_lag = 3], the slice [matrix_Y[0:(n-j), 0:(n-j)]] at
    [j = 3] is [matrix_Y[0:-1, 0:-1]], the leading 1-by-1 block, and not the
    empty matrix that is left when the last three rows and columns are
    dropped (the fourth call in the engine log shows it); an engine that
    tells them apart gives another entry. *)
Lemma lag_beyond_series_counterexample :
  let X := Array2 [[0; 1]; [1; 0]]%Q in
  let w := Demo.start (Demo.object (Some 3) Demo.rows_engine) in
  let D := Demo.compute_distance (as_2d X) (as_2d X) None in
  ∃ r w' arr v,
    test_statistic Demo.compute_distance X X w = (Ok r, w')
    ∧ heap w' !! dependence_by_lag r.2 = Some arr
    ∧ arr !! 3%nat = Some v
    ∧ ¬ (v == claimed_lag_value Demo.rows_engine D.1 D.2 2 3)
    ∧ engine_log w' !! 3%nat = Some ([], [[0%Q]])
    ∧ (drop_first 3 D.1, drop_last 3 D.2) = ([], []).
Proof.
  intros X w D.
  destruct (test_statistic_run Demo.compute_distance X X w) as (l & sc & Hrun).
  - reflexivity.
  - vm_compute. discriminate.
  - left. vm_compute. discriminate.
  - cbn zeta in Hrun. eexists _, _, _, _. split; [exact Hrun|].
    cbn [heap snd dependence_by_lag engine_log].
    split; [apply list_lookup_middle; reflexivity|].
    split; [reflexivity|].
    split; [vm_compute; discriminate|].
    split; reflexivity.
Qed.

(** C9 as stated fails: after a call that returns, the fields
    [test_statistic_] and [test_statistic_metadata_] of the test object hold
    the results, so the object is not what it was. *)
Lemma test_statistic_assigns_fields_counterexample :
  let w := Demo.start (Demo.object (Some 2) Demo.engine) in
  ∃ r w',
    test_statistic Demo.compute_distance Demo.X4 Demo.Y4 w = (Ok r, w')
    ∧ self w' ≠ self w.
Proof.
  intros w.
  destruct (test_statistic_run Demo.compute_distance Demo.X4 Demo.Y4 w)
    as (l & sc & Hrun).
  - reflexivity.
  - vm_compute. discriminate.
  - left. vm_compute. discriminate.
  - cbn zeta in Hrun. eexists _, _. split; [exact Hrun|].
    cbn [self]. intros E. apply (f_equal test_statistic_) in E.
    discriminate E.
Qed.

(** ** The fast path on ten observations *)

Lemma fast_null_set_is_zero_padded_example :
  let w := Demo.start (Demo.object (Some 0) Demo.engine) in
  let D := Demo.compute_distance (as_2d Demo.X10) (as_2d Demo.Y10) None in
  ∃ p metadata w' arr observed metadata0 w0 permuted_indices w1 permuted_Y,
    test_statistic Demo.compute_distance (Array2 D.1) (Array2 D.2) w
    = (Ok (observed, metadata0), w0)
    ∧ block_permutation 10 (ceil_sqrt 10) w0 = (Ok permuted_indices, w1)
    ∧ ix_select D.2 permuted_indices permuted_indices = Some permuted_Y
    ∧ p_value Demo.compute_distance Demo.sqrt3 Demo.cdf Demo.X10 Demo.Y10
        None (Some true) w
      = (Ok (p, metadata), w')
    ∧ heap w' !! null_distribution metadata = Some arr
    ∧ Z.of_nat (length arr) = 1 * 10
    ∧ arr = (block_statistic Demo.compute_distance None (Some 0) Demo.engine
               D.1 permuted_Y 10 <$> arange 0 1)
            ++ replicate (Z.to_nat (1 * 9)) 0%Q
    ∧ (let len := inject_Z (1 * 10) in
       let mu := (Qsum arr / len)%Q in
       let sigma :=
         (Demo.sqrt3 (Qsum ((λ x, (x - mu) * (x - mu))%Q <$> arr) / len)
          / Demo.sqrt3 (inject_Z 1))%Q in
       p = (1 - Demo.cdf observed mu sigma)%Q)
    ∧ (Qsum arr / inject_Z (1 * 10) * 10
       == Qsum (take (Z.to_nat 1) arr) / inject_Z 1)
    ∧ p_value_ (self w') = Some p.
Proof.
  intros w D.
  apply (fast_null_set_is_zero_padded Demo.compute_distance Demo.sqrt3 Demo.cdf
           Demo.X10 Demo.Y10 None w).
  - reflexivity.
  - vm_compute. discriminate.
  - vm_compute. discriminate.
  - vm_compute. discriminate.
  - exact Demo_contract.
  - reflexivity.
Defined.

(** The same call, evaluated: one block of ten observations gives one
    statistic, 1227, and the null distribution is that value followed by nine
    zeros, so that the mean the p-value uses is 1227/10. *)
Lemma fast_null_set_on_ten_observations :
  let w := Demo.start (Demo.object (Some 0) Demo.engine) in
  let r := p_value Demo.compute_distance Demo.sqrt3 Demo.cdf
             Demo.X10 Demo.Y10 None (Some true) w in
  ∃ p metadata arr,
    r.1 = Ok (p, metadata)
    ∧ heap r.2 !! null_distribution metadata = Some arr
    ∧ Forall2 Qeq arr (1227 :: replicate 9 0)%Q
    ∧ shape0 Demo.X10 / 10 = 1
    ∧ Qsum arr / inject_Z (Z.of_nat (length arr)) == 1227 / 10.
Proof.
  intros w r.
  assert (Hr : ∃ p, r.1 = Ok (p, {| null_distribution := 1%nat |})).
  { vm_compute. eexists. reflexivity. }
  destruct Hr as [p Hr].
  exists p, {| null_distribution := 1%nat |}.
  eexists. split; [exact Hr|].
  split; [vm_compute; reflexivity|].
  split; [|split; [reflexivity|vm_compute; reflexivity]].
  repeat constructor.
Qed.

(** * The simulators of [ts_benchmarks.py] *)

Lemma np_random_normal_run (loc scale : Q) (size : Z) (g : variates) :
  0 ≤ size → (0 <= scale)%Q →
  np_random_normal loc scale size g
  = Ok ((λ i, loc + scale * g i)%Q <$> seq 0 (Z.to_nat size),
        λ i, g (Z.to_nat size + i)%nat).
Proof.
  intros Hsize Hscale. unfold np_random_normal, Qltb.
  destruct (Z.ltb_spec size 0); [lia|].
  apply Qle_bool_iff in Hscale. rewrite Hscale. reflexivity.
Qed.

Lemma np_random_uniform_run (low high : Q) (size : Z) (g : variates) :
  0 ≤ size →
  np_random_uniform low high size g
  = Ok ((λ i, low + (high - low) * g i)%Q <$> seq 0 (Z.to_nat size),
        λ i, g (Z.to_nat size + i)%nat).
Proof.
  intros Hsize. unfold np_random_uniform.
  destruct (Z.ltb_spec size 0); [lia|reflexivity].
Qed.

Lemma store_inside {A} (l : list A) (k : nat) (v : A) :
  (k < length l)%nat → store l (Z.of_nat k) v = Some (<[k := v]> l).
Proof.
  intros Hk. unfold store. rewrite norm_index_inside by lia.
  rewrite Nat2Z.id. reflexivity.
Qed.

Lemma item_at {A} (l : list A) (k : nat) (x : A) :
  l !! k = Some x → item l (Z.of_nat k) = Some x.
Proof.
  intros Hx. pose proof (lookup_lt_Some _ _ _ Hx).
  rewrite item_inside by lia. rewrite Nat2Z.id. exact Hx.
Qed.

Lemma item_pred {A} (l : list A) (k : nat) (x : A) :
  (1 ≤ k)%nat → l !! (k - 1)%nat = Some x → item l (Z.of_nat k - 1) = Some x.
Proof.
  intros Hk Hx. replace (Z.of_nat k - 1) with (Z.of_nat (k - 1)) by lia.
  apply item_at, Hx.
Qed.

(** Entry [k] written, [k] entries before it filled already. *)
Lemma insert_filled (f : nat → Q) (k m : nat) :
  <[k := f k]> ((f <$> seq 0 k) ++ replicate (S m) 0%Q)
  = (f <$> seq 0 (S k)) ++ replicate m 0%Q.
Proof.
  rewrite insert_app_r_alt by (rewrite length_fmap, length_seq; lia).
  rewrite length_fmap, length_seq, Nat.sub_diag. cbn [replicate insert list_insert].
  rewrite seq_S, fmap_app, <- app_assoc. reflexivity.
Qed.

(** The loops of the simulators fill [X] and [Y] from left to right: a
    body that writes [fx k] and [fy k] at [k], given the entries at
    [k - 1], leaves the arrays [fx 0, ..., fx (n-1)] and
    [fy 0, ..., fy (n-1)]. *)
Lemma loop_fills (body : Z → list Q * list Q → option (list Q * list Q))
    (fx fy : nat → Q) (n : nat) :
  (∀ (k : nat) (X Y : list Q),
     (1 ≤ k < n)%nat → length X = n → length Y = n →
     X !! (k - 1)%nat = Some (fx (k - 1)%nat) →
     Y !! (k - 1)%nat = Some (fy (k - 1)%nat) →
     body (Z.of_nat k) (X, Y) = Some (<[k := fx k]> X, <[k := fy k]> Y)) →
  ∀ (m k : nat), (1 ≤ k)%nat → (k + m = n)%nat →
    loop_opt (seqZ (Z.of_nat k) (Z.of_nat m)) body
      ((fx <$> seq 0 k) ++ replicate m 0%Q, (fy <$> seq 0 k) ++ replicate m 0%Q)
    = Some (fx <$> seq 0 n, fy <$> seq 0 n).
Proof.
  intros Hbody. induction m as [|m IH]; intros k Hk Hn.
  - cbn. rewrite !app_nil_r. replace k with n by lia. reflexivity.
  - rewrite seqZ_cons by lia. cbn [loop_opt].
    assert (Hlen : ∀ f : nat → Q,
              length ((f <$> seq 0 k) ++ replicate (S m) 0%Q) = n).
    { intros f. rewrite length_app, length_fmap, length_seq, length_replicate. lia. }
    assert (Hprev : ∀ f : nat → Q,
              ((f <$> seq 0 k) ++ replicate (S m) 0%Q) !! (k - 1)%nat
              = Some (f (k - 1)%nat)).
    { intros f. rewrite lookup_app_l by (rewrite length_fmap, length_seq; lia).
      rewrite list_lookup_fmap, lookup_seq_lt by lia. reflexivity. }
    rewrite Hbody; [|lia|apply Hlen|apply Hlen|apply Hprev|apply Hprev].
    cbn [mbind option_bind]. rewrite !insert_filled.
    replace (Z.succ (Z.of_nat k)) with (Z.of_nat (S k)) by lia.
    replace (Z.pred (Z.of_nat (S m))) with (Z.of_nat m) by lia.
    apply IH; lia.
Qed.

Lemma simulate_arrays_run (body : Z → list Q * list Q → option (list Q * list Q))
    (a b : nat → Q) (fx fy : nat → Q) (n : nat) :
  (1 ≤ n)%nat → fx O = a O → fy O = b O →
  (∀ (k : nat) (X Y : list Q),
     (1 ≤ k < n)%nat → length X = n → length Y = n →
     X !! (k - 1)%nat = Some (fx (k - 1)%nat) →
     Y !! (k - 1)%nat = Some (fy (k - 1)%nat) →
     body (Z.of_nat k) (X, Y) = Some (<[k := fx k]> X, <[k := fy k]> Y)) →
  simulate_arrays (Z.of_nat n) (a <$> seq 0 n) (b <$> seq 0 n) body
  = Some (fx <$> seq 0 n, fy <$> seq 0 n).
Proof.
  intros Hn Hx0 Hy0 Hbody. unfold simulate_arrays.
  rewrite Nat2Z.id. destruct n as [|m]; [lia|].
  change 0 with (Z.of_nat 0).
  rewrite (item_at (a <$> seq 0 (S m)) 0 (a O)) by reflexivity.
  cbn [mbind option_bind].
  rewrite store_inside by (rewrite length_replicate; lia).
  cbn [mbind option_bind].
  rewrite (item_at (b <$> seq 0 (S m)) 0 (b O)) by reflexivity.
  cbn [mbind option_bind].
  rewrite store_inside by (rewrite length_replicate; lia).
  cbn [mbind option_bind replicate insert list_insert].
  rewrite <- Hx0, <- Hy0. unfold arange.
  replace (Z.of_nat (S m) - 1) with (Z.of_nat m) by lia.
  change 1 with (Z.of_nat 1).
  apply (loop_fills body fx fy (S m) Hbody m 1); lia.
Qed.
Lemma lookup_draws (a : nat → Q) (n k : nat) :
  (k < n)%nat → (a <$> seq 0 n) !! k = Some (a k).
Proof.
  intros Hk. rewrite list_lookup_fmap, lookup_seq_lt by exact Hk. reflexivity.
Qed.

(** One turn of each of the three loops. *)
Lemma IndependentAR1_body_step (phi : Q) (a b : nat → Q) (n k : nat)
    (X Y : list Q) (x y : Q) :
  (1 ≤ k < n)%nat → length X = n → length Y = n →
  X !! (k - 1)%nat = Some x → Y !! (k - 1)%nat = Some y →
  IndependentAR1_body phi (a <$> seq 0 n) (b <$> seq 0 n) (Z.of_nat k) (X, Y)
  = Some (<[k := (phi * x + a k)%Q]> X, <[k := (phi * y + b k)%Q]> Y).
Proof.
  intros Hk HX HY Hx Hy. unfold IndependentAR1_body.
  rewrite (item_pred X k x) by (lia || exact Hx). cbn [mbind option_bind].
  rewrite (item_at (a <$> seq 0 n) k (a k)) by (apply lookup_draws; lia).
  cbn [mbind option_bind].
  rewrite store_inside by lia. cbn [mbind option_bind].
  rewrite (item_pred Y k y) by (lia || exact Hy). cbn [mbind option_bind].
  rewrite (item_at (b <$> seq 0 n) k (b k)) by (apply lookup_draws; lia).
  cbn [mbind option_bind].
  rewrite store_inside by lia. reflexivity.
Qed.

Lemma CorrelatedAR1_body_step (phi : Q) (a b : nat → Q) (n k : nat)
    (X Y : list Q) (x y : Q) :
  (1 ≤ k < n)%nat → length X = n → length Y = n →
  X !! (k - 1)%nat = Some x → Y !! (k - 1)%nat = Some y →
  CorrelatedAR1_body phi (a <$> seq 0 n) (b <$> seq 0 n) (Z.of_nat k) (X, Y)
  = Some (<[k := (phi * y + a k)%Q]> X, <[k := (phi * x + b k)%Q]> Y).
Proof.
  intros Hk HX HY Hx Hy. unfold CorrelatedAR1_body.
  rewrite (item_pred Y k y) by (lia || exact Hy). cbn [mbind option_bind].
  rewrite (item_at (a <$> seq 0 n) k (a k)) by (apply lookup_draws; lia).
  cbn [mbind option_bind].
  rewrite store_inside by lia. cbn [mbind option_bind].
  rewrite (item_pred (<[k := (phi * y + a k)%Q]> X) k x);
    [|lia|rewrite list_lookup_insert_ne by lia; exact Hx].
  cbn [mbind option_bind].
  rewrite (item_at (b <$> seq 0 n) k (b k)) by (apply lookup_draws; lia).
  cbn [mbind option_bind].
  rewrite store_inside by lia. reflexivity.
Qed.

Lemma NonlinearLag1_body_step (a b : nat → Q) (n k : nat)
    (X Y : list Q) (y : Q) :
  (1 ≤ k < n)%nat → length X = n → length Y = n →
  Y !! (k - 1)%nat = Some y →
  NonlinearLag1_body (a <$> seq 0 n) (b <$> seq 0 n) (Z.of_nat k) (X, Y)
  = Some (<[k := (a k * y)%Q]> X, <[k := b k]> Y).
Proof.
  intros Hk HX HY Hy. unfold NonlinearLag1_body.
  rewrite (item_at (a <$> seq 0 n) k (a k)) by (apply lookup_draws; lia).
  cbn [mbind option_bind].
  rewrite (item_pred Y k y) by (lia || exact Hy). cbn [mbind option_bind].
  rewrite store_inside by lia. cbn [mbind option_bind].
  rewrite (item_at (b <$> seq 0 n) k (b k)) by (apply lookup_draws; lia).
  cbn [mbind option_bind].
  rewrite store_inside by lia. reflexivity.
Qed.

(** The autoregression, unfolded. *)
Lemma Qsum_scaled (c : Q) (f h : nat → Q) (l : list nat) :
  (∀ k, k ∈ l → h k == c * f k) →
  Qsum (h <$> l) == c * Qsum (f <$> l).
Proof.
  induction l as [|k l IH]; intros Hh.
  - change (0 == c * 0). ring.
  - change (h k + Qsum (h <$> l) == c * (f k + Qsum (f <$> l))).
    rewrite IH by (intros j Hj; apply Hh; right; exact Hj).
    rewrite (Hh k) by left. ring.
Qed.

Lemma autoregression_unfolded (phi : Q) (a : nat → Q) (t : nat) :
  autoregression phi a t == discounted_sum phi a t.
Proof.
  induction t as [|t IH].
  - change (a O == 1 * a O + 0). ring.
  - cbn [autoregression]. rewrite IH. unfold discounted_sum.
    rewrite (seq_S (S t)), fmap_app, Qsum_app.
    rewrite (Qsum_scaled phi (λ k, phi ^ Z.of_nat (t - k) * a k)%Q
               (λ k, phi ^ Z.of_nat (S t - k) * a k)%Q (seq 0 (S t))).
    + change (Qsum ((λ k, phi ^ Z.of_nat (S t - k) * a k)%Q <$> [(0 + S t)%nat]))
        with (phi ^ Z.of_nat (S t - S t) * a (S t) + 0)%Q.
      rewrite Nat.sub_diag. change (phi ^ Z.of_nat 0)%Q with 1%Q. ring.
    + intros k Hk. apply elem_of_seq in Hk.
      replace (Z.of_nat (S t - k)) with (1 + Z.of_nat (t - k)) by lia.
      rewrite Qpower_plus' by lia. change (phi ^ 1)%Q with phi. ring.
Qed.

(** X14: what [IndependentAR1.simulate] returns.  For [n >= 1] and a
    scale [sigma2 >= 0] it returns two series of length [n] and has consumed
    [2 * n] variates: [X[t]] is the sum of [phi ^ (t - k)] times the [k]-th
    innovation over [k <= t], the innovations of [X] being [sigma2] times
    the first [n] variates and those of [Y], [sigma2] times the next [n];
    no variate enters both series. *)
Theorem independent_ar1_closed_form (n : Z) (phi sigma2 : option Q)
    (g : variates) :
  let p := default (1 # 2)%Q phi in
  let s := default 1%Q sigma2 in
  let epsilon := λ t : nat, (0 + s * g t)%Q in
  let eta := λ t : nat, (0 + s * g (Z.to_nat n + t)%nat)%Q in
  1 ≤ n → (0 <= s)%Q →
  ∃ X Y g',
    IndependentAR1_simulate n phi sigma2 g = Ok ((X, Y), g')
    ∧ Z.of_nat (length X) = n ∧ Z.of_nat (length Y) = n
    ∧ (∀ i, g' i = g (2 * Z.to_nat n + i)%nat)
    ∧ ∀ t : nat, Z.of_nat t < n →
        ∃ x y, X !! t = Some x ∧ Y !! t = Some y
               ∧ x == discounted_sum p epsilon t
               ∧ y == discounted_sum p eta t.
Proof.
  intros p s epsilon eta Hn Hs.
  set (N := Z.to_nat n).
  exists (autoregression p epsilon <$> seq 0 N),
         (autoregression p eta <$> seq 0 N),
         (λ i, g (N + (N + i))%nat).
  split.
  - unfold IndependentAR1_simulate. fold p s.
    rewrite np_random_normal_run by (lia || exact Hs). cbv beta iota. fold N.
    rewrite np_random_normal_run by (lia || exact Hs). cbv beta iota. fold N.
    change ((λ i, 0 + s * g i)%Q <$> seq 0 N) with (epsilon <$> seq 0 N).
    change ((λ i, 0 + s * g (N + i)%nat)%Q <$> seq 0 N) with (eta <$> seq 0 N).
    rewrite <- (Z2Nat.id n) at 1 by lia. fold N.
    rewrite (simulate_arrays_run _ epsilon eta
               (autoregression p epsilon) (autoregression p eta) N);
      [reflexivity|lia|reflexivity|reflexivity|].
    intros k X Y Hk HX HY Hx Hy.
    rewrite (IndependentAR1_body_step p epsilon eta N k X Y _ _ Hk HX HY Hx Hy).
    destruct k as [|k]; [lia|].
    cbn [Nat.sub autoregression]. rewrite Nat.sub_0_r. reflexivity.
  - split; [rewrite length_fmap, length_seq; lia|].
    split; [rewrite length_fmap, length_seq; lia|].
    split; [intros i; f_equal; lia|].
    intros t Ht. eexists _, _.
    split; [apply lookup_draws; lia|]. split; [apply lookup_draws; lia|].
    split; apply autoregression_unfolded.
Qed.

(** X15: what [CorrelatedAR1.simulate] returns.  For [n >= 1] each series
    is driven by the previous value of the other one: [X[t]] is
    [phi * Y[t-1]] plus the [t]-th of the first [n] variates, taken as
    they are (uniform), and [Y[t]] is [phi * X[t-1]] plus the [t]-th of the
    next [n] variates; the argument [sigma2] has no effect. *)
Theorem correlated_ar1_recurrence (n : Z) (phi sigma2 : option Q)
    (g : variates) :
  let p := default (1 # 2)%Q phi in
  let epsilon := λ t : nat, (0 + (1 - 0) * g t)%Q in
  let eta := λ t : nat, (0 + 1 * g (Z.to_nat n + t)%nat)%Q in
  1 ≤ n →
  ∃ X Y g',
    CorrelatedAR1_simulate n phi sigma2 g = Ok ((X, Y), g')
    ∧ Z.of_nat (length X) = n ∧ Z.of_nat (length Y) = n
    ∧ (∀ i, g' i = g (2 * Z.to_nat n + i)%nat)
    ∧ X !! 0%nat = Some (epsilon 0%nat) ∧ Y !! 0%nat = Some (eta 0%nat)
    ∧ ∀ t : nat, Z.of_nat (S t) < n →
        ∃ x y, X !! t = Some x ∧ Y !! t = Some y
               ∧ X !! S t = Some (p * y + epsilon (S t))%Q
               ∧ Y !! S t = Some (p * x + eta (S t))%Q.
Proof.
  intros p epsilon eta Hn.
  set (N := Z.to_nat n).
  exists ((λ t, (coupled p epsilon eta t).1) <$> seq 0 N),
         ((λ t, (coupled p epsilon eta t).2) <$> seq 0 N),
         (λ i, g (N + (N + i))%nat).
  split.
  - unfold CorrelatedAR1_simulate. fold p.
    rewrite np_random_uniform_run by lia. cbv beta iota. fold N.
    rewrite np_random_normal_run by (lia || discriminate). cbv beta iota. fold N.
    change ((λ i, 0 + (1 - 0) * g i)%Q <$> seq 0 N) with (epsilon <$> seq 0 N).
    change ((λ i, 0 + 1 * g (N + i)%nat)%Q <$> seq 0 N) with (eta <$> seq 0 N).
    rewrite <- (Z2Nat.id n) at 1 by lia. fold N.
    rewrite (simulate_arrays_run _ epsilon eta
               (λ t, (coupled p epsilon eta t).1)
               (λ t, (coupled p epsilon eta t).2) N);
      [reflexivity|lia|reflexivity|reflexivity|].
    intros k X Y Hk HX HY Hx Hy.
    rewrite (CorrelatedAR1_body_step p epsilon eta N k X Y _ _ Hk HX HY Hx Hy).
    destruct k as [|k]; [lia|].
    cbn [Nat.sub coupled]. rewrite Nat.sub_0_r.
    destruct (coupled p epsilon eta k) as [x y]. reflexivity.
  - split; [rewrite length_fmap, length_seq; lia|].
    split; [rewrite length_fmap, length_seq; lia|].
    split; [intros i; f_equal; lia|].
    split; [rewrite lookup_draws by lia; reflexivity|].
    split; [rewrite lookup_draws by lia; reflexivity|].
    intros t Ht. eexists _, _.
    split; [apply lookup_draws; lia|]. split; [apply lookup_draws; lia|].
    rewrite !lookup_draws by lia. cbn [coupled].
    destruct (coupled p epsilon eta t) as [x y]. split; reflexivity.
Qed.

(** X16: what [NonlinearLag1.simulate] returns.  For [n >= 1] and a scale
    [sigma2 >= 0] the series [Y] is the second run of innovations itself,
    and [X[t]] for [t >= 1] is the product of the [t]-th innovation of the
    first run with [Y[t-1]]; [X[0]] is the first innovation. *)
Theorem nonlinear_lag1_products (n : Z) (sigma2 : option Q) (g : variates) :
  let s := default 1%Q sigma2 in
  let epsilon := λ t : nat, (0 + s * g t)%Q in
  let eta := λ t : nat, (0 + s * g (Z.to_nat n + t)%nat)%Q in
  1 ≤ n → (0 <= s)%Q →
  ∃ X Y g',
    NonlinearLag1_simulate n sigma2 g = Ok ((X, Y), g')
    ∧ Z.of_nat (length X) = n
    ∧ Y = eta <$> seq 0 (Z.to_nat n)
    ∧ (∀ i, g' i = g (2 * Z.to_nat n + i)%nat)
    ∧ X !! 0%nat = Some (epsilon 0%nat)
    ∧ ∀ t : nat, Z.of_nat (S t) < n →
        ∃ y, Y !! t = Some y ∧ X !! S t = Some (epsilon (S t) * y)%Q.
Proof.
  intros s epsilon eta Hn Hs.
  set (N := Z.to_nat n).
  exists (lagged_product epsilon eta <$> seq 0 N), (eta <$> seq 0 N),
         (λ i, g (N + (N + i))%nat).
  split.
  - unfold NonlinearLag1_simulate. fold s.
    rewrite np_random_normal_run by (lia || exact Hs). cbv beta iota. fold N.
    rewrite np_random_normal_run by (lia || exact Hs). cbv beta iota. fold N.
    change ((λ i, 0 + s * g i)%Q <$> seq 0 N) with (epsilon <$> seq 0 N).
    change ((λ i, 0 + s * g (N + i)%nat)%Q <$> seq 0 N) with (eta <$> seq 0 N).
    rewrite <- (Z2Nat.id n) at 1 by lia. fold N.
    rewrite (simulate_arrays_run _ epsilon eta (lagged_product epsilon eta) eta N);
      [reflexivity|lia|reflexivity|reflexivity|].
    intros k X Y Hk HX HY Hx Hy.
    rewrite (NonlinearLag1_body_step epsilon eta N k X Y _ Hk HX HY Hy).
    destruct k as [|k]; [lia|].
    cbn [Nat.sub lagged_product]. rewrite Nat.sub_0_r. reflexivity.
  - split; [rewrite length_fmap, length_seq; lia|].
    split; [reflexivity|].
    split; [intros i; f_equal; lia|].
    split; [rewrite lookup_draws by lia; reflexivity|].
    intros t Ht. eexists.
    split; [apply lookup_draws; lia|].
    rewrite lookup_draws by lia. reflexivity.
Qed.

(** X17: the simulators need one observation at least.  With [n = 0] the
    innovations are empty arrays and the line [X[0] = epsilons[0]] raises
    [IndexError] in each of the three simulators; with [n < 0] the first
    draw raises [ValueError]. *)
Theorem simulate_without_observations (n : Z) (phi sigma2 : option Q)
    (g : variates) :
  (0 <= default 1 sigma2)%Q →
  (n = 0 →
     IndependentAR1_simulate n phi sigma2 g = Raise IndexError
     ∧ CorrelatedAR1_simulate n phi sigma2 g = Raise IndexError
     ∧ NonlinearLag1_simulate n sigma2 g = Raise IndexError)
  ∧ (n < 0 →
     IndependentAR1_simulate n phi sigma2 g = Raise ValueError
     ∧ CorrelatedAR1_simulate n phi sigma2 g = Raise ValueError
     ∧ NonlinearLag1_simulate n sigma2 g = Raise ValueError).
Proof.
  intros Hs. split.
  - intros ->.
    unfold IndependentAR1_simulate, CorrelatedAR1_simulate, NonlinearLag1_simulate.
    rewrite !np_random_normal_run by (lia || exact Hs || discriminate).
    rewrite np_random_uniform_run by lia.
    cbv beta iota.
    rewrite !np_random_normal_run by (lia || exact Hs || discriminate).
    repeat split.
  - intros Hn.
    unfold IndependentAR1_simulate, CorrelatedAR1_simulate, NonlinearLag1_simulate,
      np_random_normal, np_random_uniform.
    destruct (Z.ltb_spec n 0); [|lia]. repeat split.
Qed.
(** * Examples for the further properties *)

Lemma optimal_lag_is_earliest_maximum_example :
  let w := Demo.start (Demo.object (Some 2) Demo.engine) in
  let D := Demo.compute_distance (as_2d Demo.X4) (as_2d Demo.Y4) None in
  ∃ statistic metadata w' arr,
    test_statistic Demo.compute_distance Demo.X4 Demo.Y4 w
    = (Ok (statistic, metadata), w')
    ∧ heap w' !! dependence_by_lag metadata = Some arr
    ∧ 0 ≤ optimal_lag metadata ≤ 2
    ∧ (∀ j, 0 ≤ j ≤ 2 →
         (entry arr j <= entry arr (optimal_lag metadata))%Q)
    ∧ (∀ j, 0 ≤ j < optimal_lag metadata →
         (entry arr j < entry arr (optimal_lag metadata))%Q)
    ∧ optimal_scale metadata
      = (if optimal_lag metadata =? 0
         then (MGC_test_statistic Demo.engine D.1 D.2).2
         else lag_scale Demo.engine D.1 D.2 4 (optimal_lag metadata)).
Proof.
  intros w D.
  apply (optimal_lag_is_earliest_maximum Demo.compute_distance Demo.X4 Demo.Y4 w).
  - reflexivity.
  - vm_compute. discriminate.
  - left. vm_compute. discriminate.
Defined.

Lemma negative_max_lag_fails_example :
  let w3 := Demo.start (Demo.object (Some (-3)) Demo.engine) in
  let w1 := Demo.start (Demo.object (Some (-1)) Demo.engine) in
  let D := Demo.compute_distance (as_2d Demo.X4) (as_2d Demo.Y4) None in
  test_statistic Demo.compute_distance Demo.X4 Demo.Y4 w3 = (Raise ValueError, w3)
  ∧ test_statistic Demo.compute_distance Demo.X4 Demo.Y4 w1
    = (Raise IndexError,
       {| self := self w1; heap := heap w1 ++ [[]]; rng := rng w1;
          engine_log := engine_log w1 ++ [(D.1, D.2)] |}).
Proof.
  intros w3 w1 D. split.
  - apply (negative_max_lag_fails Demo.compute_distance Demo.X4 Demo.Y4 w3).
    + reflexivity.
    + vm_compute. reflexivity.
  - apply (negative_max_lag_fails Demo.compute_distance Demo.X4 Demo.Y4 w1).
    + reflexivity.
    + reflexivity.
Defined.

Lemma dependence_by_lag_signs_example :
  let w := Demo.start (Demo.object (Some 6) Demo.engine) in
  ∃ statistic metadata w' arr,
    test_statistic Demo.compute_distance Demo.X4 Demo.Y4 w
    = (Ok (statistic, metadata), w')
    ∧ heap w' !! dependence_by_lag metadata = Some arr
    ∧ (∀ j, 0 ≤ j ≤ 6 → j ≤ 4 → (0 <= entry arr j)%Q)
    ∧ (∀ j, 1 ≤ j ≤ 6 → 4 ≤ j → (entry arr j <= 0)%Q)
    ∧ (6 ≤ 4 → (0 <= statistic)%Q).
Proof.
  intros w.
  apply (dependence_by_lag_signs Demo.compute_distance Demo.X4 Demo.Y4 w).
  - reflexivity.
  - vm_compute. discriminate.
  - left. vm_compute. discriminate.
Defined.

Lemma engine_calls_by_lag_example :
  let w := Demo.start (Demo.object (Some 2) Demo.engine) in
  let D := Demo.compute_distance (as_2d Demo.X4) (as_2d Demo.Y4) None in
  ∃ r w' calls,
    test_statistic Demo.compute_distance Demo.X4 Demo.Y4 w = (Ok r, w')
    ∧ engine_log w' = engine_log w ++ calls
    ∧ Z.of_nat (length calls) = 2 + 1
    ∧ ∀ j, 0 ≤ j ≤ 2 → j ≤ 4 →
        ∃ A B, calls !! Z.to_nat j = Some (A, B)
               ∧ A = drop_first (Z.to_nat j) D.1
               ∧ B = drop_last (Z.to_nat j) D.2
               ∧ is_square (Z.to_nat (4 - j)) A
               ∧ is_square (Z.to_nat (4 - j)) B.
Proof.
  intros w D.
  apply (engine_calls_by_lag Demo.compute_distance Demo.X4 Demo.Y4 w).
  - reflexivity.
  - vm_compute. split; [reflexivity|]. repeat constructor.
  - vm_compute. split; [reflexivity|]. repeat constructor.
  - vm_compute. discriminate.
  - left. vm_compute. discriminate.
Defined.

Lemma test_statistic_twice_example :
  let w := Demo.start (Demo.object (Some 2) Demo.engine) in
  ∃ statistic md1 w1 md2 w2 arr,
    test_statistic Demo.compute_distance Demo.X4 Demo.Y4 w
    = (Ok (statistic, md1), w1)
    ∧ test_statistic Demo.compute_distance Demo.X4 Demo.Y4 w1
      = (Ok (statistic, md2), w2)
    ∧ optimal_lag md2 = optimal_lag md1
    ∧ optimal_scale md2 = optimal_scale md1
    ∧ dependence_by_lag md2 = S (dependence_by_lag md1)
    ∧ heap w1 !! dependence_by_lag md1 = Some arr
    ∧ heap w2 !! dependence_by_lag md1 = Some arr
    ∧ heap w2 !! dependence_by_lag md2 = Some arr.
Proof.
  intros w.
  apply (test_statistic_twice Demo.compute_distance Demo.X4 Demo.Y4 w).
  - reflexivity.
  - vm_compute. discriminate.
  - left. vm_compute. discriminate.
Defined.

Lemma default_object_statistic_example :
  let w := Demo.start (MGCX_init Demo.engine Demo.base_init None None) in
  let D := Demo.compute_distance (as_2d Demo.X4) (as_2d Demo.Y4) None in
  let s0 := MGC_test_statistic Demo.engine D.1 D.2 in
  ∃ statistic metadata w',
    test_statistic Demo.compute_distance Demo.X4 Demo.Y4 w
    = (Ok (statistic, metadata), w')
    ∧ statistic == Qmax 0 s0.1
    ∧ optimal_lag metadata = 0
    ∧ optimal_scale metadata = s0.2
    ∧ heap w' !! dependence_by_lag metadata = Some [Qmax 0 s0.1]
    ∧ engine_log w' = engine_log w ++ [(D.1, D.2)].
Proof.
  intros w D s0.
  apply (default_object_statistic Demo.engine Demo.compute_distance
           Demo.base_init None Demo.X4 Demo.Y4 w).
  - reflexivity.
  - reflexivity.
Defined.

Lemma p_value_of_empty_series_example :
  let w := Demo.start (Demo.object None Demo.engine) in
  ∃ w',
    p_value Demo.compute_distance Demo.sqrt3 Demo.cdf (Array1 []) (Array1 [])
      None None w
    = (Raise ZeroDivisionError, w')
    ∧ rng w' = rng w
    ∧ p_value_ (self w') = p_value_ (self w)
    ∧ Z.of_nat (length (engine_log w')) = Z.of_nat (length (engine_log w)) + 1.
Proof.
  intros w.
  apply (p_value_of_empty_series Demo.compute_distance Demo.sqrt3 Demo.cdf
           (Array1 []) (Array1 []) None None w).
  - reflexivity.
  - reflexivity.
  - reflexivity.
  - exact Demo_contract.
  - right. vm_compute. discriminate.
Defined.

Lemma p_value_negative_replications_example :
  let w := Demo.start (Demo.object (Some 1) Demo.engine) in
  ∃ p metadata w',
    p_value Demo.compute_distance Demo.sqrt3 Demo.cdf Demo.X4 Demo.Y4
      (Some (-5)) None w
    = (Ok (p, metadata), w')
    ∧ p = (1 / inject_Z (-5))%Q
    ∧ (p < 0)%Q
    ∧ heap w' !! null_distribution metadata = Some []
    ∧ rng w' = rng w
    ∧ p_value_ (self w') = Some p.
Proof.
  intros w.
  apply (p_value_negative_replications Demo.compute_distance Demo.sqrt3 Demo.cdf
           Demo.X4 Demo.Y4 (-5) None w).
  - reflexivity.
  - vm_compute. discriminate.
  - left. vm_compute. discriminate.
  - exact Demo_contract.
  - reflexivity.
  - reflexivity.
Defined.

Lemma blocks_keep_runs_example :
  let w := Demo.start (Demo.object (Some 2) Demo.engine) in
  ∃ permuted_indices w',
    block_permutation 10 (ceil_sqrt 10) w = (Ok permuted_indices, w')
    ∧ ∀ i : nat, Z.of_nat (S i) < 10 →
        (S i mod Z.to_nat (ceil_sqrt 10) ≠ 0)%nat →
        ∃ x, permuted_indices !! i = Some x
             ∧ permuted_indices !! S i = Some ((x + 1) `mod` 10).
Proof.
  intros w. apply (blocks_keep_runs 10 w). lia.
Defined.

Lemma permuted_matrix_cells_example :
  let w := Demo.start (Demo.object (Some 2) Demo.engine) in
  let dist_Y := Demo.pairwise (as_2d Demo.Y4) in
  ∃ permuted_indices w' permuted_Y,
    block_permutation 4 (ceil_sqrt 4) w = (Ok permuted_indices, w')
    ∧ ix_ dist_Y permuted_indices permuted_indices w' = (Ok permuted_Y, w')
    ∧ (∀ (i j : nat) (p q : Z),
         permuted_indices !! i = Some p → permuted_indices !! j = Some q →
         cell permuted_Y i j = cell dist_Y (Z.to_nat p) (Z.to_nat q))
    ∧ ((∀ a b, cell dist_Y a b = cell dist_Y b a) →
       ∀ i j, cell permuted_Y i j = cell permuted_Y j i)
    ∧ ((∀ a x, cell dist_Y a a = Some x → x == 0) →
       ∀ i x, cell permuted_Y i i = Some x → x == 0).
Proof.
  intros w dist_Y. apply (permuted_matrix_cells 4 dist_Y w).
  - lia.
  - vm_compute. split; [reflexivity|]. repeat constructor.
Defined.

Lemma fast_path_overwrites_statistic_example :
  let w := Demo.start (Demo.object (Some 0) Demo.engine) in
  let D := Demo.compute_distance (as_2d Demo.X10) (as_2d Demo.Y10) None in
  ∃ p metadata w' observed metadata0 w0 arr v,
    test_statistic Demo.compute_distance (Array2 D.1) (Array2 D.2) w
    = (Ok (observed, metadata0), w0)
    ∧ test_statistic_ (self w0) = Some observed
    ∧ p_value Demo.compute_distance Demo.sqrt3 Demo.cdf Demo.X10 Demo.Y10
        None (Some true) w
      = (Ok (p, metadata), w')
    ∧ heap w' !! null_distribution metadata = Some arr
    ∧ arr !! Z.to_nat (10 / 10 - 1) = Some v
    ∧ test_statistic_ (self w') = Some v.
Proof.
  intros w D.
  apply (fast_path_overwrites_statistic Demo.compute_distance Demo.sqrt3 Demo.cdf
           Demo.X10 Demo.Y10 None w).
  - reflexivity.
  - vm_compute. discriminate.
  - vm_compute. discriminate.
  - vm_compute. discriminate.
  - exact Demo_contract.
  - reflexivity.
Defined.


Lemma compute_power_beyond_series_example :
  let w := Demo.start (Demo.object (Some 1) Demo.engine) in
  compute_power Demo.compute_distance Demo.sqrt3 Demo.cdf false
    Demo.X_full Demo.Y_full 3 (1 # 20)%Q 5 w
  = (Raise IndexError, w).
Proof.
  intros w.
  apply (compute_power_beyond_series Demo.compute_distance Demo.sqrt3 Demo.cdf
           false Demo.X_full Demo.Y_full 3 (1 # 20)%Q 5 w).
  - vm_compute. reflexivity.
  - lia.
Defined.

Lemma independent_ar1_closed_form_example :
  let epsilon := λ t : nat, (0 + 2 * Demo.noise t)%Q in
  let eta := λ t : nat, (0 + 2 * Demo.noise (4 + t)%nat)%Q in
  ∃ X Y g',
    IndependentAR1_simulate 4 (Some (1 # 3)%Q) (Some 2%Q) Demo.noise
    = Ok ((X, Y), g')
    ∧ Z.of_nat (length X) = 4 ∧ Z.of_nat (length Y) = 4
    ∧ (∀ i, g' i = Demo.noise (2 * 4 + i)%nat)
    ∧ ∀ t : nat, Z.of_nat t < 4 →
        ∃ x y, X !! t = Some x ∧ Y !! t = Some y
               ∧ x == discounted_sum (1 # 3) epsilon t
               ∧ y == discounted_sum (1 # 3) eta t.
Proof.
  intros epsilon eta.
  apply (independent_ar1_closed_form 4 (Some (1 # 3)%Q) (Some 2%Q) Demo.noise).
  - lia.
  - discriminate.
Defined.

Lemma correlated_ar1_recurrence_example :
  let epsilon := λ t : nat, (0 + (1 - 0) * Demo.noise t)%Q in
  let eta := λ t : nat, (0 + 1 * Demo.noise (4 + t)%nat)%Q in
  ∃ X Y g',
    CorrelatedAR1_simulate 4 None (Some 2%Q) Demo.noise = Ok ((X, Y), g')
    ∧ Z.of_nat (length X) = 4 ∧ Z.of_nat (length Y) = 4
    ∧ (∀ i, g' i = Demo.noise (2 * 4 + i)%nat)
    ∧ X !! 0%nat = Some (epsilon 0%nat) ∧ Y !! 0%nat = Some (eta 0%nat)
    ∧ ∀ t : nat, Z.of_nat (S t) < 4 →
        ∃ x y, X !! t = Some x ∧ Y !! t = Some y
               ∧ X !! S t = Some ((1 # 2) * y + epsilon (S t))%Q
               ∧ Y !! S t = Some ((1 # 2) * x + eta (S t))%Q.
Proof.
  intros epsilon eta.
  apply (correlated_ar1_recurrence 4 None (Some 2%Q) Demo.noise). lia.
Defined.

Lemma nonlinear_lag1_products_example :
  let epsilon := λ t : nat, (0 + 1 * Demo.noise t)%Q in
  let eta := λ t : nat, (0 + 1 * Demo.noise (4 + t)%nat)%Q in
  ∃ X Y g',
    NonlinearLag1_simulate 4 None Demo.noise = Ok ((X, Y), g')
    ∧ Z.of_nat (length X) = 4
    ∧ Y = eta <$> seq 0 4
    ∧ (∀ i, g' i = Demo.noise (2 * 4 + i)%nat)
    ∧ X !! 0%nat = Some (epsilon 0%nat)
    ∧ ∀ t : nat, Z.of_nat (S t) < 4 →
        ∃ y, Y !! t = Some y ∧ X !! S t = Some (epsilon (S t) * y)%Q.
Proof.
  intros epsilon eta.
  apply (nonlinear_lag1_products 4 None Demo.noise).
  - lia.
  - discriminate.
Defined.

Lemma simulate_without_observations_example :
  IndependentAR1_simulate 0 None None Demo.noise = Raise IndexError
  ∧ CorrelatedAR1_simulate 0 None None Demo.noise = Raise IndexError
  ∧ NonlinearLag1_simulate 0 None Demo.noise = Raise IndexError.
Proof.
  apply (simulate_without_observations 0 None None Demo.noise).
  - discriminate.
  - reflexivity.
Defined.
Lemma fast_path_draws_example :
  let w := Demo.start (Demo.object (Some 0) Demo.engine) in
  ∃ r w',
    p_value Demo.compute_distance Demo.sqrt3 Demo.cdf Demo.X10 Demo.Y10
      None (Some true) w = (Ok r, w')
    ∧ ∀ i, rng w' i = rng w (Z.to_nat (10 / ceil_sqrt 10 + 1) + i)%nat.
Proof.
  intros w.
  apply (fast_path_draws Demo.compute_distance Demo.sqrt3 Demo.cdf
           Demo.X10 Demo.Y10 None w).
  - reflexivity.
  - vm_compute. discriminate.
  - vm_compute. discriminate.
  - vm_compute. discriminate.
  - exact Demo_contract.
  - reflexivity.
Defined.

Lemma p_value_compares_with_test_statistic_example :
  let w := Demo.start (Demo.object (Some 1) Demo.engine) in
  ∃ p metadata w' stats observed metadata0 w0,
    test_statistic Demo.compute_distance Demo.X4 Demo.Y4 w
    = (Ok (observed, metadata0), w0)
    ∧ p_value Demo.compute_distance Demo.sqrt3 Demo.cdf Demo.X4 Demo.Y4
        (Some 3) None w
      = (Ok (p, metadata), w')
    ∧ heap w' !! null_distribution metadata = Some stats
    ∧ p = claimed_p_value stats observed 3.
Proof.
  intros w.
  apply (p_value_compares_with_test_statistic Demo.compute_distance Demo.sqrt3
           Demo.cdf Demo.X4 Demo.Y4 (Some 3) None w).
  - reflexivity.
  - vm_compute. discriminate.
  - vm_compute. discriminate.
  - exact Demo_contract.
  - vm_compute. reflexivity.
  - reflexivity.
  - vm_compute. discriminate.
Defined.

(** The fast path on ten observations, evaluated: the observed statistic
    is 1125, and after the call [self.test_statistic_] holds 1227, the
    statistic of the only block. *)
Lemma fast_path_statistic_on_ten_observations :
  let w := Demo.start (Demo.object (Some 0) Demo.engine) in
  let r := p_value Demo.compute_distance Demo.sqrt3 Demo.cdf
             Demo.X10 Demo.Y10 None (Some true) w in
  (∃ md w0, test_statistic Demo.compute_distance Demo.X10 Demo.Y10 w
            = (Ok (1125%Q, md), w0))
  ∧ test_statistic_ (self r.2) = Some 1227%Q.
Proof.
  intros w r. split.
  - eexists _, _. vm_compute. reflexivity.
  - vm_compute. reflexivity.
Qed.
Lemma agreement_le_1 (A B : matrix) : (Demo.agreement A B <= 1)%Q.
Proof.
  unfold Demo.agreement.
  set (pairs := zip_with _ (concat A) (concat B)).
  pose proof (length_filter (λ b : bool, b = true) pairs) as Hf.
  unfold Qle. cbn [Qnum Qden]. rewrite Z.mul_1_r, Z.mul_1_l.
  destruct (length pairs) as [|k] eqn:E.
  - assert (Hz : length (filter (λ b : bool, b = true) pairs) = 0%nat) by lia.
    rewrite Hz. cbn. lia.
  - rewrite <- Pos.of_nat_succ, Zpos_P_of_succ_nat. lia.
Qed.

Lemma statistic_range_example :
  let w := Demo.start (Demo.object (Some 2) Demo.share_engine) in
  ∃ statistic metadata w' arr,
    test_statistic Demo.compute_distance Demo.X4 Demo.Y4 w
    = (Ok (statistic, metadata), w')
    ∧ heap w' !! dependence_by_lag metadata = Some arr
    ∧ (∀ j, 0 ≤ j ≤ 2 → (0 <= entry arr j)%Q ∧ (entry arr j <= 1)%Q)
    ∧ (0 <= statistic)%Q ∧ (statistic <= inject_Z (2 + 1))%Q.
Proof.
  intros w.
  apply (statistic_range Demo.compute_distance Demo.X4 Demo.Y4 w).
  - intros A B. apply agreement_le_1.
  - reflexivity.
  - vm_compute. split; discriminate.
  - left. vm_compute. discriminate.
Defined.
Lemma statistic_grows_with_max_lag_example :
  let w := Demo.start (Demo.object (Some 1) Demo.engine) in
  let w2 := with_self (set_max_lag (Some (1 + 1)) (self w)) w in
  ∃ s1 md1 w1' s2 md2 w2' arr v,
    test_statistic Demo.compute_distance Demo.X4 Demo.Y4 w = (Ok (s1, md1), w1')
    ∧ test_statistic Demo.compute_distance Demo.X4 Demo.Y4 w2
      = (Ok (s2, md2), w2')
    ∧ heap w1' !! dependence_by_lag md1 = Some arr
    ∧ heap w2' !! dependence_by_lag md2 = Some (arr ++ [v])
    ∧ (0 <= v)%Q
    ∧ s2 == s1 + v
    ∧ (s1 <= s2)%Q.
Proof.
  intros w w2.
  apply (statistic_grows_with_max_lag Demo.compute_distance Demo.X4 Demo.Y4 1 w).
  - reflexivity.
  - lia.
  - vm_compute. discriminate.
  - reflexivity.
Defined.

